(** * SiriDB insert pipeline and admin client: a shallow embedding

    The development follows [src/siri/admin/client.c] (the admin client's
    request/timeout handlers) and the insert handler that is stored in the
    same file ([siridb_insert_err_msg], [siridb_insert_assign_pools],
    [assign_by_map], [siridb_insert_points], [send_points_to_pools]).

    The qpack codec, the pool router, the series registry and the transport
    are collaborators whose code is not part of the sources; they are
    modelled at the level of decoded tokens and of the calls made to them. *)

From Stdlib Require Import ZArith Lia DecimalString.
From stdpp Require Import gmap strings list fin_maps.

(** ** Machine integers *)

Definition UINT32_MAX : Z := 4294967295.

(** [int32_t] arithmetic wraps around modulo 2^32. *)
Definition wrap_int32 (z : Z) : Z := ((z + 2 ^ 31) mod 2 ^ 32 - 2 ^ 31)%Z.

(** A [size_t] printed with [%zd] is read as a signed 64-bit number. *)
Definition as_ssize_t (z : Z) : Z := ((z + 2 ^ 63) mod 2 ^ 64 - 2 ^ 63)%Z.

(** ** The wire codec, at token level *)

Inductive qp_types_t : Set :=
  | QP_END
  | QP_RAW
  | QP_INT64
  | QP_DOUBLE
  | QP_ARRAY1
  | QP_ARRAY2
  | QP_ARRAY3
  | QP_ARRAY4
  | QP_ARRAY5
  | QP_ARRAY_OPEN
  | QP_MAP_OPEN
  | QP_ARRAY_CLOSE
  | QP_MAP_CLOSE.

#[global] Instance qp_types_eq_dec : EqDecision qp_types_t.
Proof. solve_decision. Defined.

(** One decoded item of a qpack buffer.  A double is kept as its 64-bit
    IEEE-754 pattern: the insert path only copies it. *)
Inductive token : Set :=
  | T_RAW (raw : string)
  | T_INT64 (int64 : Z)
  | T_DOUBLE (real : Z)
  | T_ARRAY1
  | T_ARRAY2
  | T_ARRAY3
  | T_ARRAY4
  | T_ARRAY5
  | T_ARRAY_OPEN
  | T_MAP_OPEN
  | T_ARRAY_CLOSE
  | T_MAP_CLOSE.

#[global] Instance token_eq_dec : EqDecision token.
Proof. solve_decision. Defined.

Definition tp_of (t : token) : qp_types_t :=
  match t with
  | T_RAW _ => QP_RAW
  | T_INT64 _ => QP_INT64
  | T_DOUBLE _ => QP_DOUBLE
  | T_ARRAY1 => QP_ARRAY1
  | T_ARRAY2 => QP_ARRAY2
  | T_ARRAY3 => QP_ARRAY3
  | T_ARRAY4 => QP_ARRAY4
  | T_ARRAY5 => QP_ARRAY5
  | T_ARRAY_OPEN => QP_ARRAY_OPEN
  | T_MAP_OPEN => QP_MAP_OPEN
  | T_ARRAY_CLOSE => QP_ARRAY_CLOSE
  | T_MAP_CLOSE => QP_MAP_CLOSE
  end.

(** The token written for a bare type tag; scalar tags carry a payload and
    have no bare form. *)
Definition type_token (tp : qp_types_t) : option token :=
  match tp with
  | QP_ARRAY1 => Some T_ARRAY1
  | QP_ARRAY2 => Some T_ARRAY2
  | QP_ARRAY3 => Some T_ARRAY3
  | QP_ARRAY4 => Some T_ARRAY4
  | QP_ARRAY5 => Some T_ARRAY5
  | QP_ARRAY_OPEN => Some T_ARRAY_OPEN
  | QP_MAP_OPEN => Some T_MAP_OPEN
  | QP_ARRAY_CLOSE => Some T_ARRAY_CLOSE
  | QP_MAP_CLOSE => Some T_MAP_CLOSE
  | QP_END | QP_RAW | QP_INT64 | QP_DOUBLE => None
  end.

(** [qp_obj_t]: the slot filled by [qp_next]; [None] after the end of the
    stream.  The accessors read the members of its [via] union. *)
Definition qp_obj_t : Set := option token.

Definition via_raw (o : qp_obj_t) : string :=
  match o with Some (T_RAW s) => s | _ => EmptyString end.

Definition via_int64 (o : qp_obj_t) : Z :=
  match o with Some (T_INT64 i) => i | _ => 0%Z end.

Definition via_real (o : qp_obj_t) : Z :=
  match o with Some (T_DOUBLE r) => r | _ => 0%Z end.

Definition obj_len (o : qp_obj_t) : nat := String.length (via_raw o).

Definition qp_unpacker_t : Set := list token.
Definition qp_packer_t : Set := list token.

(** Modelled from the spec: [qp_next] is part of the qpack library, which is
    not in the sources.  "The decoder is a pull parser: each call advances
    one token and fills a caller-provided slot"; at the end of the buffer it
    reports [QP_END] and stays there.  The result is the token's type, the
    slot's new content and the advanced unpacker; a caller that passes
    [NULL] drops the second component. *)
Definition qp_next (unpacker : qp_unpacker_t)
  : qp_types_t * qp_obj_t * qp_unpacker_t :=
  match unpacker with
  | [] => (QP_END, None, [])
  | t :: rest => (tp_of t, Some t, rest)
  end.

(** Modelled from the spec: the qpack predicates over type tags, "fixed-arity
    array header" [ARRAYn] or [ARRAY_OPEN] for arrays, [MAP_OPEN] for maps. *)
Definition qp_is_array (tp : qp_types_t) : bool :=
  match tp with
  | QP_ARRAY1 | QP_ARRAY2 | QP_ARRAY3 | QP_ARRAY4 | QP_ARRAY5
  | QP_ARRAY_OPEN => true
  | _ => false
  end.

Definition qp_is_map (tp : qp_types_t) : bool :=
  match tp with QP_MAP_OPEN => true | _ => false end.

(** The C string terminator. *)
Definition NUL : Ascii.ascii := Ascii.zero.

(** *** The packers *)

Definition qp_new_packer : qp_packer_t := [].

(** Modelled from the spec: the encoder "appends tokens to a growable
    buffer" and "never inspects contents"; [push_raw_term] is the
    "terminated-raw shortcut", which writes the bytes and a terminator. *)
Definition qp_add_type (packer : qp_packer_t) (tp : qp_types_t) : qp_packer_t :=
  packer ++ option_list (type_token tp).

Definition qp_add_raw (packer : qp_packer_t) (raw : string) (len : nat)
  : qp_packer_t :=
  packer ++ [T_RAW (String.substring 0 len raw)].

Definition qp_add_raw_term (packer : qp_packer_t) (raw : string) (len : nat)
  : qp_packer_t :=
  packer ++ [T_RAW (String.substring 0 len raw +:+ String NUL EmptyString)].

Definition qp_add_int64 (packer : qp_packer_t) (i : Z) : qp_packer_t :=
  packer ++ [T_INT64 i].

Definition qp_add_double (packer : qp_packer_t) (r : Z) : qp_packer_t :=
  packer ++ [T_DOUBLE r].

(** [packer[]] is the array of per-pool encoders; [at_pool packer pool f] is
    a call [f(packer[pool], ..)], which writes to the packer of one pool. *)
Definition at_pool (packer : list qp_packer_t) (pool : nat)
    (f : qp_packer_t -> qp_packer_t) : list qp_packer_t :=
  alter f pool packer.

(** Appending a run of tokens to the packer of one pool. *)
Definition qp_write (packer : list qp_packer_t) (pool : nat)
    (ts : list token) : list qp_packer_t :=
  at_pool packer pool (fun buffer => buffer ++ ts).

(** ** The database handle *)

Inductive series_tp : Set :=
  | SIRIDB_SERIES_TP_INT
  | SIRIDB_SERIES_TP_DOUBLE
  | SIRIDB_SERIES_TP_STRING.

#[global] Instance series_tp_eq_dec : EqDecision series_tp.
Proof. solve_decision. Defined.

(** The members of [siridb_t] that the insert path reads: the number of
    pools ([siridb->pools->size]), this server's pool
    ([siridb->server->pool]), the series registry ([siridb->series]), and
    the collaborators' configuration: the router's hash of a series name and
    the accepted time-stamp window. *)
Record siridb_t := {
  pools_size : nat;
  server_pool : nat;
  sn_hash : string -> nat;
  ts_min : Z;
  ts_max : Z;
  series : gmap string series_tp
}.

(** Modelled from the spec: the pool router is not in the sources.
    "[pool_id = hash(series_name) mod pool_count] where [hash] is provided by
    the cluster collaborator". *)
Definition siridb_pool_sn_raw (siridb : siridb_t) (raw : string) (len : nat)
  : nat :=
  sn_hash siridb (String.substring 0 len raw) mod pools_size siridb.

(** Modelled from the spec: the time-stamp check is not in the sources.
    "Timestamp is validated against a configured [[ts_min, ts_max]]
    window". *)
Definition siridb_int64_valid_ts (siridb : siridb_t) (ts : Z) : bool :=
  bool_decide (ts_min siridb <= ts)%Z && bool_decide (ts <= ts_max siridb)%Z.

(** ** Insert error codes *)

(** Modelled from the spec: the enumeration [siridb_insert_err_t] is declared
    in a header that is not in the sources.  Its seven members are listed in
    the order of the message table and are "represented as the negative
    values [-SIRIDB_INSERT_ERR_SIZE..-1]". *)
Definition SIRIDB_INSERT_ERR_SIZE : Z := 7.
Definition ERR_EXPECTING_ARRAY : Z := (-7).
Definition ERR_EXPECTING_SERIES_NAME : Z := (-6).
Definition ERR_EXPECTING_MAP_OR_ARRAY : Z := (-5).
Definition ERR_EXPECTING_INTEGER_TS : Z := (-4).
Definition ERR_TIMESTAMP_OUT_OF_RANGE : Z := (-3).
Definition ERR_UNSUPPORTED_VALUE : Z := (-2).
Definition ERR_EXPECTING_AT_LEAST_ONE_POINT : Z := (-1).

Definition err_msg : list string := [
  "Expecting an array with points.";
  "Expecting a series name (string value) with an array of points where each point should be an integer time-stamp with a value.";
  "Expecting an array or map containing series and points.";
  "Expecting an integer value as time-stamp.";
  "Received at least one time-stamp which is out-of-range.";
  "Unsupported value received. (only integer, string and float values are supported).";
  "Expecting a series to have at least one point."
]%string.

(** Reading a C array: [None] stands for an access outside the array. *)
Definition c_index {A : Type} (table : list A) (i : Z) : option A :=
  if bool_decide (0 <= i)%Z then table !! Z.to_nat i else None.

Definition siridb_insert_err_msg (err : Z) : option string :=
  c_index err_msg (err + SIRIDB_INSERT_ERR_SIZE)%Z.

(** ** The batch classifier *)

(** How a loop of the classifier leaves: by a [return] of the enclosing
    function, or by falling out of the loop with the local variables. *)
Inductive points_exit : Type :=
  | Return (code : Z) (packer : list qp_packer_t)
  | Break (tp : qp_types_t) (unpacker : qp_unpacker_t) (qp_obj : qp_obj_t)
      (packer : list qp_packer_t) (count : Z).

(** The [for] loop of [assign_by_map] over the points of one series.  The
    recursion is bounded by [fuel]; [None] means the bound was too small. *)
Fixpoint assign_points (fuel : nat) (siridb : siridb_t) (pool : nat)
    (tp : qp_types_t) (unpacker : qp_unpacker_t) (qp_obj : qp_obj_t)
    (packer : list qp_packer_t) (count : Z) : option points_exit :=
  match fuel with
  | O => None
  | S fuel =>
    if bool_decide (tp = QP_ARRAY2) then
      let packer := at_pool packer pool (fun p => qp_add_type p QP_ARRAY2) in
      let '(tp_ts, qp_obj, unpacker) := qp_next unpacker in
      if bool_decide (tp_ts <> QP_INT64) then
        Some (Return ERR_EXPECTING_INTEGER_TS packer)
      else if negb (siridb_int64_valid_ts siridb (via_int64 qp_obj)) then
        Some (Return ERR_TIMESTAMP_OUT_OF_RANGE packer)
      else
        let packer :=
          at_pool packer pool (fun p => qp_add_int64 p (via_int64 qp_obj)) in
        let '(tp_val, qp_obj, unpacker) := qp_next unpacker in
        let added :=
          match tp_val with
          | QP_RAW =>
              Some (at_pool packer pool (fun p =>
                      qp_add_raw p (via_raw qp_obj) (obj_len qp_obj)))
          | QP_INT64 =>
              Some (at_pool packer pool (fun p =>
                      qp_add_int64 p (via_int64 qp_obj)))
          | QP_DOUBLE =>
              Some (at_pool packer pool (fun p =>
                      qp_add_double p (via_real qp_obj)))
          | _ => None
          end in
        match added with
        | None => Some (Return ERR_UNSUPPORTED_VALUE packer)
        | Some packer =>
            let count := wrap_int32 (count + 1) in
            let '(tp, qp_obj, unpacker) := qp_next unpacker in
            assign_points fuel siridb pool tp unpacker qp_obj packer count
        end
    else Some (Break tp unpacker qp_obj packer count)
  end.

(** The [while (tp == QP_RAW)] loop of [assign_by_map] and the code after
    it.  The result is the returned [int32_t] and the packers as the call
    leaves them. *)
Fixpoint assign_series (fuel : nat) (siridb : siridb_t) (tp : qp_types_t)
    (unpacker : qp_unpacker_t) (qp_obj : qp_obj_t)
    (packer : list qp_packer_t) (count : Z)
  : option (Z * list qp_packer_t) :=
  match fuel with
  | O => None
  | S fuel =>
    if bool_decide (tp = QP_RAW) then
      let pool := siridb_pool_sn_raw siridb (via_raw qp_obj) (obj_len qp_obj) in
      let packer :=
        at_pool packer pool (fun p =>
          qp_add_raw_term p (via_raw qp_obj) (obj_len qp_obj)) in
      let '(tp_arr, _, unpacker) := qp_next unpacker in
      if negb (qp_is_array tp_arr) then Some (ERR_EXPECTING_ARRAY, packer)
      else
        let packer := at_pool packer pool (fun p => qp_add_type p QP_ARRAY_OPEN) in
        let '(tp, _, unpacker) := qp_next unpacker in
        if bool_decide (tp <> QP_ARRAY2) then
          Some (ERR_EXPECTING_AT_LEAST_ONE_POINT, packer)
        else
          match assign_points fuel siridb pool tp unpacker qp_obj packer count
          with
          | None => None
          | Some (Return code packer) => Some (code, packer)
          | Some (Break tp unpacker qp_obj packer count) =>
              let '(tp, qp_obj, unpacker) :=
                if bool_decide (tp = QP_ARRAY_CLOSE) then qp_next unpacker
                else (tp, qp_obj, unpacker) in
              let packer :=
                at_pool packer pool (fun p => qp_add_type p QP_ARRAY_CLOSE) in
              assign_series fuel siridb tp unpacker qp_obj packer count
          end
    else if bool_decide (tp <> QP_END) && bool_decide (tp <> QP_MAP_CLOSE)
    then Some (ERR_EXPECTING_SERIES_NAME, packer)
    else Some (count, packer)
  end.

Definition assign_by_map (siridb : siridb_t) (unpacker : qp_unpacker_t)
    (packer : list qp_packer_t) (qp_obj : qp_obj_t)
  : option (Z * list qp_packer_t) :=
  let count := 0%Z in
  let '(tp, qp_obj, unpacker) := qp_next unpacker in
  assign_series (S (length unpacker)) siridb tp unpacker qp_obj packer count.

(** [packer[n] = qp_new_packer(..); qp_add_type(packer[n], QP_MAP_OPEN)] for
    every pool. *)
Definition new_packers (size : nat) : list qp_packer_t :=
  replicate size (qp_add_type qp_new_packer QP_MAP_OPEN).

Definition siridb_insert_assign_pools (siridb : siridb_t)
    (unpacker : qp_unpacker_t) (qp_obj : qp_obj_t)
  : option (Z * list qp_packer_t) :=
  let packer := new_packers (pools_size siridb) in
  let '(tp, _, unpacker) := qp_next unpacker in
  if qp_is_array tp then Some (0%Z, packer)
  else if qp_is_map tp then assign_by_map siridb unpacker packer qp_obj
  else Some (ERR_EXPECTING_MAP_OR_ARRAY, packer).

(** ** The insert dispatcher *)

(** The message types of the packages built in this file.  Their numeric
    values are declared in a header that is not in the sources. *)
Inductive pkg_tp : Set :=
  | SN_MSG_RESULT
  | CPROTO_REQ_AUTH
  | CPROTO_REQ_QUERY
  | CPROTO_RES_AUTH_SUCCESS
  | CPROTO_RES_QUERY
  | CPROTO_ERR_AUTH_CREDENTIALS
  | CPROTO_ERR_AUTH_UNKNOWN_DB
  | CPROTO_ERR_MSG
  | CPROTO_ERR_QUERY
  | CPROTO_ERR_INSERT
  | CPROTO_ERR_SERVER
  | CPROTO_ERR_POOL
  | CPROTO_ERR_USER_ACCESS
  | CPROTO_ERR_ADMIN
  | CPROTO_OTHER (code : nat).

#[global] Instance pkg_tp_eq_dec : EqDecision pkg_tp.
Proof. solve_decision. Defined.

(** [sirinet_pkg_t]: the request id, the type and the body.  The length
    field is the size of the body and the check bit is [tp ^ 255]; both are
    functions of the other fields and are left out. *)
Record sirinet_pkg_t : Set := {
  pkg_pid : Z;
  pkg_tp_of : pkg_tp;
  pkg_data : list token
}.

(** [siridb_insert_t] *)
Record siridb_insert_t : Set := {
  pid : Z;
  client : nat;
  size : Z;
  packer_size : nat;
  packer : list qp_packer_t
}.

(** The calls of the dispatcher on its collaborators: the series registry
    ([ct_get_sure], [siridb_create_series]), the storage's append interface,
    the transport to the peer of a pool, the reply channel of the client
    ([sirinet_send_pkg]) and the event loop ([uv_close]). *)
Inductive call : Set :=
  | Ct_get_sure (key : string)
  | Siridb_create_series (series_name : string) (tp : series_tp)
  | Storage_append (series_name : string) (ts : Z) (v : token)
  | Transport_send (pool : nat) (pkg : sirinet_pkg_t)
  | Sirinet_send_pkg (to : nat) (pkg : sirinet_pkg_t)
  | Uv_close_free_insert.

#[global] Instance sirinet_pkg_eq_dec : EqDecision sirinet_pkg_t.
Proof. solve_decision. Defined.

#[global] Instance call_eq_dec : EqDecision call.
Proof. solve_decision. Defined.

(** The type in the slot, [QP_END] once the stream has ended. *)
Definition obj_tp (o : qp_obj_t) : qp_types_t :=
  match o with Some t => tp_of t | None => QP_END end.

(** A [char *] read as a C string: the characters before the first
    terminator. *)
Fixpoint c_str (s : string) : string :=
  match s with
  | EmptyString => EmptyString
  | String c s' =>
      if bool_decide (c = NUL) then EmptyString else String c (c_str s')
  end.

(** Modelled from the spec: the mapping from a value's wire type to the
    type of a series is not in the sources.  "Value type must be one of the
    three listed": Integer, Float, ByteString. *)
Definition siridb_qp_map_tp (tp : qp_types_t) : series_tp :=
  match tp with
  | QP_INT64 => SIRIDB_SERIES_TP_INT
  | QP_DOUBLE => SIRIDB_SERIES_TP_DOUBLE
  | _ => SIRIDB_SERIES_TP_STRING
  end.

Definition set_series (siridb : siridb_t) (reg : gmap string series_tp)
  : siridb_t :=
  {| pools_size := pools_size siridb; server_pool := server_pool siridb;
     sn_hash := sn_hash siridb; ts_min := ts_min siridb;
     ts_max := ts_max siridb; series := reg |}.

(** [while ((tp = qp_next(unpacker, qp_series_name)) == QP_ARRAY2)]: the
    remaining points of a series are read into [qp_series_ts] and
    [qp_series_val], which nothing uses afterwards. *)
Fixpoint local_points (fuel : nat) (unpacker : qp_unpacker_t)
  : option (qp_types_t * qp_obj_t * qp_unpacker_t) :=
  match fuel with
  | O => None
  | S fuel =>
      let '(tp, qp_series_name, unpacker) := qp_next unpacker in
      if bool_decide (tp = QP_ARRAY2) then
        let '(_, _, unpacker) := qp_next unpacker in (* ts *)
        let '(_, _, unpacker) := qp_next unpacker in (* val *)
        local_points fuel unpacker
      else Some (tp, qp_series_name, unpacker)
  end.

(** [while (tp == QP_RAW)]: the series of the local sub-batch.  The state is
    the database handle, whose registry changes, and the calls made so
    far.

    Modelled from the spec: the registry is not in the sources.
    [ct_get_sure] returns the slot of a name, an empty slot for a name that
    is not registered ("get-or-create"); [ct_is_empty] tests the slot;
    [siridb_create_series] makes the series of the given type, which the
    caller stores in the slot.  The registry is a finite map from names to
    series types, and a name without an entry has an empty slot.

    The name is passed as [char *] without its length, so the key is the
    raw read as a C string.  The classifier writes every name with its
    terminator ([qp_add_raw_term]), and on the packers it builds the key is
    [c_str] of the raw.  A raw without a terminator would be read on into
    the bytes that follow it: the loop is a model of the source on the
    packers of the classifier only. *)
Fixpoint local_series (fuel : nat) (siridb : siridb_t) (tp : qp_types_t)
    (unpacker : qp_unpacker_t) (qp_series_name : qp_obj_t)
    (calls : list call) : option (siridb_t * list call) :=
  match fuel with
  | O => None
  | S fuel =>
    if bool_decide (tp = QP_RAW) then
      let key := c_str (via_raw qp_series_name) in
      let calls := calls ++ [Ct_get_sure key] in
      let '(_, _, unpacker) := qp_next unpacker in (* array open *)
      let '(_, _, unpacker) := qp_next unpacker in (* first point array2 *)
      let '(_, qp_series_ts, unpacker) := qp_next unpacker in (* first ts *)
      let '(_, qp_series_val, unpacker) := qp_next unpacker in (* first val *)
      let '(siridb, calls) :=
        match series siridb !! key with
        | None =>
            let tp := siridb_qp_map_tp (obj_tp qp_series_val) in
            (set_series siridb (<[key := tp]> (series siridb)),
             calls ++ [Siridb_create_series key tp])
        | Some _ => (siridb, calls)
        end in
      match local_points fuel unpacker with
      | None => None
      | Some (tp, qp_series_name, unpacker) =>
          let '(tp, qp_series_name, unpacker) :=
            if bool_decide (tp = QP_ARRAY_CLOSE) then qp_next unpacker
            else (tp, qp_series_name, unpacker) in
          local_series fuel siridb tp unpacker qp_series_name calls
      end
    else Some (siridb, calls)
  end.

(** The body of [if (n == pool)]: the local sub-batch is decoded again. *)
Definition local_pool (siridb : siridb_t) (buffer : qp_packer_t)
    (calls : list call) : option (siridb_t * list call) :=
  let unpacker : qp_unpacker_t := buffer in
  let '(_, _, unpacker) := qp_next unpacker in (* map *)
  let '(tp, qp_series_name, unpacker) := qp_next unpacker in
  local_series (2 + length unpacker) siridb tp unpacker qp_series_name calls.

(** [for (n = 0; n < insert->packer_size; n++) if (n == pool) ..] *)
Fixpoint pools_loop (ns : list nat) (insert : siridb_insert_t)
    (siridb : siridb_t) (calls : list call) : option (siridb_t * list call) :=
  match ns with
  | [] => Some (siridb, calls)
  | n :: ns =>
      if bool_decide (n = server_pool siridb) then
        match local_pool siridb (packer insert !!! n) calls with
        | None => None
        | Some (siridb, calls) => pools_loop ns insert siridb calls
        end
      else pools_loop ns insert siridb calls
  end.

Definition string_of_Z (z : Z) : string :=
  NilZero.string_of_int (Z.to_int z).

(** ["Inserted %zd point(s) successfully."] applied to a [size_t]. *)
Definition fmt_inserted (size : Z) : string :=
  "Inserted " +:+ string_of_Z (as_ssize_t size) +:+ " point(s) successfully.".

(** Modelled from the spec: [qp_map_open], [qp_add_fmt] and [qp_add_string]
    belong to the encoder, which "appends tokens to a growable buffer"; the
    reply is "a map with a single key" whose "value is a [RAW] string". *)
Definition qp_map_open (packer : qp_packer_t) : qp_packer_t :=
  qp_add_type packer QP_MAP_OPEN.

(** [qp_add_fmt] writes the formatted text as a raw string. *)
Definition qp_add_fmt (packer : qp_packer_t) (text : string) : qp_packer_t :=
  packer ++ [T_RAW text].

(** Modelled from the spec: a package is its header, the request id and
    the type, and its body. *)
Definition sirinet_new_pkg (pid : Z) (tp : pkg_tp) (data : list token)
  : sirinet_pkg_t :=
  {| pkg_pid := pid; pkg_tp_of := tp; pkg_data := data |}.

(** The asynchronous task of an insert job: the new database handle and the
    calls it makes, in order. *)
Definition send_points_to_pools (siridb : siridb_t) (insert : siridb_insert_t)
  : option (siridb_t * list call) :=
  match pools_loop (seq 0 (packer_size insert)) insert siridb [] with
  | None => None
  | Some (siridb, calls) =>
      let packer := qp_new_packer in
      let packer := qp_map_open packer in
      let packer := qp_add_raw packer "success_msg" 11 in
      let packer := qp_add_fmt packer (fmt_inserted (size insert)) in
      let package := sirinet_new_pkg (pid insert) SN_MSG_RESULT packer in
      Some (siridb,
            calls ++ [Sirinet_send_pkg (client insert) package;
                      Uv_close_free_insert])
  end.

(** [siridb_insert_points] builds the job; the event loop then runs
    [send_points_to_pools] on it. *)
Definition siridb_insert_points (pid : Z) (client : nat) (size : Z)
    (packer_size : nat) (packer : list qp_packer_t) : siridb_insert_t :=
  {| pid := pid; client := client; size := size;
     packer_size := packer_size; packer := take packer_size packer |}.

(** ** The admin client *)

Definition CLIENT_REQUEST_TIMEOUT : Z := 15000.
Definition CLIENT_FLAGS_TIMEOUT : Z := 1.

Inductive client_request : Set :=
  | CLIENT_REQUEST_INIT
  | CLIENT_REQUEST_STATUS.

(** [siri_admin_client_t] *)
Record siri_admin_client_t : Set := {
  adm_pid : Z;
  adm_port : Z;
  adm_host : string;
  adm_username : string;
  adm_password : string;
  adm_dbname : string;
  adm_dbpath : string;
  adm_client_stream : nat;
  adm_request : client_request;
  adm_flags : Z;
  adm_pkg : option sirinet_pkg_t
}.

Definition set_request (a : siri_admin_client_t) (r : client_request)
  : siri_admin_client_t :=
  {| adm_pid := adm_pid a; adm_port := adm_port a; adm_host := adm_host a;
     adm_username := adm_username a; adm_password := adm_password a;
     adm_dbname := adm_dbname a; adm_dbpath := adm_dbpath a;
     adm_client_stream := adm_client_stream a; adm_request := r; adm_flags := adm_flags a;
     adm_pkg := adm_pkg a |}.

Definition set_flags (a : siri_admin_client_t) (f : Z) : siri_admin_client_t :=
  {| adm_pid := adm_pid a; adm_port := adm_port a; adm_host := adm_host a;
     adm_username := adm_username a; adm_password := adm_password a;
     adm_dbname := adm_dbname a; adm_dbpath := adm_dbpath a;
     adm_client_stream := adm_client_stream a; adm_request := adm_request a; adm_flags := f;
     adm_pkg := adm_pkg a |}.

Definition set_pkg (a : siri_admin_client_t) (p : sirinet_pkg_t)
  : siri_admin_client_t :=
  {| adm_pid := adm_pid a; adm_port := adm_port a; adm_host := adm_host a;
     adm_username := adm_username a; adm_password := adm_password a;
     adm_dbname := adm_dbname a; adm_dbpath := adm_dbpath a;
     adm_client_stream := adm_client_stream a; adm_request := adm_request a;
     adm_flags := adm_flags a; adm_pkg := Some p |}.

(** An argument of a [printf]-style format. *)
Inductive fmt_arg : Set :=
  | Arg_s (s : string)
  | Arg_u (n : Z)
  | Arg_tp (tp : pkg_tp).

(** What a handler does to the world outside [adm_client]: log lines, the
    error package to the waiting client, the rollback of the request, the
    socket and the timer of the manage connection, and the handling of a
    status response.

    [CLIENT_err] renders its format and arguments with [vsnprintf] into a
    buffer of [SIRI_MAX_SIZE_ERR_MSG] bytes.  The rendering is not modelled:
    the text is named by the format and the arguments it is rendered from.
    [Pkg_send_err] is the package that carries this text, and
    [Log_error_text] is [log_error(err_msg)]: the call that passes the text
    itself as the format of the log line, with no arguments. *)
Inductive effect : Set :=
  | Log_debug (fmt : string) (args : list fmt_arg)
  | Log_error (fmt : string) (args : list fmt_arg)
  | Log_error_text (fmt : string) (args : list fmt_arg)
  | Pkg_send_err (to : nat) (pid : Z) (tp : pkg_tp) (fmt : string)
      (args : list fmt_arg)
  | Request_rollback (dbpath : string)
  | Socket_decref
  | Timer_init
  | Timer_start (timeout : Z) (repeat : Z)
  | Timer_stop
  | Timer_close
  | Read_start
  | Uv_write (pkg : sirinet_pkg_t)
  | Free_pkg
  | On_request_status (pkg : sirinet_pkg_t).

(** [siri_admin_client_request]: the start of a request.  [socket_in_use]
    stands for [siri.socket != NULL] and [is_ipv4] for [inet_pton]; failed
    allocations are left out.  [strndup] and [strdup] copy up to the first
    terminator.  The result is the error text of a [-1] return, or the new
    [adm_client], whose connection is then under way. *)
Definition siri_admin_client_request (socket_in_use : bool)
    (is_ipv4 : string -> bool) (pid port : Z)
    (host username password dbname dbpath : string) (client : nat)
  : string + siri_admin_client_t :=
  if socket_in_use then inl "manage socket already in use"
  else
    let adm_client :=
      {| adm_pid := pid; adm_port := port; adm_host := c_str host;
         adm_username := c_str username; adm_password := c_str password;
         adm_dbname := c_str dbname; adm_dbpath := c_str dbpath;
         adm_client_stream := client; adm_request := CLIENT_REQUEST_INIT;
         adm_flags := 0; adm_pkg := None |} in
    if is_ipv4 (adm_host adm_client) then inr adm_client
    else inl "invalid ipv4".

(** [CLIENT_err]: the package with the rendered text is sent to the waiting
    client (a package that could not be allocated is left out, as are all
    failed allocations), then the text is logged by [log_error(err_msg)]. *)
Definition CLIENT_err (adm_client : siri_admin_client_t) (fmt : string)
    (args : list fmt_arg) : list effect :=
  [Pkg_send_err (adm_client_stream adm_client) (adm_pid adm_client)
     CPROTO_ERR_ADMIN fmt args;
   Log_error_text fmt args;
   Request_rollback (adm_dbpath adm_client);
   Socket_decref;
   Timer_close].

Definition CLIENT_send_pkg (adm_client : siri_admin_client_t)
    (pkg : sirinet_pkg_t) : siri_admin_client_t * list effect :=
  let adm_client := set_pkg adm_client pkg in
  (adm_client, [Timer_start CLIENT_REQUEST_TIMEOUT 0; Uv_write pkg]).

Definition CLIENT_write_cb (adm_client : siri_admin_client_t) (status : Z)
  : siri_admin_client_t * list effect :=
  let failed :=
    if bool_decide (status <> 0%Z) then
      Timer_stop ::
        CLIENT_err adm_client "socket write error: %s" [Arg_u status]
    else [] in
  (adm_client, failed ++ [Free_pkg]).

(** The string is written as a raw value. *)
Definition qp_add_string (packer : qp_packer_t) (s : string) : qp_packer_t :=
  packer ++ [T_RAW s].

Definition sirinet_packer2pkg (packer : qp_packer_t) (pid : Z) (tp : pkg_tp)
  : sirinet_pkg_t :=
  {| pkg_pid := pid; pkg_tp_of := tp; pkg_data := packer |}.

Definition CLIENT_on_connect (adm_client : siri_admin_client_t) (status : Z)
  : siri_admin_client_t * list effect :=
  if bool_decide (status = 0%Z) then
    let packer := qp_new_packer in
    let packer := qp_add_type packer QP_ARRAY3 in
    let packer := qp_add_string packer (adm_username adm_client) in
    let packer := qp_add_string packer (adm_password adm_client) in
    let packer := qp_add_string packer (adm_dbname adm_client) in
    let pkg := sirinet_packer2pkg packer 0 CPROTO_REQ_AUTH in
    let '(adm_client', sent) := CLIENT_send_pkg adm_client pkg in
    (adm_client',
     [Timer_init;
      Log_debug
        "Connected to SiriDB server: '%s:%u', sending authentication request"
        [Arg_s (adm_host adm_client); Arg_u (adm_port adm_client)];
      Read_start] ++ sent)
  else
    (adm_client,
     Timer_init ::
       CLIENT_err adm_client
         "connecting to server '%s:%u' failed with error: %s"
         [Arg_s (adm_host adm_client); Arg_u (adm_port adm_client);
          Arg_u status]).

Definition CLIENT_on_auth_success (adm_client : siri_admin_client_t)
  : siri_admin_client_t * list effect :=
  let adm_client := set_request adm_client CLIENT_REQUEST_STATUS in
  let packer := qp_new_packer in
  let packer := qp_add_type packer QP_ARRAY1 in
  let packer := qp_add_string packer "list servers status" in
  let pkg := sirinet_packer2pkg packer 0 CPROTO_REQ_QUERY in
  CLIENT_send_pkg adm_client pkg.

(** [CLIENT_on_request_status] reads the status response and reports through
    [CLIENT_err]; it assigns to no member of [adm_client].  Its parsing is
    not modelled: the call is recorded with the package it is given. *)
Definition CLIENT_on_request_status (adm_client : siri_admin_client_t)
    (pkg : sirinet_pkg_t) : siri_admin_client_t * list effect :=
  (adm_client, [On_request_status pkg]).

Definition CLIENT_on_error_msg (adm_client : siri_admin_client_t)
    (pkg : sirinet_pkg_t) : siri_admin_client_t * list effect :=
  let unpacker : qp_unpacker_t := pkg_data pkg in
  let '(tp1, _, unpacker) := qp_next unpacker in
  let '(tp2, _, unpacker2) := qp_next unpacker in
  let '(tp3, qp_err, _) := qp_next unpacker2 in
  if qp_is_map tp1 && bool_decide (tp2 = QP_RAW) && bool_decide (tp3 = QP_RAW)
  then
    (adm_client,
     CLIENT_err adm_client "error on server '%s:%u': %.*s"
       [Arg_s (adm_host adm_client); Arg_u (adm_port adm_client);
        Arg_u (Z.of_nat (obj_len qp_err)); Arg_s (via_raw qp_err)])
  else
    (adm_client,
     CLIENT_err adm_client "unexpected error on server '%s:%u'"
       [Arg_s (adm_host adm_client); Arg_u (adm_port adm_client)]).

Definition CLIENT_on_data (adm_client : siri_admin_client_t)
    (pkg : sirinet_pkg_t) : siri_admin_client_t * list effect :=
  let logged :=
    Log_debug "Client response received (pid: %u, len: %u, tp: %s)"
      [Arg_u (pkg_pid pkg); Arg_tp (pkg_tp_of pkg)] in
  if bool_decide (Z.land (adm_flags adm_client) CLIENT_FLAGS_TIMEOUT <> 0%Z)
  then
    (adm_client,
     [logged;
      Log_error "Client response received which was timed-out earlier" []])
  else
    let '(adm_client', handled) :=
      match pkg_tp_of pkg with
      | CPROTO_RES_AUTH_SUCCESS => CLIENT_on_auth_success adm_client
      | CPROTO_RES_QUERY =>
          match adm_request adm_client with
          | CLIENT_REQUEST_STATUS => CLIENT_on_request_status adm_client pkg
          | _ => (adm_client,
                  CLIENT_err adm_client "unexpected query response" [])
          end
      | CPROTO_ERR_AUTH_CREDENTIALS =>
          (adm_client,
           CLIENT_err adm_client
             "invalid credentials for database '%s' on server '%s:%u'"
             [Arg_s (adm_dbname adm_client); Arg_s (adm_host adm_client);
              Arg_u (adm_port adm_client)])
      | CPROTO_ERR_AUTH_UNKNOWN_DB =>
          (adm_client,
           CLIENT_err adm_client
             "database '%s' does not exist on server '%s:%u'"
             [Arg_s (adm_dbname adm_client); Arg_s (adm_host adm_client);
              Arg_u (adm_port adm_client)])
      | CPROTO_ERR_MSG
      | CPROTO_ERR_QUERY
      | CPROTO_ERR_INSERT
      | CPROTO_ERR_SERVER
      | CPROTO_ERR_POOL
      | CPROTO_ERR_USER_ACCESS => CLIENT_on_error_msg adm_client pkg
      | _ =>
          (adm_client,
           CLIENT_err adm_client
             "unexpected response (%u) received from server '%s:%u'"
             [Arg_tp (pkg_tp_of pkg); Arg_s (adm_host adm_client);
              Arg_u (adm_port adm_client)])
      end in
    (adm_client', logged :: Timer_stop :: handled).

Definition CLIENT_request_timeout (adm_client : siri_admin_client_t)
  : siri_admin_client_t * list effect :=
  let adm_client :=
    set_flags adm_client (Z.lor (adm_flags adm_client) CLIENT_FLAGS_TIMEOUT) in
  (adm_client, CLIENT_err adm_client "request timeout" []).

(** The callbacks the event loop can run on the manage socket of one
    request. *)
Inductive event : Set :=
  | Ev_connect (status : Z)
  | Ev_write_cb (status : Z)
  | Ev_data (pkg : sirinet_pkg_t)
  | Ev_timeout.

Definition handle (adm_client : siri_admin_client_t) (ev : event)
  : siri_admin_client_t * list effect :=
  match ev with
  | Ev_connect status => CLIENT_on_connect adm_client status
  | Ev_write_cb status => CLIENT_write_cb adm_client status
  | Ev_data pkg => CLIENT_on_data adm_client pkg
  | Ev_timeout => CLIENT_request_timeout adm_client
  end.

(** A run of the event loop: every event with what its handler did. *)
Fixpoint run (adm_client : siri_admin_client_t) (evs : list event)
  : siri_admin_client_t * list (event * list effect) :=
  match evs with
  | [] => (adm_client, [])
  | ev :: evs =>
      let '(adm_client', done) := handle adm_client ev in
      let '(final, log) := run adm_client' evs in
      (final, (ev, done) :: log)
  end.

(** The time-out flag of the request is set. *)
Definition timed_out (adm_client : siri_admin_client_t) : Prop :=
  Z.land (adm_flags adm_client) CLIENT_FLAGS_TIMEOUT <> 0%Z.

(** What [CLIENT_on_data] does with a reply it drops: two log lines. *)
Definition dropped (pkg : sirinet_pkg_t) : list effect :=
  [Log_debug "Client response received (pid: %u, len: %u, tp: %s)"
     [Arg_u (pkg_pid pkg); Arg_tp (pkg_tp_of pkg)];
   Log_error "Client response received which was timed-out earlier" []].

(** The effects by which a reply is taken as the response to the request:
    stopping the request timer, reporting to the waiting client, rolling the
    request back, sending the next request, handling a status response. *)
Definition processing (e : effect) : bool :=
  match e with
  | Log_debug _ _ | Log_error _ _ => false
  | _ => true
  end.

(** ** Payloads *)

(** The value of a point: Integer, Float or ByteString. *)
Inductive value : Set :=
  | V_INT64 (i : Z)
  | V_DOUBLE (r : Z)
  | V_RAW (s : string).

Definition point : Set := Z * value.

(** One entry of the payload map: a series name and its points, with the
    two choices the wire format leaves open: the array header ([ARRAY_OPEN]
    or a fixed-arity [ARRAYn]) and whether an [ARRAY_CLOSE] follows the
    points. *)
Record series_batch : Set := {
  name : string;
  points : list point;
  header : token;
  closed : bool
}.

Definition enc_value (v : value) : token :=
  match v with
  | V_INT64 i => T_INT64 i
  | V_DOUBLE r => T_DOUBLE r
  | V_RAW s => T_RAW s
  end.

Definition enc_point (p : point) : list token :=
  [T_ARRAY2; T_INT64 p.1; enc_value p.2].

Definition enc_points (pts : list point) : list token :=
  flat_map enc_point pts.

Definition enc_series (s : series_batch) : list token :=
  T_RAW (name s) :: header s ::
    enc_points (points s) ++ (if closed s then [T_ARRAY_CLOSE] else []).

Definition enc_payload (ss : list series_batch) : list token :=
  flat_map enc_series ss.

(** A series entry written with [ARRAY_OPEN] .. [ARRAY_CLOSE]. *)
Definition open_series (n : string) (pts : list point) : series_batch :=
  {| name := n; points := pts; header := T_ARRAY_OPEN; closed := true |}.

Definition fixed_header (n : nat) : option token :=
  match n with
  | 1 => Some T_ARRAY1
  | 2 => Some T_ARRAY2
  | 3 => Some T_ARRAY3
  | 4 => Some T_ARRAY4
  | 5 => Some T_ARRAY5
  | _ => None
  end.

(** The entries the classifier takes: an array header, at least one point,
    every time-stamp inside the window. *)
Definition series_ok (siridb : siridb_t) (s : series_batch) : Prop :=
  qp_is_array (tp_of (header s)) = true /\
  points s <> [] /\
  Forall (fun p : point => siridb_int64_valid_ts siridb p.1 = true) (points s).

(** The entries of a well-formed payload in the sense of the specification:
    a non-empty array of valid points, written either as an open array with
    its close, or as a fixed-arity array of that many points. *)
Definition series_well_formed (siridb : siridb_t) (s : series_batch) : Prop :=
  points s <> [] /\
  Forall (fun p : point => siridb_int64_valid_ts siridb p.1 = true) (points s) /\
  ((header s = T_ARRAY_OPEN /\ closed s = true) \/
   (fixed_header (length (points s)) = Some (header s) /\ closed s = false)).

(** What may follow the last entry: the end of the stream or the close of
    the map (whatever comes after that is not read). *)
Definition map_end (tail : list token) : Prop :=
  tail = [] \/ exists rest, tail = T_MAP_CLOSE :: rest.

(** A map payload as a token stream. *)
Definition map_payload (ss : list series_batch) (tail : list token)
  : list token :=
  T_MAP_OPEN :: enc_payload ss ++ tail.

Definition total_points (ss : list series_batch) : nat :=
  sum_list_with (fun s => length (points s)) ss.

(** ** Sub-batches *)

(** The terminated form of a series name. *)
Definition terminated (s : string) : string := s +:+ String NUL EmptyString.

(** The pool the router gives to an entry. *)
Definition pool_of (siridb : siridb_t) (s : series_batch) : nat :=
  siridb_pool_sn_raw siridb (name s) (String.length (name s)).

(** The map entry of one series in a sub-batch. *)
Definition sub_entry (s : series_batch) : list token :=
  T_RAW (terminated (name s)) :: T_ARRAY_OPEN ::
    enc_points (points s) ++ [T_ARRAY_CLOSE].

(** The entries of the payload that the router sends to pool [k], in the
    order of the payload. *)
Definition routed (siridb : siridb_t) (k : nat) (ss : list series_batch)
  : list series_batch :=
  filter (fun s => pool_of siridb s = k) ss.

Definition sub_batch (siridb : siridb_t) (k : nat) (ss : list series_batch)
  : list token :=
  T_MAP_OPEN :: flat_map sub_entry (routed siridb k ss).

(** The points written into a packer, read back: every point is written as
    [ARRAY2], an [INT64] time-stamp and a value, under the key written
    last. *)
Definition value_of (t : token) : option value :=
  match t with
  | T_INT64 i => Some (V_INT64 i)
  | T_DOUBLE r => Some (V_DOUBLE r)
  | T_RAW s => Some (V_RAW s)
  | _ => None
  end.

Fixpoint packer_points (key : string) (buffer : qp_packer_t)
  : list (string * point) :=
  match buffer with
  | [] => []
  | T_RAW k :: buffer' => packer_points k buffer'
  | T_ARRAY2 :: T_INT64 ts :: v :: buffer' =>
      match value_of v with
      | Some x => (key, (ts, x)) :: packer_points key buffer'
      | None => packer_points key buffer'
      end
  | _ :: buffer' => packer_points key buffer'
  end.

(** The type of the token that the next [qp_next] reports. *)
Definition peek (unpacker : qp_unpacker_t) : qp_types_t := (qp_next unpacker).1.1.

(** A point whose time-stamp lies in the window. *)
Definition valid_point (siridb : siridb_t) (p : point) : Prop :=
  siridb_int64_valid_ts siridb p.1 = true.

(** What the classifier writes for one entry, and for a whole payload. *)
Definition write_series (siridb : siridb_t) (packer : list qp_packer_t)
    (s : series_batch) : list qp_packer_t :=
  qp_write packer (pool_of siridb s) (sub_entry s).

Definition write_payload (siridb : siridb_t) (packer : list qp_packer_t)
    (ss : list series_batch) : list qp_packer_t :=
  foldl (write_series siridb) packer ss.

(** ** Reading the calls of the dispatcher *)

(** The calls on the series registry. *)
Definition registry_call (c : call) : bool :=
  match c with
  | Ct_get_sure _ | Siridb_create_series _ _ => true
  | _ => false
  end.

(** The packages handed to [sirinet_send_pkg], with their destination. *)
Definition sent_packages (calls : list call) : list (nat * sirinet_pkg_t) :=
  omap (fun c => match c with
                 | Sirinet_send_pkg to pkg => Some (to, pkg)
                 | _ => None
                 end) calls.

(** The sub-batches handed to the transport, with their pool. *)
Definition transmitted (calls : list call) : list (nat * sirinet_pkg_t) :=
  omap (fun c => match c with
                 | Transport_send pool pkg => Some (pool, pkg)
                 | _ => None
                 end) calls.

(** The points handed to the storage's append interface. *)
Definition appended (calls : list call) : list (string * Z * token) :=
  omap (fun c => match c with
                 | Storage_append n ts v => Some (n, ts, v)
                 | _ => None
                 end) calls.

(** The body of the success reply for [n] points. *)
Definition success_reply (n : Z) : list token :=
  [T_MAP_OPEN; T_RAW "success_msg";
   T_RAW ("Inserted " +:+ string_of_Z n +:+ " point(s) successfully.")].

(** An error reply: a map whose key is [error_msg]. *)
Definition is_error_reply (pkg : sirinet_pkg_t) : Prop :=
  exists msg rest,
    pkg_data pkg = T_MAP_OPEN :: T_RAW "error_msg" :: T_RAW msg :: rest.

(** The type of the value of the first point of an entry. *)
Definition first_value_tp (s : series_batch) : qp_types_t :=
  match points s with
  | p :: _ => tp_of (enc_value p.2)
  | [] => QP_END
  end.

(** The registry key of an entry of a sub-batch: its terminated name, read
    as a C string. *)
Definition series_key (s : series_batch) : string :=
  c_str (terminated (name s)).

(** Get-or-create of one series: the lookup, and for a name that is not
    registered the creation with the type of the first point's value. *)
Definition get_or_create (st : siridb_t * list call) (s : series_batch)
  : siridb_t * list call :=
  match series st.1 !! series_key s with
  | None =>
      let tp := siridb_qp_map_tp (first_value_tp s) in
      (set_series st.1 (<[series_key s := tp]> (series st.1)),
       st.2 ++ [Ct_get_sure (series_key s);
                Siridb_create_series (series_key s) tp])
  | Some _ => (st.1, st.2 ++ [Ct_get_sure (series_key s)])
  end.

(** The insert job of a classified payload and its run. *)
Definition insert_job (siridb : siridb_t) (pid : Z) (client : nat)
    (classified : Z * list qp_packer_t) : siridb_insert_t :=
  siridb_insert_points pid client classified.1 (pools_size siridb) classified.2.

(** ** What the specification asks of the dispatcher *)

(** The reply the specification asks for, given the outcome of every pool
    ([true]: the pool acknowledged): the success summary when all pools
    acknowledged, an error reply otherwise. *)
Definition reply_as_specified (acks : list bool) (n : Z)
    (pkg : sirinet_pkg_t) : Prop :=
  if forallb id acks then pkg_data pkg = success_reply n
  else is_error_reply pkg.

(** Every point of every entry of the local sub-batch reaches the storage's
    append interface. *)
Definition forwards_all_points (local : list series_batch)
    (calls : list call) : Prop :=
  forall s p, s ∈ local -> p ∈ points s ->
    (series_key s, p.1, enc_value p.2) ∈ appended calls.

(** Every sub-batch of another pool that has an entry is handed to the
    transport, for that pool. *)
Definition transmits_remote_sub_batches (siridb : siridb_t)
    (packer : list qp_packer_t) (calls : list call) : Prop :=
  forall k buffer,
    k <> server_pool siridb ->
    packer !! k = Some buffer ->
    buffer <> [T_MAP_OPEN] ->
    exists pkg, (k, pkg) ∈ transmitted calls /\ pkg_data pkg = buffer.

(** ** A two-pool database

    The second scenario of the specification: series [a] belongs to pool 0,
    the pool of this server, and every other name to pool 1; time-stamps
    from 0 to 2000000000 are accepted. *)
Definition two_pools : siridb_t :=
  {| pools_size := 2;
     server_pool := 0;
     sn_hash := fun s => if bool_decide (s = "a") then 0 else 1;
     ts_min := 0;
     ts_max := 2000000000;
     series := ∅ |}.

(** [{"a": [[1000, 1]], "b": [[1001, 2]]}] *)
Definition payload_a_b : list series_batch :=
  [open_series "a" [(1000%Z, V_INT64 1)];
   open_series "b" [(1001%Z, V_INT64 2)]].

(** The packers of the two pools after the classification of that
    payload. *)
Definition packers_a_b : list qp_packer_t :=
  [[T_MAP_OPEN; T_RAW (terminated "a"); T_ARRAY_OPEN;
    T_ARRAY2; T_INT64 1000; T_INT64 1; T_ARRAY_CLOSE];
   [T_MAP_OPEN; T_RAW (terminated "b"); T_ARRAY_OPEN;
    T_ARRAY2; T_INT64 1001; T_INT64 2; T_ARRAY_CLOSE]].

(** ** A request of the admin client

    A request that has just been started, and the reply of the server to
    its authentication. *)
Definition started_request : string + siri_admin_client_t :=
  siri_admin_client_request false (fun _ => true) 7 9000 "127.0.0.1" "iris"
    "siri" "dbtest" "/tmp/dbtest" 1.

Definition auth_reply : sirinet_pkg_t :=
  {| pkg_pid := 0; pkg_tp_of := CPROTO_RES_AUTH_SUCCESS; pkg_data := [] |}.

(** ** Payloads that are refused

    The classifier reads the stream from left to right and returns at the
    first token it does not take.  The following relations name the place
    of that token; what comes after it is arbitrary. *)

(** The value types of a point. *)
Definition value_tp (tp : qp_types_t) : bool :=
  match tp with
  | QP_RAW | QP_INT64 | QP_DOUBLE => true
  | _ => false
  end.

(** [bad_point siridb bad code]: a point whose [ARRAY2] header has been
    read is refused with [code] on the tokens [bad] that follow the
    header. *)
Inductive bad_point (siridb : siridb_t) : list token -> Z -> Prop :=
  | bad_point_ts (rest : list token) :
      peek rest <> QP_INT64 ->
      bad_point siridb rest ERR_EXPECTING_INTEGER_TS
  | bad_point_range (ts : Z) (rest : list token) :
      siridb_int64_valid_ts siridb ts = false ->
      bad_point siridb (T_INT64 ts :: rest) ERR_TIMESTAMP_OUT_OF_RANGE
  | bad_point_value (ts : Z) (rest : list token) :
      siridb_int64_valid_ts siridb ts = true ->
      value_tp (peek rest) = false ->
      bad_point siridb (T_INT64 ts :: rest) ERR_UNSUPPORTED_VALUE.

(** [bad_entry siridb bad code]: where an entry of the map is expected, the
    tokens [bad] are refused with [code]. *)
Inductive bad_entry (siridb : siridb_t) : list token -> Z -> Prop :=
  | bad_entry_name (rest : list token) :
      peek rest <> QP_RAW -> peek rest <> QP_END ->
      peek rest <> QP_MAP_CLOSE ->
      bad_entry siridb rest ERR_EXPECTING_SERIES_NAME
  | bad_entry_array (n : string) (rest : list token) :
      qp_is_array (peek rest) = false ->
      bad_entry siridb (T_RAW n :: rest) ERR_EXPECTING_ARRAY
  | bad_entry_empty (n : string) (h : token) (rest : list token) :
      qp_is_array (tp_of h) = true ->
      peek rest <> QP_ARRAY2 ->
      bad_entry siridb (T_RAW n :: h :: rest) ERR_EXPECTING_AT_LEAST_ONE_POINT
  | bad_entry_point (n : string) (h : token) (pts : list point)
      (bad : list token) (code : Z) :
      qp_is_array (tp_of h) = true ->
      Forall (valid_point siridb) pts ->
      bad_point siridb bad code ->
      bad_entry siridb (T_RAW n :: h :: enc_points pts ++ T_ARRAY2 :: bad) code.

(** The tokens [rest] after the entries [ss] are not read as part of the
    last entry: when that entry has no [ARRAY_CLOSE] of its own, [rest]
    begins neither with a point header nor with an [ARRAY_CLOSE]. *)
Definition ends_points (ss : list series_batch) (rest : list token) : Prop :=
  forall s, last ss = Some s -> closed s = false ->
    peek rest <> QP_ARRAY2 /\ peek rest <> QP_ARRAY_CLOSE.

(** The seven error codes. *)
Definition is_insert_err (code : Z) : Prop :=
  (- SIRIDB_INSERT_ERR_SIZE <= code <= -1)%Z.

(** The points of an entry under its key in a sub-batch, and the points
    that the router gives to pool [k]. *)
Definition keyed_points (s : series_batch) : list (string * point) :=
  map (fun p => (terminated (name s), p)) (points s).

Definition routed_points (siridb : siridb_t) (k : nat)
    (ss : list series_batch) : list (string * point) :=
  flat_map keyed_points (routed siridb k ss).

(** The number of points written into a packer. *)
Definition packer_count (buffer : qp_packer_t) : nat :=
  length (packer_points EmptyString buffer).

(** The [int32_t] that the classifier returns on an input. *)
Definition returns (siridb : siridb_t) (input : list token)
    (qp_obj : qp_obj_t) (code : Z) : Prop :=
  exists packer,
    siridb_insert_assign_pools siridb input qp_obj = Some (code, packer).

(** ** Further notions for the classifier *)

(** Two entries with the same name and the same points, whatever their
    array header and close. *)
Definition same_series (s s' : series_batch) : Prop :=
  name s = name s' /\ points s = points s'.

(** An entry of a sub-batch as the payload entry it is on the wire: the key
    is the terminated name, the array is open and closed. *)
Definition as_received (s : series_batch) : series_batch :=
  open_series (terminated (name s)) (points s).

(** ** Further notions for the dispatcher *)

(** The series created, and the names looked up, by a run. *)
Definition created (calls : list call) : list (string * series_tp) :=
  omap (fun c => match c with
                 | Siridb_create_series n tp => Some (n, tp)
                 | _ => None
                 end) calls.

Definition lookups (calls : list call) : list string :=
  omap (fun c => match c with
                 | Ct_get_sure k => Some k
                 | _ => None
                 end) calls.

(** Two database handles that differ at most in their registry. *)
Definition same_config (a b : siridb_t) : Prop :=
  pools_size a = pools_size b /\ server_pool a = server_pool b /\
  sn_hash a = sn_hash b /\ ts_min a = ts_min b /\ ts_max a = ts_max b.

(** The reply and the release that end every run of the dispatcher. *)
Definition reply_and_release (insert : siridb_insert_t) : list call :=
  [Sirinet_send_pkg (client insert)
     (sirinet_new_pkg (pid insert) SN_MSG_RESULT
        [T_MAP_OPEN; T_RAW "success_msg"; T_RAW (fmt_inserted (size insert))]);
   Uv_close_free_insert].

(** A database of one pool, and a payload of two names that differ after a
    terminator:
    [{"a\0x": [[1000, 1]], "a\0y": [[1001, 2.]]}]. *)
Definition one_pool : siridb_t :=
  {| pools_size := 1;
     server_pool := 0;
     sn_hash := fun s => String.length s;
     ts_min := 0;
     ts_max := 2000000000;
     series := ∅ |}.

Definition payload_nul_names : list series_batch :=
  [open_series ("a" +:+ String NUL "x") [(1000%Z, V_INT64 1)];
   open_series ("a" +:+ String NUL "y") [(1001%Z, V_INT64 2)]].

(** ** The callbacks of the admin client, seen from outside *)

(** The members of [adm_client] that are set when the request starts. *)
Definition same_request (a b : siri_admin_client_t) : Prop :=
  adm_pid a = adm_pid b /\ adm_port a = adm_port b /\
  adm_host a = adm_host b /\ adm_username a = adm_username b /\
  adm_password a = adm_password b /\ adm_dbname a = adm_dbname b /\
  adm_dbpath a = adm_dbpath b /\
  adm_client_stream a = adm_client_stream b.

(** An error package to the waiting client. *)
Definition is_report (e : effect) : bool :=
  match e with Pkg_send_err _ _ _ _ _ => true | _ => false end.

(** A write to the server. *)
Definition is_write (e : effect) : bool :=
  match e with Uv_write _ => true | _ => false end.

(** The response types that [CLIENT_on_data] hands to
    [CLIENT_on_error_msg]. *)
Definition error_response (tp : pkg_tp) : bool :=
  match tp with
  | CPROTO_ERR_MSG | CPROTO_ERR_QUERY | CPROTO_ERR_INSERT
  | CPROTO_ERR_SERVER | CPROTO_ERR_POOL | CPROTO_ERR_USER_ACCESS => true
  | _ => false
  end.

(** The start of what [CLIENT_on_data] does with a reply that is in time:
    the log line and the stop of the request timer. *)
Definition taken (pkg : sirinet_pkg_t) : list effect :=
  [Log_debug "Client response received (pid: %u, len: %u, tp: %s)"
     [Arg_u (pkg_pid pkg); Arg_tp (pkg_tp_of pkg)];
   Timer_stop].

(** The two requests the client sends. *)
Definition auth_request (adm_client : siri_admin_client_t) : sirinet_pkg_t :=
  {| pkg_pid := 0; pkg_tp_of := CPROTO_REQ_AUTH;
     pkg_data := [T_ARRAY3; T_RAW (adm_username adm_client);
                  T_RAW (adm_password adm_client);
                  T_RAW (adm_dbname adm_client)] |}.

Definition status_request : sirinet_pkg_t :=
  {| pkg_pid := 0; pkg_tp_of := CPROTO_REQ_QUERY;
     pkg_data := [T_ARRAY1; T_RAW "list servers status"] |}.

(** A reply with an error text, and one without. *)
Definition error_reply (msg : string) : sirinet_pkg_t :=
  {| pkg_pid := 0; pkg_tp_of := CPROTO_ERR_MSG;
     pkg_data := [T_MAP_OPEN; T_RAW "error_msg"; T_RAW msg] |}.

Definition query_reply : sirinet_pkg_t :=
  {| pkg_pid := 0; pkg_tp_of := CPROTO_RES_QUERY; pkg_data := [T_MAP_OPEN] |}.

(** ** What is written for a refused entry

    [refused_point siridb bad code written]: the point that [bad_point]
    refuses with [code], and the tokens written for it before the return:
    its header, and its time-stamp when that was taken. *)
Inductive refused_point (siridb : siridb_t)
  : list token -> Z -> list token -> Prop :=
  | refused_point_ts (rest : list token) :
      peek rest <> QP_INT64 ->
      refused_point siridb rest ERR_EXPECTING_INTEGER_TS [T_ARRAY2]
  | refused_point_range (ts : Z) (rest : list token) :
      siridb_int64_valid_ts siridb ts = false ->
      refused_point siridb (T_INT64 ts :: rest) ERR_TIMESTAMP_OUT_OF_RANGE
        [T_ARRAY2]
  | refused_point_value (ts : Z) (rest : list token) :
      siridb_int64_valid_ts siridb ts = true ->
      value_tp (peek rest) = false ->
      refused_point siridb (T_INT64 ts :: rest) ERR_UNSUPPORTED_VALUE
        [T_ARRAY2; T_INT64 ts].

(** [refused_entry siridb bad code pool written]: the entry that [bad_entry]
    refuses with [code], the pool of its name and the tokens written into
    the packer of that pool before the return: the terminated name, the
    array header, the points taken before the refused one, and what was
    written for the refused point.  Where no name is read, nothing is
    written, whatever the pool. *)
Inductive refused_entry (siridb : siridb_t)
  : list token -> Z -> nat -> list token -> Prop :=
  | refused_entry_name (rest : list token) (pool : nat) :
      peek rest <> QP_RAW -> peek rest <> QP_END ->
      peek rest <> QP_MAP_CLOSE ->
      refused_entry siridb rest ERR_EXPECTING_SERIES_NAME pool []
  | refused_entry_array (n : string) (rest : list token) :
      qp_is_array (peek rest) = false ->
      refused_entry siridb (T_RAW n :: rest) ERR_EXPECTING_ARRAY
        (siridb_pool_sn_raw siridb n (String.length n))
        [T_RAW (terminated n)]
  | refused_entry_empty (n : string) (h : token) (rest : list token) :
      qp_is_array (tp_of h) = true ->
      peek rest <> QP_ARRAY2 ->
      refused_entry siridb (T_RAW n :: h :: rest)
        ERR_EXPECTING_AT_LEAST_ONE_POINT
        (siridb_pool_sn_raw siridb n (String.length n))
        [T_RAW (terminated n); T_ARRAY_OPEN]
  | refused_entry_point (n : string) (h : token) (pts : list point)
      (bad : list token) (code : Z) (written : list token) :
      qp_is_array (tp_of h) = true ->
      Forall (valid_point siridb) pts ->
      refused_point siridb bad code written ->
      refused_entry siridb
        (T_RAW n :: h :: enc_points pts ++ T_ARRAY2 :: bad) code
        (siridb_pool_sn_raw siridb n (String.length n))
        (T_RAW (terminated n) :: T_ARRAY_OPEN :: enc_points pts ++ written).

(** * Properties *)

(** ** Strings, integers and packers *)

Lemma substring_full (s : string) : String.substring 0 (String.length s) s = s.
Proof. induction s as [|c s IH]; simpl; [reflexivity | by rewrite IH]. Qed.

Lemma wrap_int32_small (z : Z) :
  (- 2 ^ 31 <= z < 2 ^ 31)%Z -> wrap_int32 z = z.
Proof.
  intros Hz. unfold wrap_int32.
  rewrite Z.mod_small; lia.
Qed.

Lemma wrap_int32_add_l (a b : Z) :
  wrap_int32 (wrap_int32 a + b) = wrap_int32 (a + b).
Proof.
  unfold wrap_int32.
  replace ((a + 2 ^ 31) mod 2 ^ 32 - 2 ^ 31 + b + 2 ^ 31)%Z
    with ((a + 2 ^ 31) mod 2 ^ 32 + b)%Z by lia.
  rewrite Zplus_mod_idemp_l. do 2 f_equal. lia.
Qed.

Lemma qp_write_nil packer pool : qp_write packer pool [] = packer.
Proof.
  unfold qp_write, at_pool. apply list_alter_id. intros b. apply app_nil_r.
Qed.

(** The [qp_add_*] calls on the packer of a pool, as runs of tokens. *)
Ltac fold_write :=
  unfold qp_add_type, qp_add_raw, qp_add_raw_term, qp_add_int64, qp_add_double;
  repeat match goal with
  | |- context [at_pool ?p ?k (fun b => b ++ ?ts)] =>
      change (at_pool p k (fun b => b ++ ts)) with (qp_write p k ts)
  end.

Lemma qp_write_app packer pool ts1 ts2 :
  qp_write (qp_write packer pool ts1) pool ts2
  = qp_write packer pool (ts1 ++ ts2).
Proof.
  unfold qp_write, at_pool. rewrite list_alter_alter_eq.
  apply list_alter_ext; [|reflexivity]. intros b _. simpl. by rewrite app_assoc.
Qed.

Lemma qp_write_lookup (packer : list qp_packer_t) pool ts k :
  qp_write packer pool ts !! k
  = if decide (pool = k) then (fun b => b ++ ts) <$> packer !! k
    else packer !! k.
Proof.
  unfold qp_write, at_pool. case_decide as Hk.
  - subst. apply list_lookup_alter_eq.
  - by apply list_lookup_alter_ne.
Qed.

(** ** The loop over the points of a series *)

(** One round of the loop on a valid point. *)
Lemma assign_points_step fuel siridb pool (p : point) rest qp_obj packer count :
  valid_point siridb p ->
  assign_points (S fuel) siridb pool QP_ARRAY2
    (T_INT64 p.1 :: enc_value p.2 :: rest) qp_obj packer count
  = assign_points fuel siridb pool (qp_next rest).1.1 (qp_next rest).2
      (qp_next rest).1.2 (qp_write packer pool (enc_point p))
      (wrap_int32 (count + 1)).
Proof.
  intros Hp. destruct p as [ts v]. unfold valid_point in Hp. simpl in *.
  rewrite Hp. simpl.
  destruct (qp_next rest) as [[tp' obj'] rest'] eqn:Hn. simpl.
  destruct v; simpl; unfold obj_len; simpl; fold_write; simpl;
    rewrite ?substring_full, !qp_write_app; reflexivity.
Qed.

(** The loop takes all the points of a series and stops at the first token
    that is not a point header. *)
Lemma assign_points_ok siridb pool (pts : list point) :
  forall (p : point) fuel rest qp_obj packer count,
  Forall (valid_point siridb) (p :: pts) ->
  peek rest <> QP_ARRAY2 ->
  S (length pts) < fuel ->
  assign_points fuel siridb pool QP_ARRAY2
    (T_INT64 p.1 :: enc_value p.2 :: enc_points pts ++ rest)
    qp_obj packer count
  = Some (Break (qp_next rest).1.1 (qp_next rest).2 (qp_next rest).1.2
            (qp_write packer pool (enc_points (p :: pts)))
            (wrap_int32 (count + Z.of_nat (S (length pts))))).
Proof.
  induction pts as [|q pts IH]; intros p fuel rest qp_obj packer count Hv Hr Hf.
  - destruct fuel as [|[|fuel]]; [simpl in Hf; lia..|].
    rewrite assign_points_step by (by inversion Hv).
    simpl. unfold peek in Hr. rewrite bool_decide_eq_false_2 by done.
    reflexivity.
  - destruct fuel as [|fuel]; [lia|].
    rewrite assign_points_step by (by inversion Hv).
    inversion Hv as [|? ? _ Hv']; subst.
    change (enc_points (q :: pts) ++ rest)
      with (T_ARRAY2 :: T_INT64 q.1 :: enc_value q.2 :: enc_points pts ++ rest).
    cbn [qp_next fst snd tp_of].
    rewrite (IH q) by (done || simpl in *; lia).
    rewrite qp_write_app, wrap_int32_add_l. do 3 f_equal.
    simpl length. lia.
Qed.

(** ** The loop over the series of the map *)

Lemma peek_map_end tail :
  map_end tail -> peek tail = QP_END \/ peek tail = QP_MAP_CLOSE.
Proof. intros [->|[rest ->]]; [by left | by right]. Qed.

Lemma peek_enc_payload ss tail :
  map_end tail ->
  peek (enc_payload ss ++ tail) = QP_RAW \/
  peek (enc_payload ss ++ tail) = QP_END \/
  peek (enc_payload ss ++ tail) = QP_MAP_CLOSE.
Proof.
  intros Ht. destruct ss as [|s ss]; simpl.
  - right. by apply peek_map_end.
  - by left.
Qed.

Lemma length_enc_points pts : length (enc_points pts) = 3 * length pts.
Proof. induction pts as [|p pts IH]; simpl in *; lia. Qed.

(** One round of the loop on an accepted entry. *)
Lemma assign_series_step fuel siridb s rest packer count :
  series_ok siridb s ->
  (closed s = false -> peek rest <> QP_ARRAY2 /\ peek rest <> QP_ARRAY_CLOSE) ->
  S (length (points s)) < fuel ->
  assign_series (S fuel) siridb QP_RAW
    (header s :: enc_points (points s)
       ++ (if closed s then [T_ARRAY_CLOSE] else []) ++ rest)
    (Some (T_RAW (name s))) packer count
  = assign_series fuel siridb (qp_next rest).1.1 (qp_next rest).2
      (qp_next rest).1.2 (write_series siridb packer s)
      (wrap_int32 (count + Z.of_nat (length (points s)))).
Proof.
  intros (Hh & Hne & Hv) Hr Hf.
  destruct s as [n pts h c]. simpl in *.
  destruct pts as [|p pts]; [done|].
  cbn [assign_series qp_next via_raw]. rewrite Hh.
  cbn [negb enc_points flat_map enc_point app qp_next tp_of fst snd].
  set (tl := (if c then [T_ARRAY_CLOSE] else []) ++ rest).
  assert (Htl : peek tl <> QP_ARRAY2).
  { subst tl. destruct c; simpl; [done|]. by apply Hr. }
  fold (enc_points pts).
  rewrite (assign_points_ok siridb _ pts p fuel tl) by (done || simpl in *; lia).
  unfold write_series, pool_of, sub_entry. fold_write.
  cbn [name points type_token option_list bool_decide decide_rel].
  rewrite bool_decide_eq_false_2 by (intros H; by apply H).
  rewrite !qp_write_app. unfold obj_len. cbn [via_raw option_list app].
  rewrite substring_full.
  assert (Hst :
    (if bool_decide ((qp_next tl).1.1 = QP_ARRAY_CLOSE)
     then qp_next (qp_next tl).2
     else ((qp_next tl).1.1, (qp_next tl).1.2, (qp_next tl).2))
    = qp_next rest).
  { subst tl. destruct c; simpl; [done|].
    rewrite bool_decide_eq_false_2; [by destruct (qp_next rest) as [[? ?] ?]|].
    by apply Hr. }
  rewrite Hst. destruct (qp_next rest) as [[tp' obj'] rest'].
  simpl. reflexivity.
Qed.

Lemma total_points_cons s ss :
  total_points (s :: ss) = length (points s) + total_points ss.
Proof. reflexivity. Qed.

(** The loop takes every entry of an accepted payload, writes each into the
    packer of its pool and returns the number of points, as an [int32_t]. *)
Lemma assign_series_ok siridb (ss : list series_batch) :
  forall fuel tail packer count,
  Forall (series_ok siridb) ss ->
  map_end tail ->
  length (enc_payload ss) <= fuel ->
  0 < fuel ->
  (- 2 ^ 31 <= count < 2 ^ 31)%Z ->
  assign_series fuel siridb
    (qp_next (enc_payload ss ++ tail)).1.1
    (qp_next (enc_payload ss ++ tail)).2
    (qp_next (enc_payload ss ++ tail)).1.2 packer count
  = Some (wrap_int32 (count + Z.of_nat (total_points ss)),
          write_payload siridb packer ss).
Proof.
  induction ss as [|s ss IH]; intros fuel tail packer count Hok Ht Hf Hf0 Hc.
  - destruct fuel as [|fuel]; [lia|]. simpl.
    rewrite Z.add_0_r, wrap_int32_small by done.
    destruct Ht as [->|[rest ->]]; reflexivity.
  - destruct fuel as [|fuel]; [lia|].
    inversion Hok as [|? ? Hs Hok']; subst.
    assert (Hlen : length (enc_payload (s :: ss))
                   = 2 + 3 * length (points s)
                     + (if closed s then 1 else 0) + length (enc_payload ss)).
    { simpl. rewrite !length_app, length_enc_points.
      destruct (closed s); simpl; lia. }
    cbn [enc_payload flat_map enc_series app qp_next tp_of fst snd].
    rewrite <- !app_assoc.
    fold (enc_payload ss).
    assert (points s <> []) as Hne by apply Hs.
    assert (0 < length (points s)) by (destruct (points s); [done|simpl; lia]).
    rewrite assign_series_step; [|done| |lia].
    2:{ intros _. destruct (peek_enc_payload ss tail Ht) as [->|[->| ->]];
        by split. }
    rewrite IH; [|done|done|lia|lia|].
    + rewrite wrap_int32_add_l, total_points_cons. do 3 f_equal. lia.
    + unfold wrap_int32.
      pose proof (Z.mod_pos_bound (count + Z.of_nat (length (points s)) + 2 ^ 31)
                    (2 ^ 32)) as Hb. lia.
Qed.

(** Each packer receives the entries of its pool, in the order of the
    payload. *)
Lemma write_payload_lookup siridb (ss : list series_batch) :
  forall (packer : list qp_packer_t) k,
  write_payload siridb packer ss !! k
  = (fun b => b ++ flat_map sub_entry (routed siridb k ss)) <$> packer !! k.
Proof.
  induction ss as [|s ss IH]; intros packer k.
  - simpl. destruct (packer !! k); simpl; [by rewrite app_nil_r|done].
  - simpl. rewrite IH. unfold write_series. rewrite qp_write_lookup.
    unfold routed. case_decide as Hk.
    + rewrite filter_cons_True by done.
      destruct (packer !! k); simpl; [by rewrite <- app_assoc|done].
    + by rewrite filter_cons_False by done.
Qed.

Lemma write_payload_new siridb (ss : list series_batch) (n : nat) :
  write_payload siridb (new_packers n) ss
  = (fun k => sub_batch siridb k ss) <$> seq 0 n.
Proof.
  apply list_eq. intros k.
  rewrite write_payload_lookup, list_lookup_fmap. unfold new_packers.
  destruct (decide (k < n)) as [Hk|Hk].
  - rewrite lookup_replicate_2, lookup_seq_lt by done. reflexivity.
  - rewrite (proj1 (lookup_replicate_None _ _ _)) by lia.
    rewrite lookup_seq_ge by lia. reflexivity.
Qed.

(** The classifier on an accepted map payload. *)
Lemma assign_pools_ok siridb (ss : list series_batch) tail qp_obj :
  Forall (series_ok siridb) ss ->
  map_end tail ->
  siridb_insert_assign_pools siridb (map_payload ss tail) qp_obj
  = Some (wrap_int32 (Z.of_nat (total_points ss)),
          (fun k => sub_batch siridb k ss) <$> seq 0 (pools_size siridb)).
Proof.
  intros Hok Ht. unfold siridb_insert_assign_pools, map_payload.
  cbn [qp_next tp_of fst snd qp_is_array qp_is_map]. unfold assign_by_map.
  pose proof (assign_series_ok siridb ss
    (S (length (qp_next (enc_payload ss ++ tail)).2)) tail
    (new_packers (pools_size siridb)) 0%Z Hok Ht) as H.
  destruct (qp_next (enc_payload ss ++ tail)) as [[tp obj] u] eqn:Hn.
  cbn [fst snd] in H. rewrite H; [by rewrite write_payload_new| |lia|lia].
  destruct (enc_payload ss ++ tail) as [|t l] eqn:Hl; simpl in Hn.
  - apply app_eq_nil in Hl as [-> _]. simpl. lia.
  - inversion Hn; subst. apply (f_equal length) in Hl.
    rewrite length_app in Hl. simpl in Hl. lia.
Qed.

(** ** The message table *)

(** The index [err + SIRIDB_INSERT_ERR_SIZE] lies inside the table exactly
    for the seven codes. *)
Lemma err_index_bounds (e : Z) :
  (- SIRIDB_INSERT_ERR_SIZE <= e <= -1)%Z <->
  (0 <= e + SIRIDB_INSERT_ERR_SIZE <= 6)%Z.
Proof. unfold SIRIDB_INSERT_ERR_SIZE. lia. Qed.

Lemma c_index_None {A} (table : list A) (i : Z) :
  ~ (0 <= i < Z.of_nat (length table))%Z -> c_index table i = None.
Proof.
  intros Hi. unfold c_index. case_bool_decide; [|done].
  apply lookup_ge_None. lia.
Qed.

(** C10: for each of the seven error codes [-7 .. -1] the function
    [siridb_insert_err_msg] reads the message table at the index
    [err + SIRIDB_INSERT_ERR_SIZE], which lies in [0, 6], and returns the
    fixed, non-null text of that code; for every other value the index is
    outside the table. *)
Theorem siridb_insert_err_msg_bounds (e : Z) :
  ((- SIRIDB_INSERT_ERR_SIZE <= e <= -1)%Z ->
     (0 <= e + SIRIDB_INSERT_ERR_SIZE <= 6)%Z /\
     exists msg, siridb_insert_err_msg e = Some msg /\
       err_msg !! Z.to_nat (e + SIRIDB_INSERT_ERR_SIZE) = Some msg /\
       msg <> EmptyString) /\
  (~ (- SIRIDB_INSERT_ERR_SIZE <= e <= -1)%Z ->
     ~ (0 <= e + SIRIDB_INSERT_ERR_SIZE <= 6)%Z /\
     siridb_insert_err_msg e = None) /\
  (siridb_insert_err_msg ERR_EXPECTING_ARRAY
    = Some "Expecting an array with points.") /\
  (siridb_insert_err_msg ERR_EXPECTING_SERIES_NAME
    = Some "Expecting a series name (string value) with an array of points where each point should be an integer time-stamp with a value.") /\
  (siridb_insert_err_msg ERR_EXPECTING_MAP_OR_ARRAY
    = Some "Expecting an array or map containing series and points.") /\
  (siridb_insert_err_msg ERR_EXPECTING_INTEGER_TS
    = Some "Expecting an integer value as time-stamp.") /\
  (siridb_insert_err_msg ERR_TIMESTAMP_OUT_OF_RANGE
    = Some "Received at least one time-stamp which is out-of-range.") /\
  (siridb_insert_err_msg ERR_UNSUPPORTED_VALUE
    = Some "Unsupported value received. (only integer, string and float values are supported).") /\
  (siridb_insert_err_msg ERR_EXPECTING_AT_LEAST_ONE_POINT
    = Some "Expecting a series to have at least one point.").
Proof.
  split; [|split; [|repeat split; reflexivity]].
  - intros He. split; [by apply err_index_bounds|].
    assert (e = -7 \/ e = -6 \/ e = -5 \/ e = -4 \/ e = -3 \/ e = -2
            \/ e = -1)%Z as Hcases by (unfold SIRIDB_INSERT_ERR_SIZE in He; lia).
    destruct Hcases as [->|[->|[->|[->|[->|[->| ->]]]]]];
      (eexists; split; [reflexivity|split; [reflexivity|discriminate]]).
  - intros He. split; [by rewrite <- err_index_bounds|].
    unfold siridb_insert_err_msg. apply c_index_None.
    unfold SIRIDB_INSERT_ERR_SIZE in *. simpl. lia.
Qed.

Lemma siridb_insert_err_msg_bounds_witness :
  (- SIRIDB_INSERT_ERR_SIZE <= -3 <= -1)%Z /\
  siridb_insert_err_msg (-3)
  = Some "Received at least one time-stamp which is out-of-range.".
Proof.
  assert (- SIRIDB_INSERT_ERR_SIZE <= -3 <= -1)%Z as H
    by (unfold SIRIDB_INSERT_ERR_SIZE; lia).
  split; [exact H|].
  destruct (proj1 (siridb_insert_err_msg_bounds (-3)) H) as [_ [msg [Hm _]]].
  rewrite Hm. vm_compute in Hm. symmetry. exact Hm.
Defined.

(** ** The request time-out of the admin client *)

Lemma timeout_flag_set (flags : Z) :
  Z.land (Z.lor flags CLIENT_FLAGS_TIMEOUT) CLIENT_FLAGS_TIMEOUT <> 0%Z.
Proof.
  rewrite Z.land_lor_distr_l. intros H.
  apply Z.lor_eq_0_iff in H as [_ H]. discriminate H.
Qed.

Lemma CLIENT_request_timeout_sets adm_client :
  timed_out (CLIENT_request_timeout adm_client).1.
Proof. unfold timed_out. simpl. apply timeout_flag_set. Qed.

(** A reply that arrives after the time-out changes nothing and is only
    logged. *)
Lemma CLIENT_on_data_timed_out adm_client pkg :
  timed_out adm_client ->
  CLIENT_on_data adm_client pkg = (adm_client, dropped pkg).
Proof.
  intros Ht. unfold CLIENT_on_data. by rewrite bool_decide_eq_true_2.
Qed.

Lemma CLIENT_on_error_msg_state adm_client pkg :
  (CLIENT_on_error_msg adm_client pkg).1 = adm_client.
Proof.
  unfold CLIENT_on_error_msg.
  destruct (qp_next (pkg_data pkg)) as [[tp1 o1] u1].
  destruct (qp_next u1) as [[tp2 o2] u2].
  destruct (qp_next u2) as [[tp3 o3] u3].
  by case_match.
Qed.

Lemma CLIENT_on_data_flags adm_client pkg :
  adm_flags (CLIENT_on_data adm_client pkg).1 = adm_flags adm_client.
Proof.
  unfold CLIENT_on_data. case_bool_decide; [done|].
  pose proof (CLIENT_on_error_msg_state adm_client pkg) as He.
  destruct (pkg_tp_of pkg); simpl; try done;
    try (destruct (CLIENT_on_error_msg adm_client pkg); simpl in *;
         by subst).
  by destruct (adm_request adm_client).
Qed.

(** A reply that arrives in time stops the request timer and is
    dispatched on its type. *)
Lemma CLIENT_on_data_processes adm_client pkg :
  ~ timed_out adm_client ->
  existsb processing (CLIENT_on_data adm_client pkg).2 = true.
Proof.
  intros Hnot. unfold CLIENT_on_data, timed_out in *.
  rewrite bool_decide_eq_false_2 by done.
  by destruct (match pkg_tp_of pkg with CPROTO_RES_AUTH_SUCCESS => _ | _ => _
               end) as [adm' handled].
Qed.

(** No handler clears a flag: the only write to [flags] is the [|=] of the
    time-out handler. *)
Lemma handle_keeps_timed_out adm_client ev :
  timed_out adm_client -> timed_out (handle adm_client ev).1.
Proof.
  unfold timed_out. intros Ht. destruct ev as [status|status|pkg|]; simpl.
  - unfold CLIENT_on_connect. by case_bool_decide.
  - done.
  - by rewrite CLIENT_on_data_flags.
  - apply timeout_flag_set.
Qed.

Lemma run_timed_out adm_client evs :
  timed_out adm_client ->
  timed_out (run adm_client evs).1 /\
  forall pkg done,
    (Ev_data pkg, done) ∈ (run adm_client evs).2 -> done = dropped pkg.
Proof.
  revert adm_client. induction evs as [|ev evs IH]; intros adm_client Ht.
  - simpl. split; [done|]. intros pkg done Hin. by apply elem_of_nil in Hin.
  - simpl. pose proof (handle_keeps_timed_out adm_client ev Ht) as Ht'.
    destruct (handle adm_client ev) as [adm' eff] eqn:Hh. simpl in Ht'.
    destruct (IH adm' Ht') as [IH1 IH2].
    destruct (run adm' evs) as [final log]. simpl in *.
    split; [done|]. intros pkg done Hin.
    apply elem_of_cons in Hin as [Heq|Hin]; [|by eapply IH2].
    inversion Heq; subst. simpl in Hh.
    rewrite CLIENT_on_data_timed_out in Hh by done. congruence.
Qed.

(** A run of replies only, on a request that has timed out, ends in the
    [adm_client] it began with. *)
Lemma run_replies_timed_out adm_client evs :
  timed_out adm_client ->
  (forall ev, ev ∈ evs -> exists pkg, ev = Ev_data pkg) ->
  (run adm_client evs).1 = adm_client.
Proof.
  intros Ht. induction evs as [|ev evs IH]; intros Hdata; [done|].
  destruct (Hdata ev ltac:(by left)) as [pkg ->]. simpl.
  rewrite CLIENT_on_data_timed_out by done.
  assert (Hrest : (run adm_client evs).1 = adm_client).
  { apply IH. intros ev Hev. apply Hdata. by right. }
  destruct (run adm_client evs) as [final log]. by simpl in *.
Qed.

(** C9: a request is sent with the timer armed at 15000 ms; once the timer
    has fired, the time-out flag is set and stays set whatever callbacks run
    afterwards, and every package that arrives afterwards is only logged:
    its handler changes nothing and does none of the things by which a reply
    is processed.  In particular [adm_client] is left as it is by every
    reply that arrives after the time-out: the request is not moved on and
    no package is stored. *)
Theorem request_timeout_drops_late_replies
    (adm_client : siri_admin_client_t) (pkg0 : sirinet_pkg_t)
    (evs : list event) :
  CLIENT_REQUEST_TIMEOUT = 15000%Z /\
  (CLIENT_send_pkg adm_client pkg0).2
    = [Timer_start CLIENT_REQUEST_TIMEOUT 0; Uv_write pkg0] /\
  (~ timed_out adm_client ->
     existsb processing (CLIENT_on_data adm_client pkg0).2 = true) /\
  let fired := (CLIENT_request_timeout adm_client).1 in
  timed_out fired /\
  timed_out (run fired evs).1 /\
  (forall pkg done,
     (Ev_data pkg, done) ∈ (run fired evs).2 ->
     done = dropped pkg /\ existsb processing done = false) /\
  (forall pkg,
     handle (run fired evs).1 (Ev_data pkg)
     = ((run fired evs).1, dropped pkg)) /\
  ((forall ev, ev ∈ evs -> exists pkg, ev = Ev_data pkg) ->
   (run fired evs).1 = fired).
Proof.
  split; [reflexivity|]. split; [reflexivity|]. split.
  { intros Hnot. by apply CLIENT_on_data_processes. }
  intros fired.
  pose proof (CLIENT_request_timeout_sets adm_client) as Hf.
  destruct (run_timed_out fired evs Hf) as [H1 H2].
  split; [done|]. split; [done|]. split; [|split].
  - intros pkg done Hin. split; [by apply H2|].
    rewrite (H2 pkg done) by done. reflexivity.
  - intros pkg. simpl. by apply CLIENT_on_data_timed_out.
  - intros Hdata. by apply run_replies_timed_out.
Qed.

(** A request that has just been started: its reply is processed in time;
    after the time-out it is dropped and leaves [adm_client] as it is. *)
Lemma request_timeout_drops_late_replies_witness :
  exists adm_client,
    started_request = inr adm_client /\
    existsb processing (CLIENT_on_data adm_client auth_reply).2 = true /\
    run (CLIENT_request_timeout adm_client).1 [Ev_data auth_reply]
    = ((CLIENT_request_timeout adm_client).1,
       [(Ev_data auth_reply, dropped auth_reply)]).
Proof.
  eexists. split; [reflexivity|].
  match goal with
  | |- existsb processing (CLIENT_on_data ?a _).2 = true /\ _ =>
      destruct (request_timeout_drops_late_replies a auth_reply
                  [Ev_data auth_reply]) as (_ & _ & Hfresh & _)
  end.
  split; [|reflexivity].
  apply Hfresh. unfold timed_out. simpl. intros H. by apply H.
Defined.

(** ** The dispatcher terminates and only calls the registry and the client *)

Lemma qp_next_length (u : qp_unpacker_t) :
  length (qp_next u).2 <= length u /\
  ((qp_next u).1.1 <> QP_END -> length (qp_next u).2 < length u).
Proof. destruct u as [|t u]; simpl; split; (done || lia). Qed.

Lemma local_points_total (fuel : nat) :
  forall u : qp_unpacker_t,
  length u < fuel ->
  exists tp o u',
    local_points fuel u = Some (tp, o, u') /\
    length u' <= length u /\ (tp <> QP_END -> length u' < length u).
Proof.
  induction fuel as [|fuel IH]; intros u Hf; [lia|].
  simpl. destruct u as [|t u]; simpl.
  - exists QP_END, None, []. by repeat split.
  - case_bool_decide as Ht.
    + destruct (qp_next u) as [[tp1 o1] u1] eqn:H1.
      destruct (qp_next u1) as [[tp2 o2] u2] eqn:H2.
      pose proof (qp_next_length u) as [L1 _].
      pose proof (qp_next_length u1) as [L2 _].
      rewrite H1 in L1. rewrite H2 in L2. simpl in *.
      destruct (IH u2) as (tp & o & u' & -> & Hl & Hlt); [lia|].
      exists tp, o, u'. repeat split; [lia|]. intros; lia.
    + exists (tp_of t), (Some t), u. repeat split; [lia|]. intros; lia.
Qed.

Lemma local_series_total (fuel : nat) :
  forall siridb tp (u : qp_unpacker_t) o calls,
  (tp = QP_RAW -> length u + 1 < fuel) ->
  0 < fuel ->
  exists siridb' extra,
    local_series fuel siridb tp u o calls = Some (siridb', calls ++ extra) /\
    forallb registry_call extra = true /\
    server_pool siridb' = server_pool siridb.
Proof.
  induction fuel as [|fuel IH]; intros siridb tp u o calls Hraw Hf; [lia|].
  simpl. case_bool_decide as Htp.
  - specialize (Hraw Htp).
    destruct (qp_next u) as [[tp1 o1] u1] eqn:H1.
    destruct (qp_next u1) as [[tp2 o2] u2] eqn:H2.
    destruct (qp_next u2) as [[tp3 o3] u3] eqn:H3.
    destruct (qp_next u3) as [[tp4 o4] u4] eqn:H4.
    pose proof (qp_next_length u) as [L1 _]. rewrite H1 in L1.
    pose proof (qp_next_length u1) as [L2 _]. rewrite H2 in L2.
    pose proof (qp_next_length u2) as [L3 _]. rewrite H3 in L3.
    pose proof (qp_next_length u3) as [L4 _]. rewrite H4 in L4.
    simpl in *.
    destruct (local_points_total fuel u4) as (tp' & o' & u' & Hlp & Hl & Hlt);
      [lia|].
    set (st := match series siridb !! c_str (via_raw o) with
               | Some _ => _ | None => _ end).
    assert (Hst : exists db1 ex1, st = (db1, calls ++ ex1) /\
              forallb registry_call ex1 = true /\
              server_pool db1 = server_pool siridb).
    { subst st. destruct (series siridb !! c_str (via_raw o)).
      - eexists _, [_]. by repeat split.
      - eexists _, [_; _]. rewrite <- app_assoc. simpl. by repeat split. }
    destruct Hst as (db1 & ex1 & -> & Hex1 & Hsp1).
    rewrite Hlp.
    set (nx := if bool_decide (tp' = QP_ARRAY_CLOSE) then qp_next u'
               else (tp', o', u')).
    assert (Hnx : length nx.2 <= length u' /\
                  (nx.1.1 = QP_RAW -> length nx.2 < length u4)).
    { subst nx. case_bool_decide as Hc.
      - pose proof (qp_next_length u') as [La Lb]. split; [done|].
        intros Hr. rewrite Hr in Lb. specialize (Lb ltac:(done)). lia.
      - simpl. split; [done|]. intros ->. apply Hlt. done. }
    destruct nx as [[tp5 o5] u5]. simpl in Hnx. destruct Hnx as [Ha Hb].
    destruct (IH db1 tp5 u5 o5 (calls ++ ex1)) as (db2 & ex2 & -> & Hex2 & Hsp2).
    { intros Hr. specialize (Hb Hr). lia. }
    { lia. }
    exists db2, (ex1 ++ ex2). rewrite app_assoc. repeat split.
    + rewrite forallb_app, Hex1, Hex2. done.
    + congruence.
  - exists siridb, []. rewrite app_nil_r. by repeat split.
Qed.

Lemma local_pool_total siridb (buffer : qp_packer_t) calls :
  exists siridb' extra,
    local_pool siridb buffer calls = Some (siridb', calls ++ extra) /\
    forallb registry_call extra = true /\
    server_pool siridb' = server_pool siridb.
Proof.
  unfold local_pool.
  destruct (qp_next buffer) as [[tp1 o1] u1].
  destruct (qp_next u1) as [[tp2 o2] u2].
  apply local_series_total; intros; lia.
Qed.

Lemma pools_loop_total (ns : list nat) insert :
  forall siridb calls,
  exists siridb' extra,
    pools_loop ns insert siridb calls = Some (siridb', calls ++ extra) /\
    forallb registry_call extra = true /\
    server_pool siridb' = server_pool siridb.
Proof.
  induction ns as [|n ns IH]; intros siridb calls; simpl.
  - exists siridb, []. rewrite app_nil_r. by repeat split.
  - case_bool_decide as Hn; [|apply IH].
    destruct (local_pool_total siridb (packer insert !!! n) calls)
      as (db1 & ex1 & -> & Hex1 & Hsp1).
    destruct (IH db1 (calls ++ ex1)) as (db2 & ex2 & -> & Hex2 & Hsp2).
    exists db2, (ex1 ++ ex2). rewrite app_assoc. repeat split.
    + by rewrite forallb_app, Hex1, Hex2.
    + congruence.
Qed.

Lemma omap_registry_calls {A} (f : call -> option A) (calls : list call) :
  (forall c, registry_call c = true -> f c = None) ->
  forallb registry_call calls = true -> omap f calls = [].
Proof.
  intros Hf. induction calls as [|c calls IH]; simpl; [done|].
  intros [Hc Hcs]%andb_prop. rewrite (Hf c Hc). by apply IH.
Qed.

(** The shape of every run of the dispatcher: calls on the registry, then
    the reply to the client and the release of the job. *)
Lemma send_points_to_pools_shape siridb insert :
  exists siridb' extra,
    send_points_to_pools siridb insert
    = Some (siridb',
            extra ++
              [Sirinet_send_pkg (client insert)
                 (sirinet_new_pkg (pid insert) SN_MSG_RESULT
                    [T_MAP_OPEN; T_RAW "success_msg";
                     T_RAW (fmt_inserted (size insert))]);
               Uv_close_free_insert]) /\
    forallb registry_call extra = true.
Proof.
  unfold send_points_to_pools.
  destruct (pools_loop_total (seq 0 (packer_size insert)) insert siridb [])
    as (db1 & ex1 & -> & Hex1 & _).
  exists db1, ex1. split; [reflexivity|done].
Qed.

Lemma as_ssize_t_small (z : Z) :
  (- 2 ^ 63 <= z < 2 ^ 63)%Z -> as_ssize_t z = z.
Proof. intros Hz. unfold as_ssize_t. rewrite Z.mod_small; lia. Qed.

(** ** The reply of an insert job *)

(** The claim of C7 fails where a pool fails.  With two pools of which the
    second did not acknowledge, the job of the payload [a], [b] still sends
    the success summary and no error reply. *)
Lemma reply_ignores_pool_failure :
  exists classified siridb' calls pkg,
    siridb_insert_assign_pools two_pools (map_payload payload_a_b []) None
      = Some classified /\
    send_points_to_pools two_pools (insert_job two_pools 7 1 classified)
      = Some (siridb', calls) /\
    sent_packages calls = [(1, pkg)] /\
    ~ reply_as_specified [true; false] classified.1 pkg.
Proof.
  eexists _, _, _, _. split; [vm_compute; reflexivity|].
  split; [vm_compute; reflexivity|]. split; [vm_compute; reflexivity|].
  unfold reply_as_specified. simpl. intros (msg & rest & H). discriminate H.
Qed.

(** C7, amended: every insert job sends exactly one package to its client.
    It is always the one-entry map with the key [success_msg] and the text
    ["Inserted N point(s) successfully."], where [N] is the point count of
    the job in decimal.  The outcome of the pools is not an input of the
    dispatcher: no error reply exists. *)
Theorem insert_job_single_success_reply (siridb : siridb_t)
    (insert : siridb_insert_t) :
  exists siridb' calls,
    send_points_to_pools siridb insert = Some (siridb', calls) /\
    sent_packages calls
      = [(client insert,
          {| pkg_pid := pid insert; pkg_tp_of := SN_MSG_RESULT;
             pkg_data := [T_MAP_OPEN; T_RAW "success_msg";
                          T_RAW (fmt_inserted (size insert))] |})] /\
    ((0 <= size insert < 2 ^ 63)%Z ->
       [T_MAP_OPEN; T_RAW "success_msg"; T_RAW (fmt_inserted (size insert))]
       = success_reply (size insert)) /\
    forall pkg, (client insert, pkg) ∈ sent_packages calls ->
      ~ is_error_reply pkg.
Proof.
  destruct (send_points_to_pools_shape siridb insert)
    as (db1 & extra & Hrun & Hex).
  eexists _, _. split; [exact Hrun|].
  assert (Hsent : sent_packages
            (extra ++
               [Sirinet_send_pkg (client insert)
                  (sirinet_new_pkg (pid insert) SN_MSG_RESULT
                     [T_MAP_OPEN; T_RAW "success_msg";
                      T_RAW (fmt_inserted (size insert))]);
                Uv_close_free_insert])
          = [(client insert,
              sirinet_new_pkg (pid insert) SN_MSG_RESULT
                [T_MAP_OPEN; T_RAW "success_msg";
                 T_RAW (fmt_inserted (size insert))])]).
  { unfold sent_packages. rewrite omap_app.
    rewrite omap_registry_calls; [reflexivity| |done].
    by intros []. }
  rewrite Hsent. split; [reflexivity|]. split.
  - intros Hs. unfold success_reply, fmt_inserted.
    rewrite as_ssize_t_small by lia. reflexivity.
  - intros pkg Hin. apply list_elem_of_singleton in Hin.
    injection Hin as ->. intros (msg & rest & H). discriminate H.
Qed.

Lemma insert_job_single_success_reply_witness :
  (0 <= 3 < 2 ^ 63)%Z /\
  exists siridb' calls,
    send_points_to_pools two_pools
      (siridb_insert_points 7 1 3 2 [[T_MAP_OPEN]; [T_MAP_OPEN]])
      = Some (siridb', calls) /\
    sent_packages calls
      = [(1, {| pkg_pid := 7; pkg_tp_of := SN_MSG_RESULT;
                pkg_data := [T_MAP_OPEN; T_RAW "success_msg";
                             T_RAW "Inserted 3 point(s) successfully."] |})].
Proof.
  split; [lia|].
  destruct (insert_job_single_success_reply two_pools
              (siridb_insert_points 7 1 3 2 [[T_MAP_OPEN]; [T_MAP_OPEN]]))
    as (db & calls & Hrun & Hsent & _).
  exists db, calls. split; [exact Hrun|exact Hsent].
Defined.

(** ** The local sub-batch *)

Lemma local_points_enc (pts : list point) :
  forall fuel rest,
  peek rest <> QP_ARRAY2 ->
  length pts < fuel ->
  local_points fuel (enc_points pts ++ rest) = Some (qp_next rest).
Proof.
  induction pts as [|p pts IH]; intros fuel rest Hr Hf.
  - destruct fuel as [|fuel]; [lia|]. simpl. unfold peek in Hr.
    destruct (qp_next rest) as [[tp o] u]. simpl in Hr.
    by rewrite bool_decide_eq_false_2.
  - destruct fuel as [|fuel]; [simpl in Hf; lia|].
    simpl. apply IH; [done|simpl in Hf; lia].
Qed.

Lemma c_str_terminated (n : string) : c_str (terminated n) = c_str n.
Proof.
  induction n as [|c n IH]; simpl; [done|].
  case_bool_decide; [done|]. unfold terminated in IH. by rewrite IH.
Qed.

Lemma length_sub_entry s :
  length (sub_entry s) = 3 + 3 * length (points s).
Proof.
  unfold sub_entry. simpl. rewrite length_app, length_enc_points. simpl. lia.
Qed.

(** One round of the loop over the local sub-batch is one get-or-create. *)
Lemma local_series_step fuel siridb (s : series_batch) rest calls :
  points s <> [] ->
  length (points s) < fuel ->
  local_series (S fuel) siridb QP_RAW
    (T_ARRAY_OPEN :: enc_points (points s) ++ T_ARRAY_CLOSE :: rest)
    (Some (T_RAW (terminated (name s)))) calls
  = local_series fuel (get_or_create (siridb, calls) s).1
      (qp_next rest).1.1 (qp_next rest).2 (qp_next rest).1.2
      (get_or_create (siridb, calls) s).2.
Proof.
  intros Hne Hf. destruct s as [n pts h c]. simpl in *.
  destruct pts as [|[ts v] pts]; [done|].
  cbn [local_series enc_points flat_map enc_point app qp_next fst snd].
  fold (enc_points pts).
  rewrite local_points_enc by (done || simpl in Hf; lia).
  cbn [qp_next tp_of]. rewrite bool_decide_eq_true_2 by done.
  unfold get_or_create, series_key, first_value_tp.
  cbn [name points fst snd via_raw obj_tp].
  destruct (qp_next rest) as [[tp' o'] u'].
  destruct (series siridb !! c_str (terminated n)); simpl;
    rewrite <- ?app_assoc; reflexivity.
Qed.

Lemma local_series_entries (ls : list series_batch) :
  forall fuel siridb calls,
  Forall (fun s => points s <> []) ls ->
  length (flat_map sub_entry ls) <= fuel ->
  0 < fuel ->
  local_series fuel siridb
    (qp_next (flat_map sub_entry ls)).1.1
    (qp_next (flat_map sub_entry ls)).2
    (qp_next (flat_map sub_entry ls)).1.2 calls
  = Some (foldl get_or_create (siridb, calls) ls).
Proof.
  induction ls as [|s ls IH]; intros fuel siridb calls Hne Hf Hf0.
  - destruct fuel as [|fuel]; [lia|]. reflexivity.
  - destruct fuel as [|fuel]; [lia|].
    inversion Hne as [|? ? Hs Hne']; subst.
    assert (0 < length (points s)) by (destruct (points s); [done|simpl; lia]).
    cbn [flat_map] in *. rewrite length_app, length_sub_entry in Hf.
    unfold sub_entry at 1 2 3. cbn [app qp_next tp_of fst snd].
    rewrite <- app_assoc. cbn [app].
    rewrite local_series_step by (done || lia).
    destruct (get_or_create (siridb, calls) s) as [db1 calls1] eqn:Hg.
    cbn [fst snd]. rewrite IH by (done || lia).
    cbn [foldl]. by rewrite Hg.
Qed.

Lemma local_pool_sub_batch siridb k (ss : list series_batch) calls :
  Forall (series_ok siridb) ss ->
  local_pool siridb (sub_batch siridb k ss) calls
  = Some (foldl get_or_create (siridb, calls) (routed siridb k ss)).
Proof.
  intros Hok. unfold local_pool, sub_batch. cbn [qp_next].
  set (ls := routed siridb k ss).
  pose proof (local_series_entries ls
    (2 + length (qp_next (flat_map sub_entry ls)).2) siridb calls) as H.
  destruct (qp_next (flat_map sub_entry ls)) as [[tp o] u] eqn:Hn.
  apply H.
  - subst ls. unfold routed. apply Forall_forall. intros s Hs.
    apply list_elem_of_filter in Hs as [_ Hs].
    rewrite Forall_forall in Hok. by apply Hok.
  - pose proof (qp_next_length (flat_map sub_entry ls)) as [_ Hl].
    rewrite Hn in Hl. simpl in *.
    destruct (flat_map sub_entry ls) as [|t l]; simpl in *; [lia|].
    injection Hn as _ _ <-. lia.
  - simpl. lia.
Qed.

Lemma get_or_create_server_pool st s :
  server_pool (get_or_create st s).1 = server_pool st.1.
Proof. unfold get_or_create. by case_match. Qed.

Lemma foldl_get_or_create_server_pool (ls : list series_batch) :
  forall st, server_pool (foldl get_or_create st ls).1 = server_pool st.1.
Proof.
  induction ls as [|s ls IH]; intros st; simpl; [done|].
  by rewrite IH, get_or_create_server_pool.
Qed.

(** ** The loop over the pools *)

Lemma pools_loop_skip (ns : list nat) insert siridb calls :
  server_pool siridb ∉ ns ->
  pools_loop ns insert siridb calls = Some (siridb, calls).
Proof.
  induction ns as [|n ns IH]; intros Hn; simpl; [done|].
  apply not_elem_of_cons in Hn as [Hne Hn].
  rewrite bool_decide_eq_false_2 by done. by apply IH.
Qed.

Lemma pools_loop_app (ns1 ns2 : list nat) insert :
  forall siridb calls,
  pools_loop (ns1 ++ ns2) insert siridb calls
  = match pools_loop ns1 insert siridb calls with
    | Some (siridb', calls') => pools_loop ns2 insert siridb' calls'
    | None => None
    end.
Proof.
  induction ns1 as [|n ns1 IH]; intros siridb calls; simpl; [done|].
  case_bool_decide; [|apply IH].
  destruct (local_pool siridb (packer insert !!! n) calls) as [[db c]|];
    [apply IH|done].
Qed.

(** The loop runs the local branch once, on the packer of this server's
    pool. *)
Lemma pools_loop_local (n : nat) insert siridb calls r :
  server_pool siridb < n ->
  local_pool siridb (packer insert !!! server_pool siridb) calls = Some r ->
  server_pool r.1 = server_pool siridb ->
  pools_loop (seq 0 n) insert siridb calls = Some r.
Proof.
  intros Hlt Hlocal Hsp.
  replace n with (server_pool siridb + S (n - S (server_pool siridb))) by lia.
  rewrite seq_app, pools_loop_app.
  rewrite pools_loop_skip by (rewrite elem_of_seq; lia).
  cbn [seq pools_loop]. rewrite Nat.add_0_l.
  rewrite bool_decide_eq_true_2 by done. rewrite Hlocal.
  destruct r as [db c]. simpl in Hsp.
  apply pools_loop_skip. rewrite Hsp, elem_of_seq. lia.
Qed.

(** The run of the job of a classified payload: the get-or-create of every
    entry of the local sub-batch, the reply, the release. *)
Lemma send_points_classified siridb (ss : list series_batch) pid client count :
  Forall (series_ok siridb) ss ->
  server_pool siridb < pools_size siridb ->
  let packer := (fun k => sub_batch siridb k ss) <$> seq 0 (pools_size siridb) in
  let local := routed siridb (server_pool siridb) ss in
  send_points_to_pools siridb (insert_job siridb pid client (count, packer))
  = Some ((foldl get_or_create (siridb, []) local).1,
          (foldl get_or_create (siridb, []) local).2 ++
            [Sirinet_send_pkg client
               (sirinet_new_pkg pid SN_MSG_RESULT
                  [T_MAP_OPEN; T_RAW "success_msg";
                   T_RAW (fmt_inserted count)]);
             Uv_close_free_insert]).
Proof.
  intros Hok Hsp packer0 local. unfold send_points_to_pools.
  rewrite (pools_loop_local _ _ _ _ (foldl get_or_create (siridb, []) local)).
  - destruct (foldl get_or_create (siridb, []) local) as [db c]. reflexivity.
  - done.
  - unfold insert_job, siridb_insert_points. cbn [packer fst snd packer_size].
    subst packer0.
    rewrite take_ge by (rewrite length_fmap, length_seq; lia).
    rewrite list_lookup_total_alt, list_lookup_fmap, lookup_seq_lt by done.
    by apply local_pool_sub_batch.
  - by rewrite foldl_get_or_create_server_pool.
Qed.

(** ** Get-or-create over the local sub-batch *)

Lemma get_or_create_calls st s :
  exists extra,
    (get_or_create st s).2 = st.2 ++ Ct_get_sure (series_key s) :: extra /\
    forallb registry_call extra = true.
Proof.
  unfold get_or_create. case_match; simpl.
  - by exists [].
  - by eexists [_].
Qed.

Lemma foldl_get_or_create_calls (ls : list series_batch) :
  forall st,
  exists extra,
    (foldl get_or_create st ls).2 = st.2 ++ extra /\
    forallb registry_call extra = true /\
    forall s, s ∈ ls -> Ct_get_sure (series_key s) ∈ extra.
Proof.
  induction ls as [|s ls IH]; intros st; simpl.
  - exists []. rewrite app_nil_r. split; [done|]. split; [done|].
    intros s Hs. by apply elem_of_nil in Hs.
  - destruct (get_or_create_calls st s) as (ex1 & H1 & Hr1).
    destruct (IH (get_or_create st s)) as (ex2 & H2 & Hr2 & Hin).
    exists ((Ct_get_sure (series_key s) :: ex1) ++ ex2).
    rewrite H2, H1, <- app_assoc. split; [done|]. split.
    + simpl. by rewrite forallb_app, Hr1, Hr2.
    + intros s' [->|Hs']%elem_of_cons.
      * apply elem_of_app. left. apply elem_of_cons. by left.
      * apply elem_of_app. right. by apply Hin.
Qed.

Lemma get_or_create_other st s k :
  series_key s <> k ->
  series (get_or_create st s).1 !! k = series st.1 !! k.
Proof.
  intros Hk. unfold get_or_create. case_match; simpl; [done|].
  by rewrite lookup_insert_ne.
Qed.

Lemma get_or_create_keeps st s k tp :
  series st.1 !! k = Some tp ->
  series (get_or_create st s).1 !! k = Some tp.
Proof.
  intros Hk. destruct (decide (series_key s = k)) as [<-|Hne].
  - unfold get_or_create. by rewrite Hk.
  - by rewrite get_or_create_other.
Qed.

Lemma foldl_get_or_create_keeps (ls : list series_batch) :
  forall st k tp,
  series st.1 !! k = Some tp ->
  series (foldl get_or_create st ls).1 !! k = Some tp.
Proof.
  induction ls as [|s ls IH]; intros st k tp Hk; simpl; [done|].
  apply IH. by apply get_or_create_keeps.
Qed.

Lemma foldl_get_or_create_other (ls : list series_batch) :
  forall st k,
  (forall s, s ∈ ls -> series_key s <> k) ->
  series (foldl get_or_create st ls).1 !! k = series st.1 !! k.
Proof.
  induction ls as [|s ls IH]; intros st k Hk; simpl; [done|].
  rewrite IH by (intros s' Hs'; apply Hk; by right).
  apply get_or_create_other, Hk. by left.
Qed.

Lemma get_or_create_new st s :
  series st.1 !! series_key s = None ->
  series (get_or_create st s).1 !! series_key s
    = Some (siridb_qp_map_tp (first_value_tp s)) /\
  Siridb_create_series (series_key s) (siridb_qp_map_tp (first_value_tp s))
    ∈ (get_or_create st s).2.
Proof.
  intros Hk. unfold get_or_create. rewrite Hk. simpl. split.
  - by rewrite lookup_insert_eq.
  - apply elem_of_app. right. apply elem_of_cons. right.
    apply elem_of_cons. by left.
Qed.

(** A name that is not registered gets the type of the first point of its
    first entry. *)
Lemma foldl_get_or_create_new (l1 l2 : list series_batch) s st :
  series st.1 !! series_key s = None ->
  (forall s', s' ∈ l1 -> series_key s' <> series_key s) ->
  series (foldl get_or_create st (l1 ++ s :: l2)).1 !! series_key s
    = Some (siridb_qp_map_tp (first_value_tp s)) /\
  Siridb_create_series (series_key s) (siridb_qp_map_tp (first_value_tp s))
    ∈ (foldl get_or_create st (l1 ++ s :: l2)).2.
Proof.
  intros Hk Hl1. rewrite foldl_app. cbn [foldl].
  set (st1 := foldl get_or_create st l1).
  assert (Hk1 : series st1.1 !! series_key s = None).
  { subst st1. by rewrite foldl_get_or_create_other. }
  destruct (get_or_create_new st1 s Hk1) as [Ha Hb]. split.
  - by apply foldl_get_or_create_keeps.
  - destruct (foldl_get_or_create_calls l2 (get_or_create st1 s))
      as (extra & -> & _). apply elem_of_app. by left.
Qed.

Lemma appended_registry_calls (calls : list call) :
  forallb registry_call calls = true -> appended calls = [].
Proof. apply omap_registry_calls. by intros []. Qed.

Lemma transmitted_registry_calls (calls : list call) :
  forallb registry_call calls = true -> transmitted calls = [].
Proof. apply omap_registry_calls. by intros []. Qed.

(** ** The local pool *)

(** The claim of C5 fails in its last part.  For the payload [a], [b] on
    two pools, series [a] is local and has the point [(1000, 1)]; the
    dispatcher registers [a] and makes no call to the append interface. *)
Lemma local_points_not_forwarded :
  exists classified siridb' calls,
    siridb_insert_assign_pools two_pools (map_payload payload_a_b []) None
      = Some classified /\
    send_points_to_pools two_pools (insert_job two_pools 7 1 classified)
      = Some (siridb', calls) /\
    ~ forwards_all_points
        (routed two_pools (server_pool two_pools) payload_a_b) calls.
Proof.
  eexists _, _, _. split; [vm_compute; reflexivity|].
  split; [vm_compute; reflexivity|].
  intros H.
  specialize (H (open_series "a" [(1000%Z, V_INT64 1)]) (1000%Z, V_INT64 1)).
  assert (Hin : (series_key (open_series "a" [(1000%Z, V_INT64 1)]),
                 1000%Z, T_INT64 1) ∈ @nil (string * Z * token)).
  { apply H.
    - vm_compute. apply elem_of_cons. by left.
    - apply elem_of_cons. by left. }
  by apply elem_of_nil in Hin.
Qed.

(** C5, amended: on the local-pool path the dispatcher does one registry
    get-or-create for every entry of the local sub-batch, in order; a name
    that is not registered is created with the type of the value of the
    first point of its first entry, and registered names keep their type.
    The remaining points are decoded and dropped: no call to the storage's
    append interface is made. *)
Theorem local_pool_get_or_create (siridb : siridb_t)
    (ss : list series_batch) (tail : list token) (qp_obj : qp_obj_t)
    (pid : Z) (client : nat) :
  Forall (series_ok siridb) ss ->
  map_end tail ->
  server_pool siridb < pools_size siridb ->
  exists classified siridb' calls,
    siridb_insert_assign_pools siridb (map_payload ss tail) qp_obj
      = Some classified /\
    send_points_to_pools siridb (insert_job siridb pid client classified)
      = Some (siridb', calls) /\
    let local := routed siridb (server_pool siridb) ss in
    (exists reply,
       siridb' = (foldl get_or_create (siridb, []) local).1 /\
       calls = (foldl get_or_create (siridb, []) local).2
               ++ [Sirinet_send_pkg client reply; Uv_close_free_insert]) /\
    (forall s, s ∈ local ->
       Ct_get_sure (series_key s) ∈ calls /\
       is_Some (series siridb' !! series_key s)) /\
    (forall l1 s l2,
       local = l1 ++ s :: l2 ->
       series siridb !! series_key s = None ->
       (forall s', s' ∈ l1 -> series_key s' <> series_key s) ->
       series siridb' !! series_key s
         = Some (siridb_qp_map_tp (first_value_tp s)) /\
       Siridb_create_series (series_key s)
         (siridb_qp_map_tp (first_value_tp s)) ∈ calls) /\
    (forall k tp,
       series siridb !! k = Some tp -> series siridb' !! k = Some tp) /\
    appended calls = [].
Proof.
  intros Hok Ht Hsp.
  eexists _, _, _. split; [by apply assign_pools_ok|].
  split; [by apply send_points_classified|].
  intros local. subst local.
  set (local := routed siridb (server_pool siridb) ss).
  destruct (foldl_get_or_create_calls local (siridb, []))
    as (extra & Hcalls & Hreg & Hget). simpl in Hcalls.
  split; [by eexists|]. split; [|split; [|split]].
  - intros s Hs. split.
    + apply elem_of_app. left. rewrite Hcalls. by apply Hget.
    + apply list_elem_of_split in Hs as (l1 & l2 & Hl). rewrite Hl.
      rewrite foldl_app. cbn [foldl].
      set (st1 := foldl get_or_create (siridb, []) l1).
      destruct (series st1.1 !! series_key s) as [tp|] eqn:Hk.
      * exists tp. apply foldl_get_or_create_keeps.
        by apply get_or_create_keeps.
      * eexists. apply foldl_get_or_create_keeps.
        by apply get_or_create_new.
  - intros l1 s l2 Hl Hk Hl1. rewrite Hl.
    destruct (foldl_get_or_create_new l1 l2 s (siridb, []) Hk Hl1) as [Ha Hb].
    split; [done|]. apply elem_of_app. by left.
  - intros k tp Hk. by apply foldl_get_or_create_keeps.
  - unfold appended. rewrite omap_app. fold (appended
      (foldl get_or_create (siridb, []) local).2).
    rewrite Hcalls, appended_registry_calls by done. reflexivity.
Qed.

Lemma local_pool_get_or_create_witness :
  exists classified siridb' calls,
    siridb_insert_assign_pools two_pools (map_payload payload_a_b []) None
      = Some classified /\
    send_points_to_pools two_pools (insert_job two_pools 7 1 classified)
      = Some (siridb', calls) /\
    Ct_get_sure "a" ∈ calls /\
    series siridb' !! "a" = Some SIRIDB_SERIES_TP_INT /\
    appended calls = [].
Proof.
  assert (Hok : Forall (series_ok two_pools) payload_a_b)
    by (repeat constructor; done).
  assert (Hend : map_end []) by (by left).
  assert (Hsp : server_pool two_pools < pools_size two_pools)
    by (simpl; lia).
  destruct (local_pool_get_or_create two_pools payload_a_b [] None 7 1
              Hok Hend Hsp)
    as (classified & db & calls & Hcl & Hrun & _ & Hget & Hnew & _ & Happ).
  exists classified, db, calls.
  split; [exact Hcl|]. split; [exact Hrun|]. split; [|split].
  - apply (Hget (open_series "a" [(1000%Z, V_INT64 1)])).
    vm_compute. apply elem_of_cons. by left.
  - apply (Hnew [] (open_series "a" [(1000%Z, V_INT64 1)]) []).
    + reflexivity.
    + reflexivity.
    + intros s' Hs'. by apply elem_of_nil in Hs'.
  - exact Happ.
Defined.

(** ** The remote pools *)

Lemma elem_of_routed siridb k (ss : list series_batch) s :
  s ∈ routed siridb k ss <-> pool_of siridb s = k /\ s ∈ ss.
Proof.
  unfold routed.
  apply (list_elem_of_filter (fun s => pool_of siridb s = k)).
Qed.

(** The claim of C6 fails in its first part.  For the payload [a], [b] on
    two pools, the sub-batch of pool 1 holds series [b] and pool 1 is not
    the pool of this server; the dispatcher hands nothing to the
    transport. *)
Lemma remote_sub_batch_not_transmitted :
  exists classified siridb' calls,
    siridb_insert_assign_pools two_pools (map_payload payload_a_b []) None
      = Some classified /\
    send_points_to_pools two_pools (insert_job two_pools 7 1 classified)
      = Some (siridb', calls) /\
    ~ transmits_remote_sub_batches two_pools classified.2 calls.
Proof.
  eexists _, _, _. split; [vm_compute; reflexivity|].
  split; [vm_compute; reflexivity|].
  intros H. destruct (H 1 (sub_batch two_pools 1 payload_a_b))
    as (pkg & Hin & _); [done|reflexivity|discriminate|].
  by apply elem_of_nil in Hin.
Qed.

(** C6, amended: the job of a classified payload hands no sub-batch to the
    transport, whether it is empty or not and whichever pool it belongs to;
    the only package the dispatcher sends is the reply to the client.  The
    packer of each pool holds exactly the entries that the router gives to
    that pool. *)
Theorem sub_batches_stay_local (siridb : siridb_t)
    (ss : list series_batch) (tail : list token) (qp_obj : qp_obj_t)
    (pid : Z) (client : nat) :
  Forall (series_ok siridb) ss ->
  map_end tail ->
  exists classified siridb' calls,
    siridb_insert_assign_pools siridb (map_payload ss tail) qp_obj
      = Some classified /\
    send_points_to_pools siridb (insert_job siridb pid client classified)
      = Some (siridb', calls) /\
    transmitted calls = [] /\
    (exists reply, sent_packages calls = [(client, reply)]) /\
    forall k, k < pools_size siridb ->
      classified.2 !! k = Some (sub_batch siridb k ss) /\
      forall s, s ∈ routed siridb k ss <-> pool_of siridb s = k /\ s ∈ ss.
Proof.
  intros Hok Ht.
  destruct (send_points_to_pools_shape siridb
    (insert_job siridb pid client
       (wrap_int32 (Z.of_nat (total_points ss)),
        (fun k => sub_batch siridb k ss) <$> seq 0 (pools_size siridb))))
    as (db1 & extra & Hrun & Hreg).
  eexists _, _, _. split; [by apply assign_pools_ok|].
  split; [exact Hrun|]. split; [|split].
  - unfold transmitted. rewrite omap_app. fold (transmitted extra).
    by rewrite transmitted_registry_calls.
  - eexists. unfold sent_packages. rewrite omap_app.
    rewrite omap_registry_calls; [reflexivity| |done]. by intros [].
  - intros k Hk. split; [|intros s; apply elem_of_routed].
    cbn [snd]. by rewrite list_lookup_fmap, lookup_seq_lt.
Qed.

Lemma sub_batches_stay_local_witness :
  exists classified siridb' calls,
    siridb_insert_assign_pools two_pools (map_payload payload_a_b []) None
      = Some classified /\
    send_points_to_pools two_pools (insert_job two_pools 7 1 classified)
      = Some (siridb', calls) /\
    transmitted calls = [] /\
    classified.2 !! 1 = Some (sub_batch two_pools 1 payload_a_b).
Proof.
  assert (Hok : Forall (series_ok two_pools) payload_a_b)
    by (repeat constructor; done).
  assert (Hend : map_end []) by (by left).
  destruct (sub_batches_stay_local two_pools payload_a_b [] None 7 1
              Hok Hend)
    as (classified & db & calls & Hcl & Hrun & Htr & _ & Hpk).
  exists classified, db, calls.
  split; [exact Hcl|]. split; [exact Hrun|]. split; [exact Htr|].
  apply (Hpk 1). simpl. lia.
Defined.

(** ** The classifier terminates *)

(** More fuel does not change a result. *)
Lemma assign_points_mono (fuel : nat) :
  forall fuel' siridb pool tp u qp_obj packer count r,
  assign_points fuel siridb pool tp u qp_obj packer count = Some r ->
  fuel <= fuel' ->
  assign_points fuel' siridb pool tp u qp_obj packer count = Some r.
Proof.
  induction fuel as [|fuel IH];
    intros fuel' siridb pool tp u qp_obj packer count r Hr Hle; [done|].
  destruct fuel' as [|fuel']; [lia|]. simpl in *.
  case_bool_decide; [|done].
  destruct (qp_next u) as [[tp1 o1] u1].
  case_bool_decide; [done|].
  destruct (negb (siridb_int64_valid_ts siridb (via_int64 o1))); [done|].
  destruct (qp_next u1) as [[tp2 o2] u2].
  destruct (qp_next u2) as [[tp3 o3] u3].
  destruct tp2; try done; (apply IH; [done|lia]).
Qed.

Lemma assign_series_mono (fuel : nat) :
  forall fuel' siridb tp u qp_obj packer count r,
  assign_series fuel siridb tp u qp_obj packer count = Some r ->
  fuel <= fuel' ->
  assign_series fuel' siridb tp u qp_obj packer count = Some r.
Proof.
  induction fuel as [|fuel IH];
    intros fuel' siridb tp u qp_obj packer count r Hr Hle; [done|].
  destruct fuel' as [|fuel']; [lia|]. simpl in *.
  case_bool_decide; [|done].
  destruct (qp_next u) as [[tp1 o1] u1].
  destruct (negb (qp_is_array tp1)); [done|].
  destruct (qp_next u1) as [[tp2 o2] u2].
  case_bool_decide; [done|].
  destruct (assign_points fuel _ _ _ _ _ _ _) as [[code pk|tp' u' o' pk c']|]
    eqn:Hp; [| |done].
  - by rewrite (assign_points_mono _ fuel' _ _ _ _ _ _ _ _ Hp) by lia.
  - rewrite (assign_points_mono _ fuel' _ _ _ _ _ _ _ _ Hp) by lia.
    destruct (if bool_decide (tp' = QP_ARRAY_CLOSE) then qp_next u'
              else (tp', o', u')) as [[tp5 o5] u5].
    apply IH; [done|lia].
Qed.

Lemma assign_points_total (fuel : nat) :
  forall siridb pool tp (u : qp_unpacker_t) qp_obj packer count,
  length u < fuel ->
  exists r,
    assign_points fuel siridb pool tp u qp_obj packer count = Some r /\
    match r with
    | Break _ u' _ _ _ => length u' <= length u
    | Return _ _ => True
    end.
Proof.
  induction fuel as [|fuel IH];
    intros siridb pool tp u qp_obj packer count Hf; [lia|].
  simpl. case_bool_decide; [|eexists; split; [done|simpl; lia]].
  pose proof (qp_next_length u) as [L1 L1'].
  destruct (qp_next u) as [[tp1 o1] u1]. simpl in L1, L1'.
  case_bool_decide as Hts; [by eexists|].
  destruct (negb (siridb_int64_valid_ts siridb (via_int64 o1)));
    [by eexists|].
  assert (length u1 < length u) by (apply L1'; by rewrite Hts).
  pose proof (qp_next_length u1) as [L2 _].
  destruct (qp_next u1) as [[tp2 o2] u2]. simpl in L2.
  pose proof (qp_next_length u2) as [L3 _].
  destruct (qp_next u2) as [[tp3 o3] u3]. simpl in L3.
  destruct tp2; try (by eexists);
    (edestruct (IH siridb pool tp3 u3) as (r & -> & Hr); [lia|];
     exists r; split; [done|]; destruct r; [done|lia]).
Qed.

Lemma assign_series_total (fuel : nat) :
  forall siridb tp (u : qp_unpacker_t) qp_obj packer count,
  length u < fuel ->
  exists r, assign_series fuel siridb tp u qp_obj packer count = Some r.
Proof.
  induction fuel as [|fuel IH];
    intros siridb tp u qp_obj packer count Hf; [lia|].
  simpl. case_bool_decide; [|case_match; by eexists].
  pose proof (qp_next_length u) as [L1 L1'].
  destruct (qp_next u) as [[tp1 o1] u1]. simpl in L1, L1'.
  destruct (qp_is_array tp1) eqn:Harr; simpl; [|by eexists].
  assert (length u1 < length u) by (apply L1'; by intros ->).
  pose proof (qp_next_length u1) as [L2 _].
  destruct (qp_next u1) as [[tp2 o2] u2]. simpl in L2.
  case_bool_decide; [by eexists|].
  match goal with
  | |- context [assign_points fuel siridb ?pool tp2 u2 ?o ?pk ?c] =>
      destruct (assign_points_total fuel siridb pool tp2 u2 o pk c)
        as (r & -> & Hr); [lia|]
  end.
  destruct r as [code pk|tp' u' o' pk c']; [by eexists|].
  assert (Hnx : length (if bool_decide (tp' = QP_ARRAY_CLOSE) then qp_next u'
                        else (tp', o', u')).2 <= length u').
  { case_bool_decide; [apply qp_next_length|done]. }
  destruct (if bool_decide (tp' = QP_ARRAY_CLOSE) then qp_next u'
            else (tp', o', u')) as [[tp5 o5] u5]. simpl in Hnx.
  apply IH. lia.
Qed.

(** The classifier returns on every input. *)
Lemma assign_pools_total siridb (unpacker : qp_unpacker_t) qp_obj :
  exists r, siridb_insert_assign_pools siridb unpacker qp_obj = Some r.
Proof.
  unfold siridb_insert_assign_pools, assign_by_map.
  destruct (qp_next unpacker) as [[tp o] u].
  destruct (qp_is_array tp); [by eexists|].
  destruct (qp_is_map tp); [|by eexists].
  destruct (qp_next u) as [[tp1 o1] u1].
  apply assign_series_total. lia.
Qed.

(** The result of [assign_by_map] is the result of its loop with any fuel
    that gives one. *)
Lemma assign_by_map_fuel siridb (s0 : qp_unpacker_t) packer qp_obj fuel r :
  assign_series fuel siridb (qp_next s0).1.1 (qp_next s0).2 (qp_next s0).1.2
    packer 0 = Some r ->
  assign_by_map siridb s0 packer qp_obj = Some r.
Proof.
  intros Hr. unfold assign_by_map.
  destruct (qp_next s0) as [[tp o] u]. cbn [fst snd] in Hr.
  destruct (assign_series_total (S (length u)) siridb tp u o packer 0%Z)
    as [r' Hr']; [lia|].
  rewrite Hr'. f_equal.
  pose proof (assign_series_mono _ (fuel + S (length u)) _ _ _ _ _ _ _ Hr
                ltac:(lia)) as H1.
  pose proof (assign_series_mono _ (fuel + S (length u)) _ _ _ _ _ _ _ Hr'
                ltac:(lia)) as H2.
  congruence.
Qed.

(** ** Accepted entries followed by anything *)

Lemma length_enc_series s :
  length (enc_series s)
  = 2 + 3 * length (points s) + (if closed s then 1 else 0).
Proof.
  unfold enc_series. simpl. rewrite length_app, length_enc_points.
  destruct (closed s); simpl; lia.
Qed.

Lemma wrap_int32_range (z : Z) : (- 2 ^ 31 <= wrap_int32 z < 2 ^ 31)%Z.
Proof.
  unfold wrap_int32.
  pose proof (Z.mod_pos_bound (z + 2 ^ 31) (2 ^ 32)) as Hb. lia.
Qed.

Lemma ends_points_cons s s' ss rest :
  ends_points (s :: s' :: ss) rest -> ends_points (s' :: ss) rest.
Proof. intros H x Hx. apply H. by rewrite last_cons_cons. Qed.

Lemma assign_series_prefix siridb (ss : list series_batch) :
  forall fuel rest packer count,
  Forall (series_ok siridb) ss ->
  ends_points ss rest ->
  length (enc_payload ss) <= fuel ->
  (- 2 ^ 31 <= count < 2 ^ 31)%Z ->
  assign_series (length ss + fuel) siridb
    (qp_next (enc_payload ss ++ rest)).1.1
    (qp_next (enc_payload ss ++ rest)).2
    (qp_next (enc_payload ss ++ rest)).1.2 packer count
  = assign_series fuel siridb
      (qp_next rest).1.1 (qp_next rest).2 (qp_next rest).1.2
      (write_payload siridb packer ss)
      (wrap_int32 (count + Z.of_nat (total_points ss))).
Proof.
  induction ss as [|s ss IH]; intros fuel rest packer count Hok He Hf Hc.
  - simpl. by rewrite Z.add_0_r, wrap_int32_small.
  - inversion Hok as [|? ? Hs Hok']; subst.
    assert (points s <> []) as Hne by apply Hs.
    assert (0 < length (points s)) by (destruct (points s); [done|simpl; lia]).
    cbn [enc_payload flat_map] in Hf. fold (enc_payload ss) in Hf.
    rewrite length_app, length_enc_series in Hf.
    cbn [length Nat.add enc_payload flat_map enc_series app qp_next tp_of
         fst snd].
    rewrite <- !app_assoc. fold (enc_payload ss).
    rewrite assign_series_step; [|done| |lia].
    2:{ intros Hc'. destruct ss as [|s' ss]; [by apply (He s)|by split]. }
    rewrite IH; [|done| |lia|apply wrap_int32_range].
    + rewrite wrap_int32_add_l, total_points_cons. do 2 f_equal. lia.
    + destruct ss as [|s' ss]; [by intros x Hx|by eapply ends_points_cons].
Qed.

(** ** Points and entries that are refused *)

Lemma assign_points_prefix siridb pool (pts : list point) :
  forall fuel rest o packer count,
  Forall (valid_point siridb) pts ->
  exists o' count',
    assign_points (length pts + fuel) siridb pool
      (qp_next (enc_points pts ++ rest)).1.1
      (qp_next (enc_points pts ++ rest)).2 o packer count
    = assign_points fuel siridb pool
        (qp_next rest).1.1 (qp_next rest).2 o'
        (qp_write packer pool (enc_points pts)) count'.
Proof.
  induction pts as [|p pts IH]; intros fuel rest o packer count Hv.
  - exists o, count. simpl. by rewrite qp_write_nil.
  - inversion Hv as [|? ? Hp Hv']; subst.
    cbn [length Nat.add enc_points flat_map enc_point app qp_next tp_of
         fst snd].
    fold (enc_points pts). rewrite assign_points_step by done.
    destruct (IH fuel rest (qp_next (enc_points pts ++ rest)).1.2
                (qp_write packer pool (enc_point p))
                (wrap_int32 (count + 1)) Hv') as (o' & count' & ->).
    exists o', count'. by rewrite qp_write_app.
Qed.

Lemma assign_points_bad siridb pool bad code fuel o packer count :
  bad_point siridb bad code ->
  exists packer',
    assign_points (S fuel) siridb pool QP_ARRAY2 bad o packer count
    = Some (Return code packer').
Proof.
  intros [rest Hr|ts rest Hv|ts rest Hv Hr]; simpl.
  - unfold peek in Hr. destruct (qp_next rest) as [[tp1 o1] u1].
    simpl in Hr. rewrite bool_decide_eq_true_2 by done. by eexists.
  - rewrite Hv. simpl. by eexists.
  - rewrite Hv. simpl. unfold peek in Hr.
    destruct (qp_next rest) as [[tp1 o1] u1]. simpl in Hr.
    destruct tp1; try discriminate Hr; by eexists.
Qed.

Lemma peek_enc_points_array2 pts bad :
  (qp_next (enc_points pts ++ T_ARRAY2 :: bad)).1.1 = QP_ARRAY2.
Proof. by destruct pts. Qed.

Ltac insert_err_range :=
  unfold is_insert_err, SIRIDB_INSERT_ERR_SIZE, ERR_EXPECTING_ARRAY,
    ERR_EXPECTING_SERIES_NAME, ERR_EXPECTING_MAP_OR_ARRAY,
    ERR_EXPECTING_INTEGER_TS, ERR_TIMESTAMP_OUT_OF_RANGE,
    ERR_UNSUPPORTED_VALUE, ERR_EXPECTING_AT_LEAST_ONE_POINT in *; lia.

Lemma is_insert_err_bad_point siridb bad code :
  bad_point siridb bad code -> is_insert_err code.
Proof. intros []; insert_err_range. Qed.

Lemma is_insert_err_bad_entry siridb bad code :
  bad_entry siridb bad code -> is_insert_err code.
Proof.
  intros [| | |? ? ? ? ? ? ? Hb]; try insert_err_range.
  by eapply is_insert_err_bad_point.
Qed.

Lemma assign_series_bad siridb bad code fuel packer count :
  bad_entry siridb bad code ->
  length bad <= fuel ->
  exists packer',
    assign_series (S fuel) siridb
      (qp_next bad).1.1 (qp_next bad).2 (qp_next bad).1.2 packer count
    = Some (code, packer').
Proof.
  intros [rest H1 H2 H3|n rest Harr|n h rest Harr Hp|n h pts bad' code' Harr Hv Hb]
    Hf.
  - unfold peek in *. destruct (qp_next rest) as [[tp o] u]. simpl in *.
    rewrite bool_decide_eq_false_2 by done.
    rewrite !bool_decide_eq_true_2 by done. by eexists.
  - simpl. unfold peek in Harr. destruct (qp_next rest) as [[tp o] u].
    simpl in Harr. rewrite Harr. by eexists.
  - simpl. rewrite Harr. simpl. unfold peek in Hp.
    destruct (qp_next rest) as [[tp o] u]. simpl in Hp.
    rewrite bool_decide_eq_true_2 by done. by eexists.
  - cbn [qp_next fst snd assign_series]. rewrite bool_decide_eq_true_2 by done.
    cbn [qp_next fst snd tp_of]. rewrite Harr. cbn [negb].
    pose proof (peek_enc_points_array2 pts bad') as Hpk.
    simpl in Hf. rewrite length_app, length_enc_points in Hf. simpl in Hf.
    replace fuel with (length pts + S (fuel - length pts - 1)) by lia.
    match goal with
    | |- context [assign_points _ siridb ?pool _ _ ?o ?pk ?c] =>
        destruct (assign_points_prefix siridb pool pts
                    (S (fuel - length pts - 1)) (T_ARRAY2 :: bad') o pk c Hv)
          as (o' & c' & Hpre)
    end.
    destruct (qp_next (enc_points pts ++ T_ARRAY2 :: bad')) as [[tp1 o1] u1].
    cbn [fst snd] in *. subst tp1.
    rewrite bool_decide_eq_false_2 by (intros H; by apply H).
    rewrite Hpre. cbn [qp_next fst snd tp_of].
    match goal with
    | |- context [assign_points (S ?f) siridb ?pool _ _ ?o ?pk ?c] =>
        destruct (assign_points_bad siridb pool bad' code' f o pk c Hb)
          as (pk' & ->)
    end.
    by eexists.
Qed.

(** A payload whose first entries are accepted and whose next entry is
    refused gets the code of that entry, whatever follows. *)
Lemma assign_pools_refused siridb (ss : list series_batch) bad code qp_obj :
  Forall (series_ok siridb) ss ->
  ends_points ss bad ->
  bad_entry siridb bad code ->
  exists packer',
    siridb_insert_assign_pools siridb (map_payload ss bad) qp_obj
    = Some (code, packer').
Proof.
  intros Hok He Hb. unfold siridb_insert_assign_pools, map_payload.
  cbn [qp_next tp_of fst snd qp_is_array qp_is_map].
  set (fuel := length (enc_payload ss) + length bad).
  destruct (assign_series_bad siridb bad code fuel
              (write_payload siridb (new_packers (pools_size siridb)) ss)
              (wrap_int32 (0 + Z.of_nat (total_points ss))) Hb ltac:(lia))
    as (pk' & Hbad).
  exists pk'. apply (assign_by_map_fuel _ _ _ _ (length ss + S fuel)).
  rewrite assign_series_prefix; [done|done|done|lia|lia].
Qed.

(** ** Every stream is accepted or refused at one place *)

Lemma peek_array2 (u : list token) :
  peek u = QP_ARRAY2 -> u = T_ARRAY2 :: (qp_next u).2.
Proof. destruct u as [|[] u]; simpl; by try discriminate. Qed.

Lemma peek_array_close (u : list token) :
  peek u = QP_ARRAY_CLOSE -> u = T_ARRAY_CLOSE :: (qp_next u).2.
Proof. destruct u as [|[] u]; simpl; by try discriminate. Qed.

Lemma peek_map_open (u : list token) :
  qp_is_map (peek u) = true -> u = T_MAP_OPEN :: (qp_next u).2.
Proof. destruct u as [|[] u]; simpl; by try discriminate. Qed.

(** After a point header comes a valid point or a point that is refused. *)
Lemma point_or_bad siridb (u : list token) :
  (exists code, bad_point siridb u code) \/
  (exists (p : point) rest,
     u = T_INT64 p.1 :: enc_value p.2 :: rest /\ valid_point siridb p).
Proof.
  destruct u as [|t1 u1].
  { left. eexists. by apply bad_point_ts. }
  destruct t1 as [s|ts|r| | | | | | | | |];
    try (left; eexists; by apply bad_point_ts).
  destruct (siridb_int64_valid_ts siridb ts) eqn:Hv;
    [|left; eexists; by apply bad_point_range].
  destruct u1 as [|t2 u2].
  { left. eexists. by apply bad_point_value. }
  destruct t2 as [s|i|r| | | | | | | | |];
    try (left; eexists; by apply bad_point_value).
  - right. by exists (ts, V_RAW s), u2.
  - right. by exists (ts, V_INT64 i), u2.
  - right. by exists (ts, V_DOUBLE r), u2.
Qed.

(** The loop over the points leaves either at a point that is refused, or
    after at least one valid point at a token that is not a point header. *)
Lemma assign_points_inv siridb pool (fuel : nat) :
  forall u o packer count r,
  assign_points fuel siridb pool QP_ARRAY2 u o packer count = Some r ->
  match r with
  | Return code _ =>
      exists pts bad,
        T_ARRAY2 :: u = enc_points pts ++ T_ARRAY2 :: bad /\
        Forall (valid_point siridb) pts /\ bad_point siridb bad code
  | Break tp' u' o' _ _ =>
      exists p pts rest,
        T_ARRAY2 :: u = enc_points (p :: pts) ++ rest /\
        Forall (valid_point siridb) (p :: pts) /\
        qp_next rest = (tp', o', u') /\ tp' <> QP_ARRAY2
  end.
Proof.
  induction fuel as [|fuel IH]; intros u o packer count r Hr; [done|].
  destruct (point_or_bad siridb u) as [[code Hb]|(p & rest & -> & Hp)].
  - destruct (assign_points_bad siridb pool u code fuel o packer count Hb)
      as (pk & Hbad).
    rewrite Hbad in Hr. injection Hr as <-.
    exists [], u. by repeat split.
  - rewrite assign_points_step in Hr by done.
    destruct (decide (peek rest = QP_ARRAY2)) as [Hpk|Hpk].
    + pose proof (peek_array2 rest Hpk) as Hrest.
      unfold peek in Hpk. rewrite Hpk in Hr.
      apply IH in Hr. rewrite <- Hrest in Hr.
      destruct r as [code pk|tp' u' o' pk c'].
      * destruct Hr as (pts & bad & -> & Hv & Hb).
        exists (p :: pts), bad. repeat split; [|done]. by constructor.
      * destruct Hr as (q & pts & rest' & -> & Hv & Hn & Htp).
        exists p, (q :: pts), rest'. repeat split; [|done|done].
        by constructor.
    + destruct fuel as [|fuel]; [done|]. simpl in Hr.
      unfold peek in Hpk. rewrite bool_decide_eq_false_2 in Hr by done.
      injection Hr as <-.
      exists p, [], rest. repeat split; [|by destruct (qp_next rest) as [[? ?] ?]|done].
      by repeat constructor.
Qed.

(** Where an entry is expected, the stream ends the map, is refused before
    any point is read, or begins an entry with a point header. *)
Lemma entry_cases siridb (s0 : list token) :
  map_end s0 \/
  (exists code, bad_entry siridb s0 code) \/
  (exists n h u,
     s0 = T_RAW n :: h :: T_ARRAY2 :: u /\ qp_is_array (tp_of h) = true).
Proof.
  destruct s0 as [|t1 u1]; [left; by left|].
  destruct t1 as [n|ts|r| | | | | | | | |];
    try (right; left; eexists; by apply bad_entry_name).
  2:{ left. right. by eexists. }
  destruct u1 as [|h u2].
  { right. left. eexists. by apply bad_entry_array. }
  destruct (qp_is_array (tp_of h)) eqn:Harr;
    [|right; left; eexists; by apply bad_entry_array].
  destruct (decide (peek u2 = QP_ARRAY2)) as [Hpk|Hpk].
  - right. right. exists n, h, (qp_next u2).2.
    split; [|done]. by rewrite <- peek_array2.
  - right. left. eexists. by apply bad_entry_empty.
Qed.

Lemma assign_series_inv siridb (fuel : nat) :
  forall (s0 : list token) packer count r,
  assign_series fuel siridb
    (qp_next s0).1.1 (qp_next s0).2 (qp_next s0).1.2 packer count = Some r ->
  exists ss rest,
    s0 = enc_payload ss ++ rest /\
    Forall (series_ok siridb) ss /\
    ends_points ss rest /\
    (map_end rest \/ exists code, bad_entry siridb rest code).
Proof.
  induction fuel as [|fuel IH]; intros s0 packer count r Hr; [done|].
  destruct (entry_cases siridb s0)
    as [He|[[code Hb]|(n & h & u & -> & Harr)]].
  - exists [], s0.
    split; [done|split; [done|split; [by intros x Hx|by left]]].
  - exists [], s0.
    split; [done|split; [done|split; [by intros x Hx|right; by exists code]]].
  - cbn [qp_next fst snd tp_of assign_series] in Hr.
    rewrite bool_decide_eq_true_2 in Hr by done.
    cbn [qp_next fst snd tp_of] in Hr. rewrite Harr in Hr. cbn [negb] in Hr.
    rewrite bool_decide_eq_false_2 in Hr by (intros H; by apply H).
    match type of Hr with
    | context [assign_points fuel siridb ?pool _ _ ?o ?pk ?c] =>
        destruct (assign_points fuel siridb pool QP_ARRAY2 u o pk c)
          as [[code pk'|tp' u' o' pk' c']|] eqn:Hp; [| |done]
    end.
    + apply assign_points_inv in Hp as (pts & bad & Hu & Hv & Hb).
      exists [], (T_RAW n :: h :: T_ARRAY2 :: u).
      split; [done|split; [done|split; [by intros x Hx|]]].
      right. exists code. rewrite Hu. by apply bad_entry_point.
    + apply assign_points_inv in Hp as (p & pts & rest1 & Hu & Hv & Hn & Htp).
      set (rest2 := if bool_decide (tp' = QP_ARRAY_CLOSE) then u' else rest1).
      assert (Hnx : (if bool_decide (tp' = QP_ARRAY_CLOSE) then qp_next u'
                     else (tp', o', u')) = qp_next rest2).
      { subst rest2. by case_bool_decide. }
      assert (Hrest1 : rest1 = (if bool_decide (tp' = QP_ARRAY_CLOSE)
                                then [T_ARRAY_CLOSE] else []) ++ rest2).
      { subst rest2. case_bool_decide as Hc; [|done].
        rewrite (peek_array_close rest1) by (unfold peek; by rewrite Hn).
        by rewrite Hn. }
      rewrite Hnx in Hr.
      assert (Hr2 : exists pk c,
                assign_series fuel siridb (qp_next rest2).1.1
                  (qp_next rest2).2 (qp_next rest2).1.2 pk c = Some r).
      { destruct (qp_next rest2) as [[tp5 o5] u5]. by eexists _, _. }
      destruct Hr2 as (pk2 & c2 & Hr2).
      apply IH in Hr2 as (ss & rest & Hss & Hok & He & Hend).
      set (s := {| name := n; points := p :: pts; header := h;
                   closed := bool_decide (tp' = QP_ARRAY_CLOSE) |}).
      exists (s :: ss), rest. split; [|split; [|split]].
      * rewrite Hu, Hrest1, Hss. subst s.
        cbn [enc_payload flat_map]. fold (enc_payload ss).
        unfold enc_series. cbn [name header points closed].
        rewrite <- !app_assoc. cbn [app]. by rewrite <- !app_assoc.
      * constructor; [|done]. repeat split; [done|done|done].
      * destruct ss as [|s' ss].
        -- intros x [= <-] Hc. cbn [closed s] in Hc.
           apply bool_decide_eq_false_1 in Hc.
           simpl in Hss. subst rest2.
           rewrite bool_decide_eq_false_2 in Hss by done. subst rest1.
           unfold peek. rewrite Hn. by split.
        -- intros x Hx. apply He. by rewrite last_cons_cons in Hx.
      * done.
Qed.

(** The three shapes of an input of the classifier. *)
Lemma assign_pools_cases siridb (input : list token) :
  qp_is_array (peek input) = true \/
  (qp_is_array (peek input) = false /\ qp_is_map (peek input) = false) \/
  exists ss rest,
    input = map_payload ss rest /\
    Forall (series_ok siridb) ss /\
    ends_points ss rest /\
    (map_end rest \/ exists code, bad_entry siridb rest code).
Proof.
  destruct (qp_is_array (peek input)) eqn:Harr; [by left|right].
  destruct (qp_is_map (peek input)) eqn:Hmap; [right|by left].
  pose proof (peek_map_open input Hmap) as Hin.
  set (s0 := (qp_next input).2) in *.
  destruct (assign_series_total (S (length (qp_next s0).2)) siridb
              (qp_next s0).1.1 (qp_next s0).2 (qp_next s0).1.2
              (new_packers (pools_size siridb)) 0%Z) as [r Hr]; [lia|].
  apply assign_series_inv in Hr as (ss & rest & Hss & Hok & He & Hend).
  exists ss, rest. split; [|done]. unfold map_payload. by rewrite <- Hss.
Qed.

(** ** The points in the packers *)

Lemma value_of_enc_value v : value_of (enc_value v) = Some v.
Proof. by destruct v. Qed.

Lemma packer_points_enc key (pts : list point) rest :
  packer_points key (enc_points pts ++ rest)
  = map (fun p => (key, p)) pts ++ packer_points key rest.
Proof.
  induction pts as [|[ts v] pts IH]; [done|].
  cbn [enc_points flat_map enc_point app packer_points fst snd map].
  rewrite value_of_enc_value. fold (enc_points pts). by rewrite IH.
Qed.

Lemma packer_points_entries (ls : list series_batch) :
  forall key,
  packer_points key (flat_map sub_entry ls) = flat_map keyed_points ls.
Proof.
  induction ls as [|s ls IH]; intros key; [done|].
  cbn [flat_map]. unfold sub_entry at 1. cbn [app packer_points].
  rewrite <- app_assoc, packer_points_enc. cbn [app packer_points].
  by rewrite IH.
Qed.

Lemma packer_points_sub_batch siridb k (ss : list series_batch) :
  packer_points EmptyString (sub_batch siridb k ss) = routed_points siridb k ss.
Proof. unfold sub_batch. cbn [packer_points]. apply packer_points_entries. Qed.

Lemma pool_of_lt siridb s :
  0 < pools_size siridb -> pool_of siridb s < pools_size siridb.
Proof.
  intros Hp. unfold pool_of, siridb_pool_sn_raw.
  apply Nat.mod_upper_bound. lia.
Qed.

Lemma sum_list_with_add {A} (f g : A -> nat) (l : list A) :
  sum_list_with (fun x => f x + g x) l
  = sum_list_with f l + sum_list_with g l.
Proof. induction l as [|x l IH]; simpl; lia. Qed.

Lemma sum_list_with_ext {A} (f g : A -> nat) (l : list A) :
  (forall x, f x = g x) -> sum_list_with f l = sum_list_with g l.
Proof. intros H. induction l as [|x l IH]; simpl; [done|]. by rewrite H, IH. Qed.

Lemma sum_list_with_indicator (j x : nat) (l : list nat) :
  NoDup l -> j ∈ l ->
  sum_list_with (fun k => if decide (j = k) then x else 0) l = x.
Proof.
  induction l as [|k l IH]; intros Hnd Hin; [by apply elem_of_nil in Hin|].
  apply NoDup_cons in Hnd as [Hk Hnd]. simpl.
  assert (Hzero : forall l' : list nat, j ∉ l' ->
            sum_list_with (fun k => if decide (j = k) then x else 0) l' = 0).
  { induction l' as [|k' l' IH']; intros Hj; [done|]. simpl.
    apply not_elem_of_cons in Hj as [Hne Hj].
    rewrite decide_False by done. by rewrite IH'. }
  apply elem_of_cons in Hin as [->|Hin].
  - rewrite decide_True by done. rewrite Hzero by done. lia.
  - rewrite decide_False by (intros ->; done). by rewrite IH.
Qed.

Lemma length_routed_points_cons siridb k s (ss : list series_batch) :
  length (routed_points siridb k (s :: ss))
  = (if decide (pool_of siridb s = k) then length (points s) else 0)
    + length (routed_points siridb k ss).
Proof.
  unfold routed_points, routed. case_decide.
  - rewrite filter_cons_True by done. cbn [flat_map].
    rewrite length_app. unfold keyed_points at 1. by rewrite length_map.
  - by rewrite filter_cons_False by done.
Qed.

(** Over all pools, the routed points are the points of the payload. *)
Lemma sum_routed_points siridb (ss : list series_batch) :
  0 < pools_size siridb ->
  sum_list_with (fun k => length (routed_points siridb k ss))
    (seq 0 (pools_size siridb))
  = total_points ss.
Proof.
  intros Hp. induction ss as [|s ss IH].
  - unfold routed_points, routed. simpl.
    induction (seq 0 (pools_size siridb)); simpl; [done|lia].
  - rewrite total_points_cons, <- IH.
    rewrite <- (sum_list_with_indicator (pool_of siridb s)
                  (length (points s)) (seq 0 (pools_size siridb)));
      [|apply NoDup_seq|].
    + rewrite <- sum_list_with_add. apply sum_list_with_ext.
      intros k. apply length_routed_points_cons.
    + apply elem_of_seq. pose proof (pool_of_lt siridb s Hp). lia.
Qed.

Lemma sum_list_with_fmap {A B} (f : B -> nat) (g : A -> B) (l : list A) :
  sum_list_with f (g <$> l) = sum_list_with (fun x => f (g x)) l.
Proof. induction l as [|x l IH]; simpl; [done|]. f_equal. apply IH. Qed.

Lemma total_points_bound (ss : list series_batch) :
  3 * total_points ss <= length (enc_payload ss).
Proof.
  induction ss as [|s ss IH]; [done|].
  rewrite total_points_cons. cbn [enc_payload flat_map].
  fold (enc_payload ss). rewrite length_app, length_enc_series. lia.
Qed.

(** A payload that fits the 32-bit body length of a package has a point
    count that fits an [int32_t]. *)
Lemma total_points_int32 (ss : list series_batch) tail :
  (Z.of_nat (length (map_payload ss tail)) <= UINT32_MAX)%Z ->
  wrap_int32 (Z.of_nat (total_points ss)) = Z.of_nat (total_points ss).
Proof.
  intros Hlen. apply wrap_int32_small.
  unfold map_payload in Hlen. simpl in Hlen. rewrite length_app in Hlen.
  pose proof (total_points_bound ss). unfold UINT32_MAX in Hlen. lia.
Qed.

(** ** The classifier on the three shapes of input *)

Lemma series_well_formed_ok siridb s :
  series_well_formed siridb s -> series_ok siridb s.
Proof.
  intros (Hne & Hv & [[Hh _]|[Hh _]]); repeat split; try done.
  - by rewrite Hh.
  - destruct (length (points s)) as [|[|[|[|[|[|n]]]]]]; simpl in Hh;
      try discriminate Hh; by injection Hh as <-.
Qed.

Lemma assign_pools_array siridb (input : list token) qp_obj :
  qp_is_array (peek input) = true ->
  siridb_insert_assign_pools siridb input qp_obj
  = Some (0%Z, new_packers (pools_size siridb)).
Proof.
  intros Harr. unfold siridb_insert_assign_pools. unfold peek in Harr.
  destruct (qp_next input) as [[tp o] u]. simpl in Harr. by rewrite Harr.
Qed.

Lemma assign_pools_neither siridb (input : list token) qp_obj :
  qp_is_array (peek input) = false ->
  qp_is_map (peek input) = false ->
  siridb_insert_assign_pools siridb input qp_obj
  = Some (ERR_EXPECTING_MAP_OR_ARRAY, new_packers (pools_size siridb)).
Proof.
  intros Harr Hmap. unfold siridb_insert_assign_pools. unfold peek in *.
  destruct (qp_next input) as [[tp o] u]. simpl in *. by rewrite Harr, Hmap.
Qed.

Lemma valid_ts_false siridb (ts : Z) :
  (ts < ts_min siridb \/ ts_max siridb < ts)%Z ->
  siridb_int64_valid_ts siridb ts = false.
Proof.
  intros H. unfold siridb_int64_valid_ts.
  apply andb_false_iff. destruct H; [left|right];
    apply bool_decide_eq_false_2; lia.
Qed.

Lemma valid_ts_true siridb (ts : Z) :
  (ts_min siridb <= ts <= ts_max siridb)%Z ->
  siridb_int64_valid_ts siridb ts = true.
Proof.
  intros H. unfold siridb_int64_valid_ts.
  apply andb_true_iff. split; apply bool_decide_eq_true_2; lia.
Qed.

Lemma value_tp_false tp :
  tp <> QP_INT64 -> tp <> QP_DOUBLE -> tp <> QP_RAW -> value_tp tp = false.
Proof. by destruct tp. Qed.

Lemma ends_points_raw ss n rest : ends_points ss (T_RAW n :: rest).
Proof. by intros s _ _. Qed.

(** The packers after a successful classification of a map. *)
Lemma classified_packers siridb (ss : list series_batch) k :
  k < pools_size siridb ->
  ((fun k => sub_batch siridb k ss) <$> seq 0 (pools_size siridb)) !! k
  = Some (sub_batch siridb k ss).
Proof. intros Hk. by rewrite list_lookup_fmap, lookup_seq_lt. Qed.

Lemma sum_classified_packers siridb (ss : list series_batch) :
  0 < pools_size siridb ->
  sum_list_with packer_count
    ((fun k => sub_batch siridb k ss) <$> seq 0 (pools_size siridb))
  = total_points ss.
Proof.
  intros Hp. rewrite sum_list_with_fmap. rewrite <- (sum_routed_points siridb ss Hp).
  apply sum_list_with_ext. intros k. unfold packer_count.
  by rewrite packer_points_sub_batch.
Qed.

(** ** Counts and routing *)

(** C1: for every map payload whose entries are accepted (an array header,
    at least one point, every time-stamp in the window; the well-formed
    payloads of the specification are of this kind) and that fits the
    32-bit body length of a package, the classifier returns a non-negative
    count equal to the number of points of the payload; the numbers of
    points written into the packers of the pools add up to this count; and
    the points in the packer of pool [k] are exactly the points of the
    entries that the router gives to pool [k], each entry being given to
    one pool. *)
Theorem classification_counts_points (siridb : siridb_t)
    (ss : list series_batch) (tail : list token) (qp_obj : qp_obj_t) :
  0 < pools_size siridb ->
  Forall (series_ok siridb) ss ->
  map_end tail ->
  (Z.of_nat (length (map_payload ss tail)) <= UINT32_MAX)%Z ->
  exists count packer,
    siridb_insert_assign_pools siridb (map_payload ss tail) qp_obj
      = Some (count, packer) /\
    (0 <= count)%Z /\
    count = Z.of_nat (total_points ss) /\
    length packer = pools_size siridb /\
    Z.of_nat (sum_list_with packer_count packer) = count /\
    (forall k, k < pools_size siridb ->
       packer !! k = Some (sub_batch siridb k ss) /\
       packer_points EmptyString (sub_batch siridb k ss)
       = routed_points siridb k ss) /\
    (forall s, s ∈ ss ->
       pool_of siridb s < pools_size siridb /\
       forall k, s ∈ routed siridb k ss <-> k = pool_of siridb s).
Proof.
  intros Hp Hok Ht Hlen.
  eexists _, _. split; [by apply assign_pools_ok|].
  rewrite (total_points_int32 ss tail Hlen).
  split; [lia|]. split; [done|]. split; [|split; [|split]].
  - by rewrite length_fmap, length_seq.
  - by rewrite sum_classified_packers.
  - intros k Hk.
    split; [by apply classified_packers|apply packer_points_sub_batch].
  - intros s Hs. split; [by apply pool_of_lt|].
    intros k. rewrite elem_of_routed. split; [by intros [<- _]|by intros ->].
Qed.

Lemma classification_counts_points_witness :
  exists packer,
    siridb_insert_assign_pools two_pools (map_payload payload_a_b []) None
      = Some (2%Z, packer) /\
    sum_list_with packer_count packer = 2.
Proof.
  assert (Hok : Forall (series_ok two_pools) payload_a_b).
  { repeat constructor; done. }
  destruct (classification_counts_points two_pools payload_a_b [] None)
    as (count & packer & Hrun & _ & Hcount & _ & Hsum & _).
  - simpl. lia.
  - exact Hok.
  - by left.
  - vm_compute. discriminate.
  - exists packer. subst count. split; [exact Hrun|].
    apply Nat2Z.inj. exact Hsum.
Defined.

(** ** A name that occurs twice *)

Lemma routed_app siridb k (l1 l2 : list series_batch) :
  routed siridb k (l1 ++ l2) = routed siridb k l1 ++ routed siridb k l2.
Proof. unfold routed. apply filter_app. Qed.

Lemma routed_cons_eq siridb s (ss : list series_batch) :
  routed siridb (pool_of siridb s) (s :: ss)
  = s :: routed siridb (pool_of siridb s) ss.
Proof. unfold routed. by rewrite filter_cons_True. Qed.

(** C8: when a name occurs twice in a payload, the payload is classified as
    any other: both entries are counted, and the packer of the pool of that
    name holds two separate map entries with the same key, the first with
    the points of the first occurrence and the second with the points of the
    second. *)
Theorem repeated_name_appended (siridb : siridb_t)
    (l1 l2 l3 : list series_batch) (s1 s2 : series_batch)
    (tail : list token) (qp_obj : qp_obj_t) :
  0 < pools_size siridb ->
  Forall (series_ok siridb) (l1 ++ s1 :: l2 ++ s2 :: l3) ->
  map_end tail ->
  name s1 = name s2 ->
  (Z.of_nat (length (map_payload (l1 ++ s1 :: l2 ++ s2 :: l3) tail))
   <= UINT32_MAX)%Z ->
  exists count packer b1 b2 b3,
    siridb_insert_assign_pools siridb
      (map_payload (l1 ++ s1 :: l2 ++ s2 :: l3) tail) qp_obj
      = Some (count, packer) /\
    count = Z.of_nat (total_points (l1 ++ s1 :: l2 ++ s2 :: l3)) /\
    packer !! pool_of siridb s1
      = Some (b1 ++
              (T_RAW (terminated (name s1)) :: T_ARRAY_OPEN ::
                 enc_points (points s1) ++ [T_ARRAY_CLOSE]) ++
              b2 ++
              (T_RAW (terminated (name s1)) :: T_ARRAY_OPEN ::
                 enc_points (points s2) ++ [T_ARRAY_CLOSE]) ++
              b3).
Proof.
  intros Hp Hok Ht Hname Hlen.
  assert (Hpool : pool_of siridb s2 = pool_of siridb s1)
    by (unfold pool_of; by rewrite Hname).
  set (k := pool_of siridb s1) in *.
  exists (Z.of_nat (total_points (l1 ++ s1 :: l2 ++ s2 :: l3))),
    ((fun k => sub_batch siridb k (l1 ++ s1 :: l2 ++ s2 :: l3))
       <$> seq 0 (pools_size siridb)),
    (T_MAP_OPEN :: flat_map sub_entry (routed siridb k l1)),
    (flat_map sub_entry (routed siridb k l2)),
    (flat_map sub_entry (routed siridb k l3)).
  split; [|split; [done|]].
  - rewrite <- (total_points_int32 _ tail Hlen). by apply assign_pools_ok.
  - rewrite classified_packers by (by apply pool_of_lt).
    f_equal. unfold sub_batch.
    rewrite routed_app. subst k. rewrite routed_cons_eq, routed_app.
    rewrite <- Hpool at 3. rewrite routed_cons_eq, Hpool.
    rewrite flat_map_app. cbn [flat_map]. rewrite flat_map_app.
    cbn [flat_map]. unfold sub_entry at 2 4. rewrite Hname.
    cbn [app]. by rewrite <- !app_assoc.
Qed.

Lemma repeated_name_appended_witness :
  exists packer,
    siridb_insert_assign_pools two_pools
      (map_payload [open_series "b" [(1%Z, V_INT64 5)];
                    open_series "b" [(2%Z, V_INT64 6)]] []) None
    = Some (2%Z, packer) /\
    packer !! 1
    = Some [T_MAP_OPEN;
            T_RAW (terminated "b"); T_ARRAY_OPEN;
            T_ARRAY2; T_INT64 1; T_INT64 5; T_ARRAY_CLOSE;
            T_RAW (terminated "b"); T_ARRAY_OPEN;
            T_ARRAY2; T_INT64 2; T_INT64 6; T_ARRAY_CLOSE].
Proof.
  destruct (repeated_name_appended two_pools [] [] []
              (open_series "b" [(1%Z, V_INT64 5)])
              (open_series "b" [(2%Z, V_INT64 6)]) [] None)
    as (count & packer & b1 & b2 & b3 & Hrun & Hcount & Hpk).
  - simpl. lia.
  - repeat constructor; done.
  - by left.
  - reflexivity.
  - vm_compute. discriminate.
  - exists packer. subst count. split; [exact Hrun|].
    clear Hpk. vm_compute in Hrun. injection Hrun as <-. reflexivity.
Defined.

(** ** The errors of an entry *)

(** C3: in a map payload, after any number of accepted entries, an entry
    whose array does not begin with an [ARRAY2] point header fails the batch
    with [ERR_EXPECTING_AT_LEAST_ONE_POINT]; and within a point, after any
    number of valid points of that entry, a first element that is not an
    [INT64] fails it with [ERR_EXPECTING_INTEGER_TS], a time-stamp outside
    the window [ts_min, ts_max] with [ERR_TIMESTAMP_OUT_OF_RANGE], and a
    value that is not an [INT64], a [DOUBLE] or a [RAW] with
    [ERR_UNSUPPORTED_VALUE]; in each case whatever follows in the stream. *)
Theorem classification_entry_errors (siridb : siridb_t)
    (ss : list series_batch) (n : string) (h : token) (pts : list point)
    (rest : list token) (qp_obj : qp_obj_t) :
  Forall (series_ok siridb) ss ->
  qp_is_array (tp_of h) = true ->
  Forall (valid_point siridb) pts ->
  (peek rest <> QP_ARRAY2 ->
     returns siridb (map_payload ss (T_RAW n :: h :: rest)) qp_obj
       ERR_EXPECTING_AT_LEAST_ONE_POINT) /\
  (peek rest <> QP_INT64 ->
     returns siridb
       (map_payload ss (T_RAW n :: h :: enc_points pts ++ T_ARRAY2 :: rest))
       qp_obj ERR_EXPECTING_INTEGER_TS) /\
  (forall ts : Z,
     (ts < ts_min siridb \/ ts_max siridb < ts)%Z ->
     returns siridb
       (map_payload ss
          (T_RAW n :: h :: enc_points pts ++ T_ARRAY2 :: T_INT64 ts :: rest))
       qp_obj ERR_TIMESTAMP_OUT_OF_RANGE) /\
  (forall ts : Z,
     (ts_min siridb <= ts <= ts_max siridb)%Z ->
     peek rest <> QP_INT64 -> peek rest <> QP_DOUBLE -> peek rest <> QP_RAW ->
     returns siridb
       (map_payload ss
          (T_RAW n :: h :: enc_points pts ++ T_ARRAY2 :: T_INT64 ts :: rest))
       qp_obj ERR_UNSUPPORTED_VALUE).
Proof.
  intros Hok Harr Hv. repeat split.
  - intros Hr. apply assign_pools_refused; [done|apply ends_points_raw|].
    by apply bad_entry_empty.
  - intros Hr. apply assign_pools_refused; [done|apply ends_points_raw|].
    apply bad_entry_point; [done|done|]. by apply bad_point_ts.
  - intros ts Hts. apply assign_pools_refused; [done|apply ends_points_raw|].
    apply bad_entry_point; [done|done|].
    apply bad_point_range. by apply valid_ts_false.
  - intros ts Hts H1 H2 H3.
    apply assign_pools_refused; [done|apply ends_points_raw|].
    apply bad_entry_point; [done|done|].
    apply bad_point_value; [by apply valid_ts_true|by apply value_tp_false].
Qed.

(** The scenarios of the specification: an empty series, a time-stamp below
    the window, a point without a value and a point that starts with a
    string. *)
Lemma classification_entry_errors_witness :
  returns two_pools [T_MAP_OPEN; T_RAW "x"; T_ARRAY_OPEN; T_ARRAY_CLOSE]
    None ERR_EXPECTING_AT_LEAST_ONE_POINT /\
  returns two_pools
    [T_MAP_OPEN; T_RAW "x"; T_ARRAY_OPEN; T_ARRAY2; T_INT64 (-5); T_INT64 1;
     T_ARRAY_CLOSE] None ERR_TIMESTAMP_OUT_OF_RANGE /\
  returns two_pools
    [T_MAP_OPEN; T_RAW "x"; T_ARRAY_OPEN; T_ARRAY2; T_INT64 1000;
     T_ARRAY_CLOSE] None ERR_UNSUPPORTED_VALUE /\
  returns two_pools
    [T_MAP_OPEN; T_RAW "x"; T_ARRAY_OPEN; T_ARRAY2; T_RAW "1000"; T_INT64 1]
    None ERR_EXPECTING_INTEGER_TS.
Proof.
  assert (Hh : qp_is_array (tp_of T_ARRAY_OPEN) = true) by reflexivity.
  assert (Hss : Forall (series_ok two_pools) []) by constructor.
  assert (Hpts : Forall (valid_point two_pools) []) by constructor.
  split; [|split; [|split]].
  - apply (proj1 (classification_entry_errors two_pools [] "x" T_ARRAY_OPEN
                    [] [T_ARRAY_CLOSE] None Hss Hh Hpts)).
    discriminate.
  - apply (proj1 (proj2 (proj2 (classification_entry_errors two_pools [] "x"
             T_ARRAY_OPEN [] [T_INT64 1; T_ARRAY_CLOSE] None
             Hss Hh Hpts)))).
    simpl. lia.
  - apply (proj2 (proj2 (proj2 (classification_entry_errors two_pools [] "x"
             T_ARRAY_OPEN [] [T_ARRAY_CLOSE] None
             Hss Hh Hpts)))); [simpl; lia|..];
      discriminate.
  - apply (proj1 (proj2 (classification_entry_errors two_pools [] "x"
             T_ARRAY_OPEN [] [T_RAW "1000"; T_INT64 1] None
             Hss Hh Hpts))).
    discriminate.
Defined.

(** ** The result of the classifier *)

(** C4: on every input (that fits the 32-bit body length of a package) the
    classifier returns, and its result is one of four: 0 with every packer
    left at its opening [MAP_OPEN] when the top-level value is an array;
    [ERR_EXPECTING_MAP_OR_ARRAY] when it is neither a map nor an array; the
    number of points when the input is a map of accepted entries up to the
    end of the map or of the stream; and otherwise the error code of the
    first place, from left to right, where the stream is not taken: the
    entries before it are accepted and the tokens after it are arbitrary.
    In particular a token after the points of an entry that is neither a
    series name nor the end of the map or stream gives
    [ERR_EXPECTING_SERIES_NAME]. *)
Theorem classification_result (siridb : siridb_t) (input : list token)
    (qp_obj : qp_obj_t) :
  (Z.of_nat (length input) <= UINT32_MAX)%Z ->
  (exists r packer,
     siridb_insert_assign_pools siridb input qp_obj = Some (r, packer) /\
     ((qp_is_array (peek input) = true /\ r = 0%Z /\
       packer = replicate (pools_size siridb) [T_MAP_OPEN]) \/
      (qp_is_array (peek input) = false /\ qp_is_map (peek input) = false /\
       r = ERR_EXPECTING_MAP_OR_ARRAY) \/
      (exists ss tail,
         input = map_payload ss tail /\
         Forall (series_ok siridb) ss /\ map_end tail /\
         r = Z.of_nat (total_points ss) /\ (0 <= r)%Z) \/
      (exists ss bad,
         input = map_payload ss bad /\
         Forall (series_ok siridb) ss /\ ends_points ss bad /\
         bad_entry siridb bad r /\ is_insert_err r))) /\
  (qp_is_array (peek input) = true ->
     siridb_insert_assign_pools siridb input qp_obj
     = Some (0%Z, replicate (pools_size siridb) [T_MAP_OPEN])) /\
  (qp_is_array (peek input) = false -> qp_is_map (peek input) = false ->
     returns siridb input qp_obj ERR_EXPECTING_MAP_OR_ARRAY) /\
  (forall ss rest,
     input = map_payload ss rest ->
     Forall (series_ok siridb) ss ->
     ends_points ss rest ->
     peek rest <> QP_RAW -> peek rest <> QP_END -> peek rest <> QP_MAP_CLOSE ->
     returns siridb input qp_obj ERR_EXPECTING_SERIES_NAME).
Proof.
  intros Hlen. split.
  - destruct (assign_pools_cases siridb input)
      as [Harr|[[Harr Hmap]|(ss & rest & -> & Hok & He & [Ht|[code Hb]])]].
    + eexists _, _. split; [by apply assign_pools_array|]. left. by repeat split.
    + eexists _, _. split; [by apply assign_pools_neither|]. right. left.
      by repeat split.
    + eexists _, _. split; [by apply assign_pools_ok|]. right. right. left.
      exists ss, rest. rewrite (total_points_int32 ss rest Hlen).
      repeat split; try done. lia.
    + destruct (assign_pools_refused siridb ss rest code qp_obj Hok He Hb)
        as (pk & Hrun).
      eexists _, _. split; [exact Hrun|]. right. right. right.
      exists ss, rest. split; [done|]. split; [done|]. split; [done|].
      split; [done|]. by eapply is_insert_err_bad_entry.
  - split; [by apply assign_pools_array|]. split.
    + intros Harr Hmap. eexists. by apply assign_pools_neither.
    + intros ss rest -> Hok He H1 H2 H3.
      apply assign_pools_refused; [done|done|]. by apply bad_entry_name.
Qed.

Lemma classification_result_witness :
  returns two_pools [T_ARRAY_OPEN; T_INT64 1; T_ARRAY_CLOSE] None 0 /\
  returns two_pools [T_INT64 1] None ERR_EXPECTING_MAP_OR_ARRAY /\
  returns two_pools (map_payload payload_a_b [T_INT64 1]) None
    ERR_EXPECTING_SERIES_NAME.
Proof.
  split; [|split].
  - destruct (proj1 (classification_result two_pools
                       [T_ARRAY_OPEN; T_INT64 1; T_ARRAY_CLOSE] None
                       ltac:(vm_compute; discriminate)))
      as (r & pk & Hrun & Hcases).
    exists pk. rewrite Hrun. vm_compute in Hrun. by injection Hrun as <- <-.
  - destruct (proj1 (classification_result two_pools [T_INT64 1] None
                       ltac:(vm_compute; discriminate)))
      as (r & pk & Hrun & Hcases).
    exists pk. rewrite Hrun. vm_compute in Hrun. by injection Hrun as <- <-.
  - apply (proj2 (proj2 (proj2 (classification_result two_pools
                    (map_payload payload_a_b [T_INT64 1]) None
                    ltac:(vm_compute; discriminate)))) payload_a_b
             [T_INT64 1]);
      try done.
    repeat constructor; done.
Defined.

(** ** Order *)

Lemma elem_of_routed_split siridb s (ss : list series_batch) :
  s ∈ ss ->
  exists l1 l2,
    routed siridb (pool_of siridb s) ss = l1 ++ s :: l2.
Proof.
  intros Hs. apply list_elem_of_split. by apply elem_of_routed.
Qed.

(** C2: every input on which the classifier returns a count is either a
    top-level array, for which nothing is written, or a map of accepted
    entries; and for every entry of that map the packer of the pool of its
    name holds a map entry for it whose points are the points of the entry,
    element for element and in the same order.  Moreover the points in the
    packer of each pool are those of the entries routed to it, in the order
    of the payload. *)
Theorem classification_preserves_order (siridb : siridb_t)
    (input : list token) (qp_obj : qp_obj_t) (count : Z)
    (packer : list qp_packer_t) :
  0 < pools_size siridb ->
  siridb_insert_assign_pools siridb input qp_obj = Some (count, packer) ->
  (0 <= count)%Z ->
  qp_is_array (peek input) = true \/
  exists ss tail,
    input = map_payload ss tail /\
    Forall (series_ok siridb) ss /\ map_end tail /\
    (forall s, s ∈ ss ->
       exists before after,
         packer !! pool_of siridb s
         = Some (before ++
                 (T_RAW (terminated (name s)) :: T_ARRAY_OPEN ::
                    enc_points (points s) ++ [T_ARRAY_CLOSE]) ++
                 after)) /\
    (forall k, k < pools_size siridb ->
       packer !! k = Some (sub_batch siridb k ss) /\
       packer_points EmptyString (sub_batch siridb k ss)
       = routed_points siridb k ss).
Proof.
  intros Hp Hrun Hcount.
  destruct (assign_pools_cases siridb input)
    as [Harr|[[Harr Hmap]|(ss & rest & -> & Hok & He & [Ht|[code Hb]])]].
  - by left.
  - rewrite assign_pools_neither in Hrun by done.
    injection Hrun as <- _. unfold ERR_EXPECTING_MAP_OR_ARRAY in Hcount. lia.
  - right. exists ss, rest. rewrite assign_pools_ok in Hrun by done.
    injection Hrun as _ <-. split; [done|]. split; [done|]. split; [done|].
    split.
    + intros s Hs.
      destruct (elem_of_routed_split siridb s ss Hs) as (l1 & l2 & Hl).
      exists (T_MAP_OPEN :: flat_map sub_entry l1), (flat_map sub_entry l2).
      rewrite classified_packers by (by apply pool_of_lt).
      f_equal. unfold sub_batch. rewrite Hl, flat_map_app. reflexivity.
    + intros k Hk.
      split; [by apply classified_packers|apply packer_points_sub_batch].
  - destruct (assign_pools_refused siridb ss rest code qp_obj Hok He Hb)
      as (pk & Hrun').
    rewrite Hrun' in Hrun. injection Hrun as <- _.
    apply is_insert_err_bad_entry in Hb. unfold is_insert_err in Hb. lia.
Qed.

Lemma classification_preserves_order_witness :
  siridb_insert_assign_pools two_pools (map_payload payload_a_b []) None
    = Some (2%Z, packers_a_b) /\
  (qp_is_array (peek (map_payload payload_a_b [])) = true \/
   exists ss tail,
     map_payload payload_a_b [] = map_payload ss tail /\
     Forall (series_ok two_pools) ss /\ map_end tail /\
     (forall s, s ∈ ss ->
        exists before after,
          packers_a_b !! pool_of two_pools s
          = Some (before ++
                  (T_RAW (terminated (name s)) :: T_ARRAY_OPEN ::
                     enc_points (points s) ++ [T_ARRAY_CLOSE]) ++
                  after)) /\
     (forall k, k < pools_size two_pools ->
        packers_a_b !! k = Some (sub_batch two_pools k ss) /\
        packer_points EmptyString (sub_batch two_pools k ss)
        = routed_points two_pools k ss)).
Proof.
  assert (Hrun : siridb_insert_assign_pools two_pools
                   (map_payload payload_a_b []) None
                 = Some (2%Z, packers_a_b)) by (vm_compute; reflexivity).
  split; [exact Hrun|].
  apply (classification_preserves_order two_pools
           (map_payload payload_a_b []) None 2 packers_a_b);
    [simpl; lia|exact Hrun|lia].
Defined.

(** * Further properties *)

(** ** A name without an array *)

(** In a map payload, after any number of accepted entries, a series name
    that is not followed by an array header fails the batch with
    [ERR_EXPECTING_ARRAY], whatever follows; the end of the stream after the
    name counts as such. *)
Theorem name_without_array (siridb : siridb_t) (ss : list series_batch)
    (n : string) (rest : list token) (qp_obj : qp_obj_t) :
  Forall (series_ok siridb) ss ->
  qp_is_array (peek rest) = false ->
  returns siridb (map_payload ss (T_RAW n :: rest)) qp_obj
    ERR_EXPECTING_ARRAY.
Proof.
  intros Hok Harr. apply assign_pools_refused; [done|apply ends_points_raw|].
  by apply bad_entry_array.
Qed.

Lemma name_without_array_witness :
  returns two_pools (map_payload payload_a_b [T_RAW "x"; T_INT64 5]) None
    ERR_EXPECTING_ARRAY /\
  returns two_pools [T_MAP_OPEN; T_RAW "x"] None ERR_EXPECTING_ARRAY.
Proof.
  split.
  - apply (name_without_array two_pools payload_a_b "x" [T_INT64 5] None);
      [repeat constructor; done|reflexivity].
  - apply (name_without_array two_pools [] "x" [] None);
      [constructor|reflexivity].
Defined.

(** ** The array form of an entry does not matter *)

Lemma same_series_pool siridb s s' :
  same_series s s' -> pool_of siridb s = pool_of siridb s'.
Proof. intros [Hn _]. unfold pool_of. by rewrite Hn. Qed.

Lemma same_series_sub_entry s s' :
  same_series s s' -> sub_entry s = sub_entry s'.
Proof. intros [Hn Hp]. unfold sub_entry. by rewrite Hn, Hp. Qed.

Lemma same_series_sub_batch siridb k (ss ss' : list series_batch) :
  Forall2 same_series ss ss' ->
  sub_batch siridb k ss = sub_batch siridb k ss'.
Proof.
  intros H. unfold sub_batch, routed. f_equal.
  induction H as [|s s' ss ss' Hs Hss IH]; [done|].
  pose proof (same_series_pool siridb s s' Hs) as Hpool.
  destruct (decide (pool_of siridb s = k)) as [Hk|Hk].
  - rewrite (filter_cons_True _ s) by done.
    rewrite (filter_cons_True _ s') by (by rewrite <- Hpool).
    cbn [flat_map]. by rewrite IH, (same_series_sub_entry s s').
  - rewrite (filter_cons_False _ s) by done.
    by rewrite (filter_cons_False _ s') by (by rewrite <- Hpool).
Qed.

Lemma same_series_total_points (ss ss' : list series_batch) :
  Forall2 same_series ss ss' -> total_points ss = total_points ss'.
Proof.
  intros H. induction H as [|s s' ss ss' [_ Hp] Hss IH]; [done|].
  by rewrite !total_points_cons, IH, Hp.
Qed.

(** The result and the packers of the classifier depend only on the names
    and the points of the entries of a map: not on the array header of an
    entry (an open array or a fixed-arity header of any arity), not on the
    presence of an [ARRAY_CLOSE], not on how the map ends or on what follows
    its close, and not on the content of the caller's slot. *)
Theorem classification_ignores_array_form (siridb : siridb_t)
    (ss ss' : list series_batch) (tail tail' : list token)
    (qp_obj qp_obj' : qp_obj_t) :
  Forall2 same_series ss ss' ->
  Forall (series_ok siridb) ss ->
  Forall (series_ok siridb) ss' ->
  map_end tail ->
  map_end tail' ->
  siridb_insert_assign_pools siridb (map_payload ss tail) qp_obj
  = siridb_insert_assign_pools siridb (map_payload ss' tail') qp_obj'.
Proof.
  intros Hsame Hok Hok' Ht Ht'.
  rewrite !assign_pools_ok by done.
  rewrite (same_series_total_points ss ss' Hsame). do 2 f_equal.
  apply list_fmap_ext. intros _ k _. by apply same_series_sub_batch.
Qed.

(** An entry with one point under an [ARRAY5] header and without a close,
    against the same entry as an open array in a closed map with trailing
    tokens. *)
Lemma classification_ignores_array_form_witness :
  siridb_insert_assign_pools two_pools
    [T_MAP_OPEN; T_RAW "a"; T_ARRAY5; T_ARRAY2; T_INT64 1000; T_INT64 1]
    None
  = siridb_insert_assign_pools two_pools
      [T_MAP_OPEN; T_RAW "a"; T_ARRAY_OPEN; T_ARRAY2; T_INT64 1000;
       T_INT64 1; T_ARRAY_CLOSE; T_MAP_CLOSE; T_INT64 7]
      (Some T_ARRAY1).
Proof.
  apply (classification_ignores_array_form two_pools
           [{| name := "a"; points := [(1000%Z, V_INT64 1)];
               header := T_ARRAY5; closed := false |}]
           [open_series "a" [(1000%Z, V_INT64 1)]]
           [] [T_MAP_CLOSE; T_INT64 7] None (Some T_ARRAY1)).
  - repeat constructor.
  - repeat constructor; done.
  - repeat constructor; done.
  - by left.
  - right. by eexists.
Defined.

(** ** A sub-batch is a payload *)

Lemma sub_batch_as_payload siridb k (ss : list series_batch) :
  sub_batch siridb k ss
  = map_payload (as_received <$> routed siridb k ss) [].
Proof.
  unfold sub_batch, map_payload. rewrite app_nil_r. f_equal.
  induction (routed siridb k ss) as [|s l IH]; [done|].
  cbn [fmap list_fmap enc_payload flat_map]. by rewrite IH.
Qed.

Lemma total_points_as_received (l : list series_batch) :
  total_points (as_received <$> l) = total_points l.
Proof.
  induction l as [|s l IH]; [done|].
  cbn [fmap list_fmap]. by rewrite !total_points_cons, <- IH.
Qed.

Lemma length_routed_points siridb k (ss : list series_batch) :
  length (routed_points siridb k ss) = total_points (routed siridb k ss).
Proof.
  unfold routed_points. induction (routed siridb k ss) as [|s l IH]; [done|].
  cbn [flat_map]. rewrite length_app, total_points_cons, IH.
  unfold keyed_points. by rewrite length_map.
Qed.

(** The sub-batch that the classifier writes for a pool is itself a map
    payload that the classifier takes: on a server with the same time-stamp
    window it returns the number of points routed to that pool, as an
    [int32_t]. *)
Theorem sub_batch_classifies (siridb peer : siridb_t)
    (ss : list series_batch) (k : nat) (qp_obj : qp_obj_t) :
  Forall (series_ok siridb) ss ->
  ts_min peer = ts_min siridb ->
  ts_max peer = ts_max siridb ->
  returns peer (sub_batch siridb k ss) qp_obj
    (wrap_int32 (Z.of_nat (length (routed_points siridb k ss)))).
Proof.
  intros Hok Hmin Hmax. rewrite sub_batch_as_payload, length_routed_points.
  rewrite <- total_points_as_received. eexists. apply assign_pools_ok.
  - apply Forall_fmap, Forall_forall. intros s Hs.
    apply elem_of_routed in Hs as [_ Hs].
    rewrite Forall_forall in Hok. destruct (Hok s Hs) as (_ & Hne & Hv).
    repeat split; [done|].
    cbn [points as_received open_series].
    eapply Forall_impl; [exact Hv|].
    intros p Hp. unfold siridb_int64_valid_ts in *. by rewrite Hmin, Hmax.
  - by left.
Qed.

Lemma sub_batch_classifies_witness :
  returns two_pools (sub_batch two_pools 1 payload_a_b) None 1.
Proof.
  apply (sub_batch_classifies two_pools two_pools payload_a_b 1 None);
    [repeat constructor; done|reflexivity|reflexivity].
Defined.

(** ** The packers of a refused payload *)

Lemma assign_points_bad_packer siridb pool bad code fuel o packer count :
  bad_point siridb bad code ->
  exists partial,
    assign_points (S fuel) siridb pool QP_ARRAY2 bad o packer count
    = Some (Return code (qp_write packer pool partial)).
Proof.
  intros [rest Hr|ts rest Hv|ts rest Hv Hr]; simpl.
  - unfold peek in Hr. destruct (qp_next rest) as [[tp1 o1] u1].
    simpl in Hr. rewrite bool_decide_eq_true_2 by done.
    eexists. fold_write. reflexivity.
  - rewrite Hv. simpl. eexists. fold_write. reflexivity.
  - rewrite Hv. simpl. unfold peek in Hr.
    destruct (qp_next rest) as [[tp1 o1] u1]. simpl in Hr.
    destruct tp1; try discriminate Hr;
      (eexists; fold_write; rewrite qp_write_app; reflexivity).
Qed.

Lemma assign_series_bad_packer siridb bad code fuel packer count :
  bad_entry siridb bad code ->
  length bad <= fuel ->
  exists pool partial,
    assign_series (S fuel) siridb
      (qp_next bad).1.1 (qp_next bad).2 (qp_next bad).1.2 packer count
    = Some (code, qp_write packer pool partial).
Proof.
  intros [rest H1 H2 H3|n rest Harr|n h rest Harr Hp|n h pts bad' code' Harr Hv Hb]
    Hf.
  - unfold peek in *. destruct (qp_next rest) as [[tp o] u]. simpl in *.
    rewrite bool_decide_eq_false_2 by done.
    rewrite !bool_decide_eq_true_2 by done.
    exists 0, []. by rewrite qp_write_nil.
  - simpl. unfold peek in Harr. destruct (qp_next rest) as [[tp o] u].
    simpl in Harr. rewrite Harr. simpl.
    eexists _, _. fold_write. reflexivity.
  - simpl. rewrite Harr. simpl. unfold peek in Hp.
    destruct (qp_next rest) as [[tp o] u]. simpl in Hp.
    rewrite bool_decide_eq_true_2 by done.
    eexists _, _. fold_write. rewrite qp_write_app. reflexivity.
  - cbn [qp_next fst snd assign_series]. rewrite bool_decide_eq_true_2 by done.
    cbn [qp_next fst snd tp_of]. rewrite Harr. cbn [negb].
    pose proof (peek_enc_points_array2 pts bad') as Hpk.
    simpl in Hf. rewrite length_app, length_enc_points in Hf. simpl in Hf.
    replace fuel with (length pts + S (fuel - length pts - 1)) by lia.
    fold_write. rewrite qp_write_app.
    match goal with
    | |- context [assign_points _ siridb ?pool _ _ ?o ?pk ?c] =>
        destruct (assign_points_prefix siridb pool pts
                    (S (fuel - length pts - 1)) (T_ARRAY2 :: bad') o pk c Hv)
          as (o' & c' & Hpre)
    end.
    destruct (qp_next (enc_points pts ++ T_ARRAY2 :: bad')) as [[tp1 o1] u1].
    cbn [fst snd] in *. subst tp1.
    rewrite bool_decide_eq_false_2 by (intros H; by apply H).
    rewrite Hpre. cbn [qp_next fst snd tp_of].
    match goal with
    | |- context [assign_points (S ?f) siridb ?pool _ _ ?o ?pk ?c] =>
        destruct (assign_points_bad_packer siridb pool bad' code' f o pk c Hb)
          as (partial & ->)
    end.
    rewrite !qp_write_app. by eexists _, _.
Qed.

Lemma assign_pools_refused_run (siridb : siridb_t)
    (ss : list series_batch) (bad : list token) (code : Z)
    (qp_obj : qp_obj_t) :
  Forall (series_ok siridb) ss ->
  ends_points ss bad ->
  bad_entry siridb bad code ->
  exists pool partial,
    siridb_insert_assign_pools siridb (map_payload ss bad) qp_obj
    = Some (code,
            qp_write ((fun k => sub_batch siridb k ss)
                        <$> seq 0 (pools_size siridb)) pool partial).
Proof.
  intros Hok He Hb.
  set (fuel := length (enc_payload ss) + length bad).
  destruct (assign_series_bad_packer siridb bad code fuel
              (write_payload siridb (new_packers (pools_size siridb)) ss)
              (wrap_int32 (0 + Z.of_nat (total_points ss))) Hb ltac:(lia))
    as (pool & partial & Hbad).
  exists pool, partial.
  unfold siridb_insert_assign_pools, map_payload.
  cbn [qp_next tp_of fst snd qp_is_array qp_is_map].
  apply (assign_by_map_fuel _ _ _ _ (length ss + S fuel)).
  rewrite assign_series_prefix; [|done|done|lia|lia].
  by rewrite <- write_payload_new.
Qed.

Lemma bad_point_refused_point siridb bad code :
  bad_point siridb bad code <->
  exists written, refused_point siridb bad code written.
Proof.
  split.
  - intros [rest Hr|ts rest Hv|ts rest Hv Hr]; eexists.
    + by apply refused_point_ts.
    + by apply refused_point_range.
    + by apply refused_point_value.
  - intros (written & [rest Hr|ts rest Hv|ts rest Hv Hr]).
    + by apply bad_point_ts.
    + by apply bad_point_range.
    + by apply bad_point_value.
Qed.

(** The refusals of [refused_entry] are those of [bad_entry]. *)
Lemma bad_entry_refused_entry siridb bad code :
  bad_entry siridb bad code <->
  exists pool written, refused_entry siridb bad code pool written.
Proof.
  split.
  - intros [rest H1 H2 H3|n rest Harr|n h rest Harr Hp
           |n h pts bad' code' Harr Hv Hb].
    + exists 0, []. by apply refused_entry_name.
    + eexists _, _. by apply refused_entry_array.
    + eexists _, _. by apply refused_entry_empty.
    + apply bad_point_refused_point in Hb as [written Hb].
      eexists _, _. by apply refused_entry_point.
  - intros (pool & written &
            [rest pool' H1 H2 H3|n rest Harr|n h rest Harr Hp
            |n h pts bad' code' written' Harr Hv Hb]).
    + by apply bad_entry_name.
    + by apply bad_entry_array.
    + by apply bad_entry_empty.
    + apply bad_entry_point; [done|done|].
      apply bad_point_refused_point. by exists written'.
Qed.

Lemma assign_points_refused siridb pool bad code written fuel o packer count :
  refused_point siridb bad code written ->
  assign_points (S fuel) siridb pool QP_ARRAY2 bad o packer count
  = Some (Return code (qp_write packer pool written)).
Proof.
  intros [rest Hr|ts rest Hv|ts rest Hv Hr]; simpl.
  - unfold peek in Hr. destruct (qp_next rest) as [[tp1 o1] u1].
    simpl in Hr. rewrite bool_decide_eq_true_2 by done.
    fold_write. reflexivity.
  - rewrite Hv. simpl. fold_write. reflexivity.
  - rewrite Hv. simpl. unfold peek in Hr.
    destruct (qp_next rest) as [[tp1 o1] u1]. simpl in Hr.
    destruct tp1; try discriminate Hr;
      (fold_write; rewrite qp_write_app; reflexivity).
Qed.

Lemma assign_series_refused siridb bad code pool written fuel packer count :
  refused_entry siridb bad code pool written ->
  length bad <= fuel ->
  assign_series (S fuel) siridb
    (qp_next bad).1.1 (qp_next bad).2 (qp_next bad).1.2 packer count
  = Some (code, qp_write packer pool written).
Proof.
  intros [rest pool' H1 H2 H3|n rest Harr|n h rest Harr Hp
         |n h pts bad' code' written' Harr Hv Hb] Hf.
  - unfold peek in *. destruct (qp_next rest) as [[tp o] u]. simpl in *.
    rewrite bool_decide_eq_false_2 by done.
    rewrite !bool_decide_eq_true_2 by done.
    by rewrite qp_write_nil.
  - simpl. unfold peek in Harr. destruct (qp_next rest) as [[tp o] u].
    simpl in Harr. rewrite Harr. unfold obj_len. simpl.
    fold_write. unfold terminated. by rewrite substring_full.
  - simpl. rewrite Harr. simpl. unfold peek in Hp.
    destruct (qp_next rest) as [[tp o] u]. simpl in Hp.
    rewrite bool_decide_eq_true_2 by done. unfold obj_len. simpl.
    fold_write. rewrite qp_write_app. unfold terminated.
    by rewrite substring_full.
  - cbn [qp_next fst snd assign_series]. rewrite bool_decide_eq_true_2 by done.
    cbn [qp_next fst snd tp_of]. rewrite Harr. cbn [negb].
    pose proof (peek_enc_points_array2 pts bad') as Hpk.
    simpl in Hf. rewrite length_app, length_enc_points in Hf. simpl in Hf.
    replace fuel with (length pts + S (fuel - length pts - 1)) by lia.
    fold_write. rewrite qp_write_app.
    match goal with
    | |- context [assign_points _ siridb ?pool _ _ ?o ?pk ?c] =>
        destruct (assign_points_prefix siridb pool pts
                    (S (fuel - length pts - 1)) (T_ARRAY2 :: bad') o pk c Hv)
          as (o' & c' & Hpre)
    end.
    destruct (qp_next (enc_points pts ++ T_ARRAY2 :: bad')) as [[tp1 o1] u1].
    cbn [fst snd] in *. subst tp1.
    rewrite bool_decide_eq_false_2 by (intros H; by apply H).
    rewrite Hpre. cbn [qp_next fst snd tp_of].
    rewrite (assign_points_refused siridb _ bad' code' written') by done.
    rewrite !qp_write_app. unfold terminated, obj_len. simpl.
    by rewrite substring_full.
Qed.

(** When a map payload is refused, nothing written before is lost and
    nothing is written for what follows.  The refused place is one of
    those of [refused_entry]; the classifier returns its code, and the
    packers hold the complete map entries of all entries accepted before
    it.  The packer of the pool of the refused name holds in addition
    exactly the beginning of the refused entry: its terminated name, the
    array header when one followed, the points taken before the refused
    one, and of the refused point its header and, when only the value was
    refused, its time-stamp.  No token after the refused place is
    written. *)
Theorem refused_payload_packers (siridb : siridb_t)
    (ss : list series_batch) (bad : list token) (code : Z)
    (qp_obj : qp_obj_t) :
  Forall (series_ok siridb) ss ->
  ends_points ss bad ->
  bad_entry siridb bad code ->
  (exists pool written, refused_entry siridb bad code pool written) /\
  forall pool written,
    refused_entry siridb bad code pool written ->
    exists packer,
      siridb_insert_assign_pools siridb (map_payload ss bad) qp_obj
        = Some (code, packer) /\
      length packer = pools_size siridb /\
      forall k, k < pools_size siridb ->
        packer !! k
        = Some (sub_batch siridb k ss
                ++ (if decide (pool = k) then written else [])).
Proof.
  intros Hok He Hb. split; [by apply bad_entry_refused_entry|].
  intros pool written Hr.
  set (fuel := length (enc_payload ss) + length bad).
  pose proof (assign_series_refused siridb bad code pool written fuel
                (write_payload siridb (new_packers (pools_size siridb)) ss)
                (wrap_int32 (0 + Z.of_nat (total_points ss))) Hr ltac:(lia))
    as Hbad.
  assert (Hrun : siridb_insert_assign_pools siridb (map_payload ss bad) qp_obj
                 = Some (code,
                         qp_write ((fun k => sub_batch siridb k ss)
                                     <$> seq 0 (pools_size siridb))
                           pool written)).
  { unfold siridb_insert_assign_pools, map_payload.
    cbn [qp_next tp_of fst snd qp_is_array qp_is_map].
    apply (assign_by_map_fuel _ _ _ _ (length ss + S fuel)).
    rewrite assign_series_prefix; [|done|done|lia|lia].
    by rewrite <- write_payload_new. }
  eexists. split; [exact Hrun|]. split.
  - unfold qp_write, at_pool.
    by rewrite length_alter, length_fmap, length_seq.
  - intros k Hk. rewrite qp_write_lookup.
    rewrite classified_packers by done.
    case_decide; simpl; [done|by rewrite app_nil_r].
Qed.

(** The third scenario of the specification: the name is written, then the
    batch is refused. *)
Lemma refused_payload_packers_witness :
  exists packer,
    siridb_insert_assign_pools two_pools
      (map_payload payload_a_b [T_RAW "x"; T_ARRAY_OPEN; T_ARRAY1]) None
      = Some (ERR_EXPECTING_AT_LEAST_ONE_POINT, packer) /\
    length packer = 2 /\
    packer !! 0 = Some (sub_batch two_pools 0 payload_a_b) /\
    packer !! 1
    = Some (sub_batch two_pools 1 payload_a_b
            ++ [T_RAW (terminated "x"); T_ARRAY_OPEN]).
Proof.
  assert (Hok : Forall (series_ok two_pools) payload_a_b)
    by (repeat constructor; done).
  assert (Hbad : bad_entry two_pools [T_RAW "x"; T_ARRAY_OPEN; T_ARRAY1]
                   ERR_EXPECTING_AT_LEAST_ONE_POINT)
    by (by apply bad_entry_empty).
  assert (Hr : refused_entry two_pools [T_RAW "x"; T_ARRAY_OPEN; T_ARRAY1]
                 ERR_EXPECTING_AT_LEAST_ONE_POINT
                 (siridb_pool_sn_raw two_pools "x" 1)
                 [T_RAW (terminated "x"); T_ARRAY_OPEN])
    by (by apply refused_entry_empty).
  destruct (refused_payload_packers two_pools payload_a_b
              [T_RAW "x"; T_ARRAY_OPEN; T_ARRAY1]
              ERR_EXPECTING_AT_LEAST_ONE_POINT None Hok
              (ends_points_raw _ _ _) Hbad) as [_ Hall].
  destruct (Hall _ _ Hr) as (packer & Hrun & Hlen & Hk).
  exists packer. split; [exact Hrun|]. split; [exact Hlen|]. split.
  - rewrite (Hk 0) by (simpl; lia). reflexivity.
  - by rewrite (Hk 1) by (simpl; lia).
Defined.

(** On every input the classifier returns with one packer per pool, and
    every packer still begins with the [MAP_OPEN] it was created with: the
    classifier only appends. *)
Theorem classification_appends_only (siridb : siridb_t)
    (input : list token) (qp_obj : qp_obj_t) :
  exists r packer,
    siridb_insert_assign_pools siridb input qp_obj = Some (r, packer) /\
    length packer = pools_size siridb /\
    forall k, k < pools_size siridb ->
      exists written, packer !! k = Some (T_MAP_OPEN :: written).
Proof.
  destruct (assign_pools_cases siridb input)
    as [Harr|[[Harr Hmap]|(ss & rest & -> & Hok & He & [Ht|[code Hb]])]].
  - eexists _, _. split; [by apply assign_pools_array|].
    unfold new_packers. split; [by rewrite length_replicate|].
    intros k Hk. exists []. by rewrite lookup_replicate_2.
  - eexists _, _. split; [by apply assign_pools_neither|].
    unfold new_packers. split; [by rewrite length_replicate|].
    intros k Hk. exists []. by rewrite lookup_replicate_2.
  - eexists _, _. split; [by apply assign_pools_ok|].
    split; [by rewrite length_fmap, length_seq|].
    intros k Hk. rewrite classified_packers by done. by eexists.
  - destruct (assign_pools_refused_run siridb ss rest code qp_obj Hok He Hb)
      as (pool & partial & Hrun).
    eexists _, _. split; [exact Hrun|]. split.
    + unfold qp_write, at_pool.
      by rewrite length_alter, length_fmap, length_seq.
    + intros k Hk. rewrite qp_write_lookup.
      rewrite classified_packers by done. unfold sub_batch.
      case_decide; simpl; by eexists.
Qed.

(** ** Error codes and their messages *)

Lemma insert_err_cases (e : Z) :
  is_insert_err e ->
  (e = -7 \/ e = -6 \/ e = -5 \/ e = -4 \/ e = -3 \/ e = -2 \/ e = -1)%Z.
Proof. unfold is_insert_err, SIRIDB_INSERT_ERR_SIZE. lia. Qed.

Lemma err_msg_defined (e : Z) :
  is_insert_err e ->
  exists msg, siridb_insert_err_msg e = Some msg /\ msg <> EmptyString.
Proof.
  intros He.
  destruct (insert_err_cases e He) as [->|[->|[->|[->|[->|[->| ->]]]]]];
    (eexists; split; [reflexivity|discriminate]).
Qed.

(** Every negative result of the classifier is a valid argument of
    [siridb_insert_err_msg]: on every input that fits the body of a package,
    a negative result has a message in the table, and a result that is not
    negative is a count, for which the table has no entry. *)
Theorem classification_error_has_message (siridb : siridb_t)
    (input : list token) (qp_obj : qp_obj_t) :
  (Z.of_nat (length input) <= UINT32_MAX)%Z ->
  exists r packer,
    siridb_insert_assign_pools siridb input qp_obj = Some (r, packer) /\
    ((r < 0)%Z ->
       exists msg, siridb_insert_err_msg r = Some msg /\ msg <> EmptyString) /\
    ((0 <= r)%Z -> siridb_insert_err_msg r = None).
Proof.
  intros Hlen.
  assert (Hnone : forall r, (0 <= r)%Z -> siridb_insert_err_msg r = None).
  { intros r Hr. unfold siridb_insert_err_msg. apply c_index_None.
    unfold SIRIDB_INSERT_ERR_SIZE. simpl. lia. }
  destruct (assign_pools_cases siridb input)
    as [Harr|[[Harr Hmap]|(ss & rest & -> & Hok & He & [Ht|[code Hb]])]].
  - eexists _, _. split; [by apply assign_pools_array|].
    split; [lia|apply Hnone].
  - eexists _, _. split; [by apply assign_pools_neither|].
    split; [|apply Hnone]. intros _. apply err_msg_defined. insert_err_range.
  - eexists _, _. split; [by apply assign_pools_ok|].
    rewrite (total_points_int32 ss rest Hlen).
    split; [lia|apply Hnone].
  - destruct (assign_pools_refused siridb ss rest code qp_obj Hok He Hb)
      as (pk & Hrun).
    eexists _, _. split; [exact Hrun|]. split; [|apply Hnone].
    intros _. apply err_msg_defined. by eapply is_insert_err_bad_entry.
Qed.

Lemma classification_error_has_message_witness :
  exists r packer,
    siridb_insert_assign_pools two_pools
      [T_MAP_OPEN; T_RAW "x"; T_ARRAY_OPEN; T_ARRAY_CLOSE] None
      = Some (r, packer) /\
    ((r < 0)%Z ->
       exists msg, siridb_insert_err_msg r = Some msg /\ msg <> EmptyString) /\
    ((0 <= r)%Z -> siridb_insert_err_msg r = None).
Proof.
  apply (classification_error_has_message two_pools
           [T_MAP_OPEN; T_RAW "x"; T_ARRAY_OPEN; T_ARRAY_CLOSE] None).
  vm_compute. discriminate.
Defined.

(** The seven messages are pairwise different: two error codes with the
    same message are the same code. *)
Theorem insert_err_msg_injective (e1 e2 : Z) :
  is_insert_err e1 ->
  is_insert_err e2 ->
  siridb_insert_err_msg e1 = siridb_insert_err_msg e2 ->
  e1 = e2.
Proof.
  intros H1 H2.
  destruct (insert_err_cases e1 H1) as [->|[->|[->|[->|[->|[->| ->]]]]]];
    destruct (insert_err_cases e2 H2) as [->|[->|[->|[->|[->|[->| ->]]]]]];
    intros Hmsg; try reflexivity; vm_compute in Hmsg; discriminate Hmsg.
Qed.

Lemma insert_err_msg_injective_witness :
  is_insert_err ERR_UNSUPPORTED_VALUE /\
  is_insert_err (-2) /\
  ERR_UNSUPPORTED_VALUE = (-2)%Z.
Proof.
  assert (H1 : is_insert_err ERR_UNSUPPORTED_VALUE) by insert_err_range.
  assert (H2 : is_insert_err (-2)) by insert_err_range.
  split; [exact H1|]. split; [exact H2|].
  apply (insert_err_msg_injective ERR_UNSUPPORTED_VALUE (-2) H1 H2).
  reflexivity.
Defined.

(** ** The frame of the dispatcher's loops *)

Lemma same_config_refl a : same_config a a.
Proof. by repeat split. Qed.

Lemma same_config_trans a b c :
  same_config a b -> same_config b c -> same_config a c.
Proof.
  intros (H1 & H2 & H3 & H4 & H5) (G1 & G2 & G3 & G4 & G5).
  repeat split; congruence.
Qed.

Lemma same_config_set_series a reg : same_config a (set_series a reg).
Proof. by repeat split. Qed.

Lemma local_series_frame (fuel : nat) :
  forall siridb tp (u : qp_unpacker_t) o calls siridb' calls',
  local_series fuel siridb tp u o calls = Some (siridb', calls') ->
  same_config siridb siridb' /\
  forall k t, series siridb !! k = Some t -> series siridb' !! k = Some t.
Proof.
  induction fuel as [|fuel IH];
    intros siridb tp u o calls siridb' calls' Hrun; [done|].
  simpl in Hrun. case_bool_decide as Htp.
  2:{ injection Hrun as <- _. split; [apply same_config_refl|done]. }
  destruct (qp_next u) as [[tp1 o1] u1].
  destruct (qp_next u1) as [[tp2 o2] u2].
  destruct (qp_next u2) as [[tp3 o3] u3].
  destruct (qp_next u3) as [[tp4 o4] u4].
  destruct (series siridb !! c_str (via_raw o)) as [t0|] eqn:Hkey.
  - destruct (local_points fuel u4) as [[[tp5 o5] u5]|]; [|done].
    destruct (if bool_decide (tp5 = QP_ARRAY_CLOSE) then qp_next u5
              else (tp5, o5, u5)) as [[tp6 o6] u6].
    by apply IH in Hrun.
  - destruct (local_points fuel u4) as [[[tp5 o5] u5]|]; [|done].
    destruct (if bool_decide (tp5 = QP_ARRAY_CLOSE) then qp_next u5
              else (tp5, o5, u5)) as [[tp6 o6] u6].
    apply IH in Hrun as [Hcfg Hkeep]. split.
    + eapply same_config_trans; [apply same_config_set_series|exact Hcfg].
    + intros k t Hk. apply Hkeep. simpl.
      rewrite lookup_insert_ne; [done|]. intros <-. congruence.
Qed.

Lemma pools_loop_frame (ns : list nat) insert :
  forall siridb calls siridb' calls',
  pools_loop ns insert siridb calls = Some (siridb', calls') ->
  same_config siridb siridb' /\
  forall k t, series siridb !! k = Some t -> series siridb' !! k = Some t.
Proof.
  induction ns as [|n ns IH]; intros siridb calls siridb' calls' Hrun.
  - injection Hrun as <- _. split; [apply same_config_refl|done].
  - simpl in Hrun. case_bool_decide; [|by apply IH in Hrun].
    destruct (local_pool siridb (packer insert !!! n) calls)
      as [[db1 calls1]|] eqn:Hlocal; [|done].
    unfold local_pool in Hlocal.
    repeat match type of Hlocal with
    | context [qp_next ?x] =>
        let tp := fresh "tp" in let o := fresh "o" in let u := fresh "u" in
        destruct (qp_next x) as [[tp o] u]
    end.
    apply local_series_frame in Hlocal as [Hcfg1 Hkeep1].
    apply IH in Hrun as [Hcfg2 Hkeep2]. split.
    + by eapply same_config_trans.
    + intros k t Hk. by apply Hkeep2, Hkeep1.
Qed.

(** ** A server whose pool has no packer *)

(** When the pool of this server is not below the number of packers of the
    job, no packer is decoded: the registry is not consulted and the run
    consists of the reply and the release. *)
Theorem dispatcher_without_local_packer (siridb : siridb_t)
    (insert : siridb_insert_t) :
  packer_size insert <= server_pool siridb ->
  send_points_to_pools siridb insert
  = Some (siridb, reply_and_release insert).
Proof.
  intros Hsp. unfold send_points_to_pools.
  rewrite pools_loop_skip; [reflexivity|].
  rewrite elem_of_seq. lia.
Qed.

Lemma dispatcher_without_local_packer_witness :
  send_points_to_pools two_pools
    (siridb_insert_points 7 1 5 0 [sub_batch two_pools 0 payload_a_b])
  = Some (two_pools,
          reply_and_release
            (siridb_insert_points 7 1 5 0
               [sub_batch two_pools 0 payload_a_b])).
Proof.
  apply (dispatcher_without_local_packer two_pools
           (siridb_insert_points 7 1 5 0 [sub_batch two_pools 0 payload_a_b])).
  simpl. lia.
Defined.

(** ** Running a job again *)

Lemma same_config_pool_of a b s :
  same_config a b -> pool_of a s = pool_of b s.
Proof.
  intros (H1 & _ & H3 & _). unfold pool_of, siridb_pool_sn_raw.
  by rewrite H1, H3.
Qed.

Lemma same_config_routed a b k (ss : list series_batch) :
  same_config a b -> routed a k ss = routed b k ss.
Proof.
  intros Hcfg. unfold routed. induction ss as [|s ss IH]; [done|].
  pose proof (same_config_pool_of a b s Hcfg) as Hp.
  destruct (decide (pool_of a s = k)) as [Hk|Hk].
  - rewrite (filter_cons_True (fun s => pool_of a s = k)) by done.
    rewrite (filter_cons_True (fun s => pool_of b s = k)) by (by rewrite <- Hp).
    by rewrite IH.
  - rewrite (filter_cons_False (fun s => pool_of a s = k)) by done.
    by rewrite (filter_cons_False (fun s => pool_of b s = k))
      by (by rewrite <- Hp).
Qed.

Lemma same_config_series_ok a b s :
  same_config a b -> series_ok a s -> series_ok b s.
Proof.
  intros (_ & _ & _ & H4 & H5) (Hh & Hne & Hv). repeat split; [done|done|].
  eapply Forall_impl; [exact Hv|]. intros p Hp.
  unfold siridb_int64_valid_ts in *. by rewrite <- H4, <- H5.
Qed.

Lemma foldl_get_or_create_config (ls : list series_batch) :
  forall st, same_config st.1 (foldl get_or_create st ls).1.
Proof.
  induction ls as [|s ls IH]; intros st; simpl; [apply same_config_refl|].
  eapply same_config_trans; [|apply IH].
  unfold get_or_create. case_match; simpl;
    [apply same_config_refl|apply same_config_set_series].
Qed.

Lemma foldl_get_or_create_registered (ls : list series_batch) :
  forall st s, s ∈ ls ->
  is_Some (series (foldl get_or_create st ls).1 !! series_key s).
Proof.
  induction ls as [|s0 ls IH]; intros st s Hs; [by apply elem_of_nil in Hs|].
  apply elem_of_cons in Hs as [->|Hs]; [|by apply IH].
  simpl. destruct (series st.1 !! series_key s0) as [t|] eqn:Hk.
  - exists t. by apply foldl_get_or_create_keeps, get_or_create_keeps.
  - eexists. by apply foldl_get_or_create_keeps, get_or_create_new.
Qed.

(** Over names that are all registered, get-or-create only looks up. *)
Lemma foldl_get_or_create_known (ls : list series_batch) :
  forall st,
  (forall s, s ∈ ls -> is_Some (series st.1 !! series_key s)) ->
  foldl get_or_create st ls
  = (st.1, st.2 ++ ((fun s => Ct_get_sure (series_key s)) <$> ls)).
Proof.
  induction ls as [|s ls IH]; intros [db calls] Hknown; simpl in *.
  - by rewrite app_nil_r.
  - destruct (Hknown s ltac:(by left)) as [t Ht].
    unfold get_or_create at 2. simpl. rewrite Ht.
    rewrite IH; simpl; [by rewrite <- app_assoc|].
    intros s' Hs'. apply Hknown. by right.
Qed.

Lemma lookups_get_sure (ls : list series_batch) :
  lookups ((fun s => Ct_get_sure (series_key s)) <$> ls) = series_key <$> ls.
Proof.
  induction ls as [|s ls IH]; [done|].
  unfold lookups in *. simpl. by f_equal.
Qed.

Lemma lookups_app (a b : list call) : lookups (a ++ b) = lookups a ++ lookups b.
Proof. unfold lookups. by rewrite omap_app. Qed.

Lemma created_app (a b : list call) : created (a ++ b) = created a ++ created b.
Proof. unfold created. by rewrite omap_app. Qed.

(** Get-or-create looks every entry up once, in the order of the entries. *)
Lemma foldl_get_or_create_lookups (ls : list series_batch) :
  forall st,
  lookups (foldl get_or_create st ls).2
  = lookups st.2 ++ (series_key <$> ls).
Proof.
  induction ls as [|s ls IH]; intros st; simpl.
  - by rewrite app_nil_r.
  - rewrite IH. unfold get_or_create. case_match; simpl;
      rewrite lookups_app; simpl; by rewrite <- app_assoc.
Qed.

Lemma created_get_sure (ls : list series_batch) :
  created ((fun s => Ct_get_sure (series_key s)) <$> ls) = [].
Proof. by induction ls as [|s ls IH]. Qed.

(** When the job of a classified payload is run a second time on the
    database handle that the first run left, with whatever request id,
    client and count, the second run looks up the same names, creates no
    series and leaves the handle as it is. *)
Theorem second_run_only_looks_up (siridb : siridb_t)
    (ss : list series_batch) (pid pid' : Z) (client client' : nat)
    (count count' : Z) :
  Forall (series_ok siridb) ss ->
  server_pool siridb < pools_size siridb ->
  let packer :=
    (fun k => sub_batch siridb k ss) <$> seq 0 (pools_size siridb) in
  exists siridb1 calls1 calls2,
    send_points_to_pools siridb (insert_job siridb pid client (count, packer))
      = Some (siridb1, calls1) /\
    send_points_to_pools siridb1
      (insert_job siridb pid' client' (count', packer))
      = Some (siridb1, calls2) /\
    created calls2 = [] /\
    lookups calls2 = lookups calls1 /\
    lookups calls2
    = series_key <$> routed siridb (server_pool siridb) ss.
Proof.
  intros Hok Hsp packer0.
  set (local := routed siridb (server_pool siridb) ss).
  set (st1 := foldl get_or_create (siridb, []) local).
  pose proof (foldl_get_or_create_config local (siridb, [])) as Hcfg.
  fold st1 in Hcfg. simpl in Hcfg.
  assert (Hrun1 := send_points_classified siridb ss pid client count Hok Hsp).
  cbv zeta in Hrun1. fold local st1 packer0 in Hrun1.
  assert (Hok1 : Forall (series_ok st1.1) ss).
  { eapply Forall_impl; [exact Hok|].
    intros s. by apply same_config_series_ok. }
  assert (Hsp1 : server_pool st1.1 < pools_size st1.1).
  { pose proof Hcfg as (H1 & H2 & _). by rewrite <- H1, <- H2. }
  assert (Hrun2 := send_points_classified st1.1 ss pid' client' count'
                     Hok1 Hsp1).
  cbv zeta in Hrun2.
  assert (Hpk : (fun k => sub_batch st1.1 k ss) <$> seq 0 (pools_size st1.1)
                = packer0).
  { subst packer0. pose proof Hcfg as (H1 & _). rewrite <- H1.
    apply list_fmap_ext. intros _ k _. unfold sub_batch.
    by rewrite (same_config_routed siridb st1.1 k ss Hcfg). }
  assert (Hjob : insert_job st1.1 pid' client'
                   (count', (fun k => sub_batch st1.1 k ss)
                              <$> seq 0 (pools_size st1.1))
                 = insert_job siridb pid' client' (count', packer0)).
  { rewrite Hpk. unfold insert_job. pose proof Hcfg as (H1 & _).
    by rewrite <- H1. }
  rewrite Hjob in Hrun2.
  assert (Hlocal : routed st1.1 (server_pool st1.1) ss = local).
  { subst local. pose proof Hcfg as (_ & H2 & _). rewrite <- H2.
    symmetry. by apply same_config_routed. }
  rewrite Hlocal in Hrun2.
  rewrite (foldl_get_or_create_known local (st1.1, [])) in Hrun2.
  2:{ intros s Hs. subst st1. by apply foldl_get_or_create_registered. }
  cbn [fst snd app] in Hrun2.
  eexists _, _, _. split; [exact Hrun1|]. split; [exact Hrun2|].
  assert (Hl2 : lookups
            (((fun s => Ct_get_sure (series_key s)) <$> local) ++
             [Sirinet_send_pkg client'
                (sirinet_new_pkg pid' SN_MSG_RESULT
                   [T_MAP_OPEN; T_RAW "success_msg";
                    T_RAW (fmt_inserted count')]);
              Uv_close_free_insert])
          = series_key <$> local).
  { rewrite lookups_app, lookups_get_sure. simpl. by rewrite app_nil_r. }
  split; [|split; [|exact Hl2]].
  - by rewrite created_app, created_get_sure.
  - rewrite Hl2, lookups_app. subst st1.
    rewrite foldl_get_or_create_lookups. simpl. by rewrite app_nil_r.
Qed.

Lemma second_run_only_looks_up_witness :
  exists siridb1 calls1 calls2,
    send_points_to_pools two_pools
      (insert_job two_pools 7 1
         (2%Z, (fun k => sub_batch two_pools k payload_a_b) <$> seq 0 2))
      = Some (siridb1, calls1) /\
    send_points_to_pools siridb1
      (insert_job two_pools 8 3
         (2%Z, (fun k => sub_batch two_pools k payload_a_b) <$> seq 0 2))
      = Some (siridb1, calls2) /\
    created calls2 = [] /\
    lookups calls2 = lookups calls1 /\
    lookups calls2 = series_key <$> routed two_pools 0 payload_a_b.
Proof.
  apply (second_run_only_looks_up two_pools payload_a_b 7 8 1 3 2 2);
    [repeat constructor; done|simpl; lia].
Defined.

(** ** What a run changes of the database handle *)

Lemma foldl_get_or_create_registry (ls : list series_batch) :
  forall st k t,
  series (foldl get_or_create st ls).1 !! k = Some t ->
  series st.1 !! k = Some t \/ k ∈ series_key <$> ls.
Proof.
  induction ls as [|s ls IH]; intros st k t Hk; simpl in *; [by left|].
  apply IH in Hk as [Hk|Hk]; [|right; by right].
  unfold get_or_create in Hk.
  destruct (series st.1 !! series_key s) eqn:Hs; simpl in Hk; [by left|].
  destruct (decide (series_key s = k)) as [<-|Hne].
  - right. by left.
  - left. by rewrite lookup_insert_ne in Hk.
Qed.

(** For a payload that the classifier takes, the run of the job built from
    its packers changes nothing of the database handle but the registry;
    every series that was registered before is registered with the same
    type afterwards, and every series that is registered afterwards was
    registered before or is the series of an entry of the sub-batch of this
    server's pool: the dispatcher never removes a series, never changes the
    type of one and adds none but those of the local entries. *)
Theorem dispatcher_keeps_registered_series (siridb : siridb_t)
    (ss : list series_batch) (tail : list token) (qp_obj : qp_obj_t)
    (pid : Z) (client : nat) :
  Forall (series_ok siridb) ss ->
  map_end tail ->
  exists classified siridb' calls,
    siridb_insert_assign_pools siridb (map_payload ss tail) qp_obj
      = Some classified /\
    send_points_to_pools siridb (insert_job siridb pid client classified)
      = Some (siridb', calls) /\
    same_config siridb siridb' /\
    (forall k t,
       series siridb !! k = Some t -> series siridb' !! k = Some t) /\
    (forall k t,
       series siridb' !! k = Some t ->
       series siridb !! k = Some t \/
       exists s, s ∈ routed siridb (server_pool siridb) ss /\
                 k = series_key s).
Proof.
  intros Hok Ht. rewrite (assign_pools_ok siridb ss tail qp_obj Hok Ht).
  destruct (decide (server_pool siridb < pools_size siridb)) as [Hsp|Hsp].
  - pose proof (send_points_classified siridb ss pid client
                  (wrap_int32 (Z.of_nat (total_points ss))) Hok Hsp) as Hrun.
    cbv zeta in Hrun.
    eexists _, _, _. split; [reflexivity|]. split; [exact Hrun|].
    split; [apply (foldl_get_or_create_config _ (siridb, []))|]. split.
    + intros k t Hk. by apply foldl_get_or_create_keeps.
    + intros k t Hk.
      apply foldl_get_or_create_registry in Hk as [Hk|Hk]; [by left|right].
      apply list_elem_of_fmap in Hk as (s & -> & Hs). by exists s.
  - eexists _, siridb, _. split; [reflexivity|]. split.
    + unfold send_points_to_pools. rewrite pools_loop_skip; [reflexivity|].
      simpl. rewrite elem_of_seq. lia.
    + split; [apply same_config_refl|]. split; [done|]. intros k t Hk.
      by left.
Qed.

Lemma dispatcher_keeps_registered_series_witness :
  exists classified siridb' calls,
    siridb_insert_assign_pools two_pools (map_payload payload_a_b []) None
      = Some classified /\
    send_points_to_pools two_pools (insert_job two_pools 7 1 classified)
      = Some (siridb', calls) /\
    same_config two_pools siridb' /\
    forall k t, series siridb' !! k = Some t -> k = "a".
Proof.
  assert (Hok : Forall (series_ok two_pools) payload_a_b)
    by (repeat constructor; done).
  assert (Hend : map_end []) by (by left).
  destruct (dispatcher_keeps_registered_series two_pools payload_a_b [] None
              7 1 Hok Hend)
    as (classified & siridb' & calls & Hassign & Hrun & Hcfg & _ & Hnew).
  exists classified, siridb', calls.
  split; [exact Hassign|]. split; [exact Hrun|]. split; [exact Hcfg|].
  intros k t Hk. destruct (Hnew k t Hk) as [Hold|(s & Hs & ->)].
  - simpl in Hold. by rewrite lookup_empty in Hold.
  - assert (Hr : routed two_pools (server_pool two_pools) payload_a_b
                 = [open_series "a" [(1000%Z, V_INT64 1)]]) by reflexivity.
    rewrite Hr in Hs. apply list_elem_of_singleton in Hs as ->.
    reflexivity.
Defined.

(** ** The series a run creates *)

(** Calls of which every creation is of a name that was not registered in
    [a], is registered with the created type in [b], and is made once. *)
Lemma creations_compose (a b c : siridb_t) (ex1 ex2 : list call) :
  (forall k t, series a !! k = Some t -> series b !! k = Some t) ->
  (forall k t, series b !! k = Some t -> series c !! k = Some t) ->
  NoDup (created ex1).*1 ->
  (forall k tp, (k, tp) ∈ created ex1 ->
     series a !! k = None /\ series b !! k = Some tp) ->
  NoDup (created ex2).*1 ->
  (forall k tp, (k, tp) ∈ created ex2 ->
     series b !! k = None /\ series c !! k = Some tp) ->
  NoDup (created (ex1 ++ ex2)).*1 /\
  (forall k tp, (k, tp) ∈ created (ex1 ++ ex2) ->
     series a !! k = None /\ series c !! k = Some tp).
Proof.
  intros Hab Hbc Hnd1 H1 Hnd2 H2. rewrite created_app, fmap_app. split.
  - apply NoDup_app. split; [done|]. split; [|done].
    intros k Hk1 Hk2.
    apply list_elem_of_fmap in Hk1 as ([k1 t1] & -> & Hin1).
    apply list_elem_of_fmap in Hk2 as ([k2 t2] & Heq & Hin2).
    simpl in Heq. subst k2.
    destruct (H1 _ _ Hin1) as [_ Hb]. destruct (H2 _ _ Hin2) as [Hb' _].
    congruence.
  - intros k tp [Hin|Hin]%elem_of_app.
    + destruct (H1 _ _ Hin) as [Ha Hb]. split; [done|by apply Hbc].
    + destruct (H2 _ _ Hin) as [Hb Hc]. split; [|done].
      destruct (series a !! k) as [t|] eqn:Ha; [|done].
      apply Hab in Ha. congruence.
Qed.

Lemma local_series_creates (fuel : nat) :
  forall siridb tp (u : qp_unpacker_t) o calls siridb' calls',
  local_series fuel siridb tp u o calls = Some (siridb', calls') ->
  exists extra,
    calls' = calls ++ extra /\
    NoDup (created extra).*1 /\
    forall k t, (k, t) ∈ created extra ->
      series siridb !! k = None /\ series siridb' !! k = Some t.
Proof.
  induction fuel as [|fuel IH];
    intros siridb tp u o calls siridb' calls' Hrun; [done|].
  pose proof (local_series_frame _ _ _ _ _ _ _ _ Hrun) as [_ Hkeep].
  simpl in Hrun. case_bool_decide as Htp.
  2:{ injection Hrun as <- <-. exists []. rewrite app_nil_r.
      split; [done|]. split; [constructor|].
      intros k t Hin. by apply elem_of_nil in Hin. }
  destruct (qp_next u) as [[tp1 o1] u1].
  destruct (qp_next u1) as [[tp2 o2] u2].
  destruct (qp_next u2) as [[tp3 o3] u3].
  destruct (qp_next u3) as [[tp4 o4] u4].
  destruct (series siridb !! c_str (via_raw o)) as [t0|] eqn:Hkey.
  - destruct (local_points fuel u4) as [[[tp5 o5] u5]|]; [|done].
    destruct (if bool_decide (tp5 = QP_ARRAY_CLOSE) then qp_next u5
              else (tp5, o5, u5)) as [[tp6 o6] u6].
    apply IH in Hrun as (extra & -> & Hnd & Hnew).
    exists (Ct_get_sure (c_str (via_raw o)) :: extra).
    rewrite <- app_assoc. split; [done|]. by split.
  - destruct (local_points fuel u4) as [[[tp5 o5] u5]|]; [|done].
    destruct (if bool_decide (tp5 = QP_ARRAY_CLOSE) then qp_next u5
              else (tp5, o5, u5)) as [[tp6 o6] u6].
    pose proof (local_series_frame _ _ _ _ _ _ _ _ Hrun) as [_ Hkeep'].
    apply IH in Hrun as (extra & -> & Hnd & Hnew).
    exists (Ct_get_sure (c_str (via_raw o)) ::
            Siridb_create_series (c_str (via_raw o))
              (siridb_qp_map_tp (obj_tp o4)) :: extra).
    rewrite <- !app_assoc. split; [done|]. simpl. split.
    + apply NoDup_cons. split; [|done]. intros Hin.
      apply list_elem_of_fmap in Hin as ([k t] & Heq & Hin).
      simpl in Heq. subst k. destruct (Hnew _ _ Hin) as [Hnone _].
      simpl in Hnone. by rewrite lookup_insert_eq in Hnone.
    + intros k t [Heq|Hin]%elem_of_cons.
      * injection Heq as -> ->. split; [done|].
        apply Hkeep'. simpl. by rewrite lookup_insert_eq.
      * destruct (Hnew _ _ Hin) as [Hnone Hsome]. split; [|done].
        simpl in Hnone.
        destruct (decide (c_str (via_raw o) = k)) as [<-|Hne].
        -- by rewrite lookup_insert_eq in Hnone.
        -- by rewrite lookup_insert_ne in Hnone.
Qed.

Lemma pools_loop_creates (ns : list nat) insert :
  forall siridb calls siridb' calls',
  pools_loop ns insert siridb calls = Some (siridb', calls') ->
  exists extra,
    calls' = calls ++ extra /\
    NoDup (created extra).*1 /\
    forall k t, (k, t) ∈ created extra ->
      series siridb !! k = None /\ series siridb' !! k = Some t.
Proof.
  induction ns as [|n ns IH]; intros siridb calls siridb' calls' Hrun.
  - injection Hrun as <- <-. exists []. rewrite app_nil_r.
    split; [done|]. split; [constructor|].
    intros k t Hin. by apply elem_of_nil in Hin.
  - simpl in Hrun. case_bool_decide; [|by apply IH in Hrun].
    destruct (local_pool siridb (packer insert !!! n) calls)
      as [[db1 calls1]|] eqn:Hlocal; [|done].
    unfold local_pool in Hlocal.
    repeat match type of Hlocal with
    | context [qp_next ?x] =>
        let tp := fresh "tp" in let o := fresh "o" in let u := fresh "u" in
        destruct (qp_next x) as [[tp o] u]
    end.
    pose proof (local_series_frame _ _ _ _ _ _ _ _ Hlocal) as [_ Hkeep1].
    pose proof (pools_loop_frame _ _ _ _ _ _ Hrun) as [_ Hkeep2].
    apply local_series_creates in Hlocal as (ex1 & -> & Hnd1 & Hnew1).
    apply IH in Hrun as (ex2 & -> & Hnd2 & Hnew2).
    exists (ex1 ++ ex2). rewrite <- app_assoc. split; [done|].
    by apply (creations_compose siridb db1 siridb').
Qed.

(** For a payload that the classifier takes, the run of the job built from
    its packers creates a series only under a name that was not registered
    when the run began, creates no name twice, and leaves every created
    name registered with the type it was created with. *)
Theorem dispatcher_creates_each_series_once (siridb : siridb_t)
    (ss : list series_batch) (tail : list token) (qp_obj : qp_obj_t)
    (pid : Z) (client : nat) :
  Forall (series_ok siridb) ss ->
  map_end tail ->
  exists classified siridb' calls,
    siridb_insert_assign_pools siridb (map_payload ss tail) qp_obj
      = Some classified /\
    send_points_to_pools siridb (insert_job siridb pid client classified)
      = Some (siridb', calls) /\
    NoDup (created calls).*1 /\
    forall k t, (k, t) ∈ created calls ->
      series siridb !! k = None /\ series siridb' !! k = Some t.
Proof.
  intros Hok Ht. rewrite (assign_pools_ok siridb ss tail qp_obj Hok Ht).
  set (insert := insert_job siridb pid client
                   (wrap_int32 (Z.of_nat (total_points ss)),
                    (fun k => sub_batch siridb k ss)
                      <$> seq 0 (pools_size siridb))).
  destruct (send_points_to_pools_shape siridb insert)
    as (db1 & extra & Hrun & _).
  eexists _, _, _. split; [reflexivity|]. split; [exact Hrun|].
  unfold send_points_to_pools in Hrun.
  destruct (pools_loop (seq 0 (packer_size insert)) insert siridb [])
    as [[db2 calls2]|] eqn:Hloop; [|done].
  injection Hrun as <- Hcalls.
  apply app_inv_tail in Hcalls as <-.
  apply pools_loop_creates in Hloop as (ex & Hex & Hnd & Hnew).
  simpl in Hex. subst ex.
  rewrite created_app. simpl. rewrite app_nil_r. by split.
Qed.

(** Two entries of one name, in a registry without it: the series is
    created once. *)
Lemma dispatcher_creates_each_series_once_witness :
  exists classified siridb' calls,
    siridb_insert_assign_pools two_pools
      (map_payload (payload_a_b ++ payload_a_b) []) None = Some classified /\
    send_points_to_pools two_pools (insert_job two_pools 7 1 classified)
      = Some (siridb', calls) /\
    created calls = [("a", SIRIDB_SERIES_TP_INT)] /\
    lookups calls = ["a"; "a"].
Proof.
  assert (Hok : Forall (series_ok two_pools) (payload_a_b ++ payload_a_b))
    by (repeat constructor; done).
  assert (Hend : map_end []) by (by left).
  destruct (dispatcher_creates_each_series_once two_pools
              (payload_a_b ++ payload_a_b) [] None 7 1 Hok Hend)
    as (classified & siridb' & calls & Hassign & Hrun & _).
  exists classified, siridb', calls.
  split; [exact Hassign|]. split; [exact Hrun|].
  vm_compute in Hassign. injection Hassign as <-.
  vm_compute in Hrun. injection Hrun as _ <-. by split.
Defined.

(** ** The registry key of a name *)

Lemma c_str_idemp (s : string) : c_str (c_str s) = c_str s.
Proof.
  induction s as [|c s IH]; simpl; [done|].
  case_bool_decide as Hc; simpl; [done|].
  rewrite bool_decide_eq_false_2 by done. by rewrite IH.
Qed.

Lemma c_str_app_nul (n x : string) :
  c_str (n +:+ String NUL x) = c_str n.
Proof.
  induction n as [|c n IH]; simpl; [done|].
  case_bool_decide; [done|]. by rewrite <- IH.
Qed.

Lemma foldl_get_or_create_created (ls : list series_batch) :
  forall st k tp,
  (k, tp) ∈ created (foldl get_or_create st ls).2 ->
  (k, tp) ∈ created st.2 \/ k ∈ series_key <$> ls.
Proof.
  induction ls as [|s ls IH]; intros st k tp Hin; simpl in *; [by left|].
  apply IH in Hin as [Hin|Hin]; [|right; by right].
  unfold get_or_create in Hin. destruct (series st.1 !! series_key s);
    simpl in Hin; rewrite created_app in Hin;
    apply elem_of_app in Hin as [Hin|Hin]; try (by left).
  - by apply elem_of_nil in Hin.
  - simpl in Hin. apply list_elem_of_singleton in Hin.
    injection Hin as -> _. right. by left.
Qed.

(** The registry is keyed by the name read as a C string.  For a payload the
    classifier takes, the run of its job looks the local entries up, in
    order, under their names cut at the first terminator; no key it looks
    up or creates holds a terminator, so names that differ only after one
    share a series. *)
Theorem registry_key_stops_at_nul (siridb : siridb_t)
    (ss : list series_batch) (tail : list token) (qp_obj : qp_obj_t)
    (pid : Z) (client : nat) :
  Forall (series_ok siridb) ss ->
  map_end tail ->
  server_pool siridb < pools_size siridb ->
  exists classified siridb' calls,
    siridb_insert_assign_pools siridb (map_payload ss tail) qp_obj
      = Some classified /\
    send_points_to_pools siridb (insert_job siridb pid client classified)
      = Some (siridb', calls) /\
    lookups calls
      = (fun s => c_str (name s)) <$> routed siridb (server_pool siridb) ss /\
    (forall k, k ∈ lookups calls -> c_str k = k) /\
    (forall k tp, (k, tp) ∈ created calls -> k ∈ lookups calls).
Proof.
  intros Hok Ht Hsp.
  eexists _, _, _. split; [by apply assign_pools_ok|].
  split; [by apply send_points_classified|].
  set (local := routed siridb (server_pool siridb) ss).
  assert (Hkeys : series_key <$> local = (fun s => c_str (name s)) <$> local).
  { apply list_fmap_ext. intros _ s _. apply c_str_terminated. }
  assert (Hlook : lookups
            ((foldl get_or_create (siridb, []) local).2 ++
             [Sirinet_send_pkg client
                (sirinet_new_pkg pid SN_MSG_RESULT
                   [T_MAP_OPEN; T_RAW "success_msg";
                    T_RAW (fmt_inserted
                             (wrap_int32 (Z.of_nat (total_points ss))))]);
              Uv_close_free_insert])
          = (fun s => c_str (name s)) <$> local).
  { rewrite lookups_app, foldl_get_or_create_lookups. simpl.
    by rewrite app_nil_r. }
  cbn [fst snd]. split; [exact Hlook|]. split.
  - intros k Hk. rewrite Hlook in Hk.
    apply list_elem_of_fmap in Hk as (s & -> & _). apply c_str_idemp.
  - intros k tp Hin. rewrite Hlook, <- Hkeys.
    rewrite created_app in Hin. simpl in Hin. rewrite app_nil_r in Hin.
    apply foldl_get_or_create_created in Hin as [Hin|Hin]; [|done].
    by apply elem_of_nil in Hin.
Qed.

Lemma registry_key_stops_at_nul_witness :
  exists classified siridb' calls,
    siridb_insert_assign_pools one_pool (map_payload payload_nul_names [])
      None = Some classified /\
    send_points_to_pools one_pool (insert_job one_pool 7 1 classified)
      = Some (siridb', calls) /\
    lookups calls = ["a"; "a"] /\
    created calls = [("a", SIRIDB_SERIES_TP_INT)].
Proof.
  assert (Hok : Forall (series_ok one_pool) payload_nul_names)
    by (repeat constructor; done).
  assert (Hend : map_end []) by (by left).
  assert (Hsp : server_pool one_pool < pools_size one_pool)
    by (simpl; lia).
  destruct (registry_key_stops_at_nul one_pool payload_nul_names [] None 7 1
              Hok Hend Hsp)
    as (classified & siridb' & calls & Hassign & Hrun & Hlook & _).
  exists classified, siridb', calls.
  split; [exact Hassign|]. split; [exact Hrun|].
  split; [by rewrite Hlook|].
  vm_compute in Hassign. injection Hassign as <-.
  vm_compute in Hrun. injection Hrun as _ <-. reflexivity.
Defined.

(** ** The reports of the admin client *)

Lemma existsb_elem_of {A} (f : A -> bool) (l : list A) (x : A) :
  existsb f l = false -> x ∈ l -> f x = false.
Proof.
  induction l as [|y l IH]; intros Hf Hin; [by apply elem_of_nil in Hin|].
  simpl in Hf. apply orb_false_iff in Hf as [Hy Hl].
  apply elem_of_cons in Hin as [->|Hin]; [done|by apply IH].
Qed.

Lemma CLIENT_on_error_msg_reports adm_client pkg :
  exists fmt args,
    CLIENT_on_error_msg adm_client pkg
    = (adm_client, CLIENT_err adm_client fmt args).
Proof.
  unfold CLIENT_on_error_msg.
  destruct (qp_next (pkg_data pkg)) as [[tp1 o1] u1].
  destruct (qp_next u1) as [[tp2 o2] u2].
  destruct (qp_next u2) as [[tp3 o3] u3].
  destruct (qp_is_map tp1 && bool_decide (tp2 = QP_RAW) &&
            bool_decide (tp3 = QP_RAW)); by eexists _, _.
Qed.

(** A callback either reports nothing, or makes one report through
    [CLIENT_err] and writes nothing. *)
Lemma handle_report_shape adm_client ev :
  existsb is_report (handle adm_client ev).2 = false \/
  exists pre fmt args post,
    (handle adm_client ev).2 = pre ++ CLIENT_err adm_client fmt args ++ post /\
    existsb is_report (pre ++ post) = false /\
    existsb is_write (pre ++ post) = false.
Proof.
  destruct ev as [status|status|pkg|]; simpl.
  - unfold CLIENT_on_connect. case_bool_decide; [by left|].
    right. by eexists [_], _, _, [].
  - unfold CLIENT_write_cb. case_bool_decide; [|by left].
    right. by eexists [_], _, _, [_].
  - unfold CLIENT_on_data. case_bool_decide; [by left|].
    destruct (pkg_tp_of pkg) eqn:Htp; simpl;
      try (right; by eexists [_; _], _, _, []);
      try (by left);
      try (destruct (CLIENT_on_error_msg_reports adm_client pkg)
             as (fmt & args & ->);
           right; by eexists [_; _], _, _, []).
    destruct (adm_request adm_client); [|by left].
    right. by eexists [_; _], _, _, [].
  - right. by eexists [], _, _, [].
Qed.

(** In a callback that does not hand the reply to the status-response
    handler, an error package that is sent goes to the client that waits
    for the request, carries the id of the request and the type
    [CPROTO_ERR_ADMIN], and is followed by the call of [log_error] on the
    text of the package, the rollback of the request at its database path,
    the release of the manage socket and the close of the timer.  The
    callback sends no second error package and writes nothing to the
    server. *)
Theorem error_report_is_complete (adm_client : siri_admin_client_t)
    (ev : event) (to : nat) (pid : Z) (tp : pkg_tp) (fmt : string)
    (args : list fmt_arg) :
  (forall p, On_request_status p ∉ (handle adm_client ev).2) ->
  Pkg_send_err to pid tp fmt args ∈ (handle adm_client ev).2 ->
  to = adm_client_stream adm_client /\
  pid = adm_pid adm_client /\
  tp = CPROTO_ERR_ADMIN /\
  (exists pre post,
     (handle adm_client ev).2
     = pre ++ [Pkg_send_err to pid tp fmt args; Log_error_text fmt args;
               Request_rollback (adm_dbpath adm_client); Socket_decref;
               Timer_close] ++ post /\
     existsb is_report (pre ++ post) = false) /\
  existsb is_write (handle adm_client ev).2 = false.
Proof.
  intros _ Hin.
  destruct (handle_report_shape adm_client ev)
    as [Hnone|(pre & fmt' & args' & post & Heff & Hrep & Hwr)].
  { by apply (existsb_elem_of _ _ _ Hnone) in Hin. }
  rewrite existsb_app in Hrep, Hwr.
  apply orb_false_iff in Hrep as [Hrep1 Hrep2].
  apply orb_false_iff in Hwr as [Hwr1 Hwr2].
  rewrite Heff in Hin |- *.
  assert (Hhere : Pkg_send_err to pid tp fmt args
                  ∈ CLIENT_err adm_client fmt' args').
  { apply elem_of_app in Hin as [Hin|Hin].
    - by apply (existsb_elem_of _ _ _ Hrep1) in Hin.
    - apply elem_of_app in Hin as [Hin|Hin]; [done|].
      by apply (existsb_elem_of _ _ _ Hrep2) in Hin. }
  clear Hin. unfold CLIENT_err in Hhere.
  decompose_list_elem_of; simplify_eq.
  split; [done|]. split; [done|]. split; [done|]. split.
  - exists pre, post. split; [done|].
    rewrite existsb_app. by rewrite Hrep1, Hrep2.
  - rewrite !existsb_app, Hwr1, Hwr2. reflexivity.
Qed.

Lemma error_report_is_complete_witness :
  exists adm_client,
    started_request = inr adm_client /\
    existsb is_write (handle adm_client Ev_timeout).2 = false.
Proof.
  eexists. split; [reflexivity|].
  match goal with
  | |- existsb is_write (handle ?a _).2 = false =>
      apply (error_report_is_complete a Ev_timeout 1 7 CPROTO_ERR_ADMIN
               "request timeout" [])
  end.
  - intros p Hin. simpl in Hin. unfold CLIENT_err in Hin.
    decompose_list_elem_of; simplify_eq.
  - apply elem_of_cons. by left.
Defined.

(** ** The writes of the admin client *)

(** Whatever callback runs, a package is written to the server only as the
    last thing the callback does, right after the request timer has been
    started with the request time-out and no repeat; the package is the one
    [adm_client] then holds.  It is either the authentication request,
    written when the connection has been made, or the status query,
    written when an authentication success arrives in time, and then the
    request is in the state [CLIENT_REQUEST_STATUS]. *)
Theorem write_is_guarded (adm_client : siri_admin_client_t) (ev : event)
    (pkg : sirinet_pkg_t) :
  Uv_write pkg ∈ (handle adm_client ev).2 ->
  (exists pre,
     (handle adm_client ev).2
     = pre ++ [Timer_start CLIENT_REQUEST_TIMEOUT 0; Uv_write pkg] /\
     existsb is_write pre = false /\
     existsb is_report pre = false) /\
  adm_pkg (handle adm_client ev).1 = Some pkg /\
  ((ev = Ev_connect 0 /\ pkg = auth_request adm_client) \/
   (exists reply,
      ev = Ev_data reply /\
      pkg_tp_of reply = CPROTO_RES_AUTH_SUCCESS /\
      ~ timed_out adm_client /\
      pkg = status_request /\
      adm_request (handle adm_client ev).1 = CLIENT_REQUEST_STATUS)).
Proof.
  assert (Hnone : forall l : list effect,
            existsb is_write l = false -> Uv_write pkg ∈ l -> False).
  { intros l Hl Hin. by apply (existsb_elem_of _ _ _ Hl) in Hin. }
  destruct ev as [status|status|reply|]; simpl.
  - unfold CLIENT_on_connect. case_bool_decide as Hs.
    2:{ intros Hin. by apply Hnone in Hin. }
    subst status. simpl. intros Hin.
    decompose_list_elem_of; simplify_eq.
    split; [by eexists [_; _; _]|].
    split; [done|]. by left.
  - unfold CLIENT_write_cb.
    case_bool_decide; intros Hin; by apply Hnone in Hin.
  - unfold CLIENT_on_data. case_bool_decide as Ht.
    { intros Hin. by apply Hnone in Hin. }
    destruct (pkg_tp_of reply) eqn:Htp; simpl;
      try (intros Hin; by apply Hnone in Hin);
      try (destruct (CLIENT_on_error_msg_reports adm_client reply)
             as (fmt & args & ->);
           intros Hin; by apply Hnone in Hin).
    + intros Hin. decompose_list_elem_of; simplify_eq.
      split; [by eexists [_; _]|].
      split; [done|]. right. exists reply.
      split; [done|]. split; [done|]. split; [|done].
      unfold timed_out. intros Hset. by apply Hset.
    + destruct (adm_request adm_client); simpl;
        intros Hin; by apply Hnone in Hin.
  - intros Hin. by apply Hnone in Hin.
Qed.

Lemma write_is_guarded_witness :
  exists adm_client,
    started_request = inr adm_client /\
    adm_pkg (handle adm_client (Ev_connect 0)).1
    = Some (auth_request adm_client).
Proof.
  eexists. split; [reflexivity|].
  match goal with
  | |- adm_pkg (handle ?a _).1 = Some ?p =>
      apply (write_is_guarded a (Ev_connect 0) p)
  end.
  simpl. do 4 (apply elem_of_cons; right). apply elem_of_cons. by left.
Defined.

(** ** The request under any run of callbacks *)

Lemma same_request_refl a : same_request a a.
Proof. by repeat split. Qed.

Lemma same_request_trans a b c :
  same_request a b -> same_request b c -> same_request a c.
Proof.
  intros (A1 & A2 & A3 & A4 & A5 & A6 & A7 & A8)
         (B1 & B2 & B3 & B4 & B5 & B6 & B7 & B8).
  repeat split; congruence.
Qed.

Lemma CLIENT_err_same a b fmt args :
  same_request a b -> CLIENT_err a fmt args = CLIENT_err b fmt args.
Proof.
  intros (H1 & _ & _ & _ & _ & _ & H7 & H8). unfold CLIENT_err.
  by rewrite H1, H7, H8.
Qed.

(** A reply either leaves [adm_client] as it is, or, as an authentication
    success that is in time, moves the request on to the status query. *)
Lemma CLIENT_on_data_state adm_client pkg :
  (CLIENT_on_data adm_client pkg).1 = adm_client \/
  (pkg_tp_of pkg = CPROTO_RES_AUTH_SUCCESS /\
   ~ timed_out adm_client /\
   (CLIENT_on_data adm_client pkg).1
   = set_pkg (set_request adm_client CLIENT_REQUEST_STATUS) status_request).
Proof.
  unfold CLIENT_on_data, timed_out. case_bool_decide as Ht; [by left|].
  destruct (pkg_tp_of pkg) eqn:Htp; simpl;
    try (by left);
    try (destruct (CLIENT_on_error_msg_reports adm_client pkg)
           as (fmt & args & ->); by left).
  - right. split; [done|]. split; [|done]. intros Hset. by apply Hset.
  - left. by destruct (adm_request adm_client).
Qed.

Lemma handle_frame adm_client ev :
  same_request adm_client (handle adm_client ev).1 /\
  (adm_request adm_client = CLIENT_REQUEST_STATUS ->
   adm_request (handle adm_client ev).1 = CLIENT_REQUEST_STATUS) /\
  adm_flags (handle adm_client ev).1
  = match ev with
    | Ev_timeout => Z.lor (adm_flags adm_client) CLIENT_FLAGS_TIMEOUT
    | _ => adm_flags adm_client
    end.
Proof.
  destruct ev as [status|status|pkg|]; simpl.
  - unfold CLIENT_on_connect. case_bool_decide; simpl;
      (split; [by repeat split|done]).
  - split; [by repeat split|done].
  - destruct (CLIENT_on_data_state adm_client pkg) as [->|(_ & _ & ->)];
      (split; [by repeat split|done]).
  - split; [by repeat split|done].
Qed.

Lemma testbit_timeout_flag (flags n : Z) :
  (0 < n)%Z ->
  Z.testbit (Z.lor flags CLIENT_FLAGS_TIMEOUT) n = Z.testbit flags n.
Proof.
  intros Hn. rewrite Z.lor_spec. unfold CLIENT_FLAGS_TIMEOUT.
  rewrite (Z.bits_above_log2 1 n) by (simpl; lia). apply orb_false_r.
Qed.

(** Whatever callbacks run in whatever order, the members of [adm_client]
    that were set when the request started are never assigned again, a
    request that has reached the status query never goes back, the only
    bit of [flags] that ever changes is the time-out flag, and the request
    is timed out at the end exactly when it was at the start or the timer
    fired in between. *)
Theorem run_keeps_the_request (adm_client : siri_admin_client_t)
    (evs : list event) :
  same_request adm_client (run adm_client evs).1 /\
  (adm_request adm_client = CLIENT_REQUEST_STATUS ->
   adm_request (run adm_client evs).1 = CLIENT_REQUEST_STATUS) /\
  (forall n, (0 < n)%Z ->
     Z.testbit (adm_flags (run adm_client evs).1) n
     = Z.testbit (adm_flags adm_client) n) /\
  (timed_out (run adm_client evs).1 <->
   timed_out adm_client \/ Ev_timeout ∈ evs).
Proof.
  revert adm_client. induction evs as [|ev evs IH]; intros adm_client.
  - simpl. split; [apply same_request_refl|]. split; [done|].
    split; [done|]. split; [by left|].
    intros [Ht|Hin]; [done|by apply elem_of_nil in Hin].
  - simpl. destruct (handle_frame adm_client ev) as (Hsame & Hreq & Hflags).
    destruct (handle adm_client ev) as [adm' eff] eqn:Hh. simpl in *.
    destruct (IH adm') as (IHsame & IHreq & IHbits & IHt).
    destruct (run adm' evs) as [final log]. simpl in *.
    split; [by eapply same_request_trans|].
    split; [by intros Hr; apply IHreq, Hreq|]. split.
    + intros n Hn. rewrite IHbits by done. rewrite Hflags.
      destruct ev; try done. by apply testbit_timeout_flag.
    + rewrite IHt. unfold timed_out. rewrite Hflags. split.
      * intros [Ht|Hin]; [|right; by right].
        destruct ev; try (by left). right. by left.
      * intros [Ht|Hin].
        -- left. destruct ev; try done. apply timeout_flag_set.
        -- apply elem_of_cons in Hin as [<-|Hin]; [|by right].
           left. apply timeout_flag_set.
Qed.

(** ** Status responses and authentication *)

(** No effect of a list that is written out is the handling of a status
    response. *)
Ltac no_status :=
  let p := fresh "p" in
  let Hin := fresh "Hin" in
  intros p Hin; unfold CLIENT_err in Hin; simpl in Hin;
  decompose_list_elem_of; simplify_eq.

Lemma run_before_authentication (first : siri_admin_client_t)
    (evs : list event) :
  forall adm_client,
  same_request first adm_client ->
  adm_request adm_client = CLIENT_REQUEST_INIT ->
  (forall pkg, Ev_data pkg ∈ evs ->
     pkg_tp_of pkg <> CPROTO_RES_AUTH_SUCCESS) ->
  adm_request (run adm_client evs).1 = CLIENT_REQUEST_INIT /\
  forall ev done, (ev, done) ∈ (run adm_client evs).2 ->
    (forall pkg, On_request_status pkg ∉ done) /\
    (forall reply, ev = Ev_data reply ->
       pkg_tp_of reply = CPROTO_RES_QUERY ->
       done = dropped reply \/
       done = taken reply ++
                CLIENT_err first "unexpected query response" []).
Proof.
  induction evs as [|ev evs IH]; intros adm_client Hsame Hinit Hno.
  - simpl. split; [done|]. intros ev done Hin. by apply elem_of_nil in Hin.
  - simpl. destruct (handle_frame adm_client ev) as (Hsame' & _ & _).
    assert (Hstep : adm_request (handle adm_client ev).1
                    = CLIENT_REQUEST_INIT /\
              (forall pkg, On_request_status pkg ∉ (handle adm_client ev).2)
              /\
              (forall reply, ev = Ev_data reply ->
                 pkg_tp_of reply = CPROTO_RES_QUERY ->
                 (handle adm_client ev).2 = dropped reply \/
                 (handle adm_client ev).2
                 = taken reply ++
                     CLIENT_err first "unexpected query response" [])).
    { destruct ev as [status|status|pkg|]; simpl.
      - unfold CLIENT_on_connect. case_bool_decide; simpl;
          (split; [done|]); (split; [|done]); no_status.
      - unfold CLIENT_write_cb. split; [done|]. split; [|done].
        case_bool_decide; no_status.
      - assert (Hna : pkg_tp_of pkg <> CPROTO_RES_AUTH_SUCCESS)
          by (apply Hno; by left).
        rewrite (CLIENT_err_same first adm_client) by done.
        unfold CLIENT_on_data. case_bool_decide as Ht.
        { split; [done|]. split.
          - no_status.
          - intros reply [= <-] _. by left. }
        destruct (pkg_tp_of pkg) eqn:Htp; simpl; try done;
          try (destruct (CLIENT_on_error_msg_reports adm_client pkg)
                 as (fmt & args & ->); simpl);
          try rewrite Hinit;
          (split; [done|]); (split;
            [no_status
            |intros reply [= <-] Hq; try done; try congruence]).
        right. by rewrite Htp.
      - split; [done|]. split; [|done].
        no_status. }
    destruct (handle adm_client ev) as [adm' eff] eqn:Hh. simpl in *.
    destruct Hstep as (Hinit' & Hstat & Hquery).
    destruct (IH adm') as [IH1 IH2];
      [by eapply same_request_trans|done|
       by intros pkg Hin; apply Hno; right|].
    destruct (run adm' evs) as [final log]. simpl in *.
    split; [done|]. intros ev' done Hin.
    apply elem_of_cons in Hin as [[= -> ->]|Hin]; [|by apply IH2].
    by split.
Qed.

(** A request starts in the state [CLIENT_REQUEST_INIT].  As long as no
    authentication success has arrived, whatever else happens, the request
    stays in that state, no query response is handled as a status
    response, and a query response is either dropped, when the request had
    timed out, or answered with the report "unexpected query response". *)
Theorem status_response_needs_authentication
    (adm_client : siri_admin_client_t) (evs : list event) :
  adm_request adm_client = CLIENT_REQUEST_INIT ->
  (forall pkg, Ev_data pkg ∈ evs ->
     pkg_tp_of pkg <> CPROTO_RES_AUTH_SUCCESS) ->
  adm_request (run adm_client evs).1 = CLIENT_REQUEST_INIT /\
  forall ev done, (ev, done) ∈ (run adm_client evs).2 ->
    (forall pkg, On_request_status pkg ∉ done) /\
    (forall reply, ev = Ev_data reply ->
       pkg_tp_of reply = CPROTO_RES_QUERY ->
       done = dropped reply \/
       done = taken reply ++
                CLIENT_err adm_client "unexpected query response" []).
Proof.
  intros Hinit Hno.
  pose proof (same_request_refl adm_client) as Hsame.
  destruct (run_before_authentication adm_client evs adm_client
              Hsame Hinit Hno) as [Hreq Hlog].
  split; [exact Hreq|]. intros ev done Hin.
  destruct (Hlog ev done Hin) as [Hstat Hquery]. by split.
Qed.

Lemma status_response_needs_authentication_witness :
  exists adm_client,
    started_request = inr adm_client /\
    adm_request (run adm_client [Ev_connect 0; Ev_data query_reply]).1
    = CLIENT_REQUEST_INIT.
Proof.
  eexists. split; [reflexivity|].
  match goal with
  | |- adm_request (run ?a ?evs).1 = _ =>
      apply (status_response_needs_authentication a evs)
  end; [reflexivity|].
  intros pkg Hin. decompose_list_elem_of; simplify_eq. discriminate.
Defined.

(** ** The error text of the server *)

Lemma CLIENT_on_error_msg_text adm_client pkg k msg rest :
  pkg_data pkg = T_MAP_OPEN :: T_RAW k :: T_RAW msg :: rest ->
  CLIENT_on_error_msg adm_client pkg
  = (adm_client,
     CLIENT_err adm_client "error on server '%s:%u': %.*s"
       [Arg_s (adm_host adm_client); Arg_u (adm_port adm_client);
        Arg_u (Z.of_nat (String.length msg)); Arg_s msg]).
Proof. intros Hd. unfold CLIENT_on_error_msg. by rewrite Hd. Qed.

Lemma CLIENT_on_error_msg_other adm_client pkg :
  (forall k msg rest,
     pkg_data pkg <> T_MAP_OPEN :: T_RAW k :: T_RAW msg :: rest) ->
  CLIENT_on_error_msg adm_client pkg
  = (adm_client,
     CLIENT_err adm_client "unexpected error on server '%s:%u'"
       [Arg_s (adm_host adm_client); Arg_u (adm_port adm_client)]).
Proof.
  intros Hne. unfold CLIENT_on_error_msg.
  destruct (pkg_data pkg) as [|t1 [|t2 [|t3 rest]]]; try reflexivity;
    destruct t1; try reflexivity;
    destruct t2; try reflexivity.
  destruct t3; try reflexivity.
  by destruct (Hne _ _ _ eq_refl).
Qed.

Lemma CLIENT_on_data_error_response adm_client pkg :
  ~ timed_out adm_client ->
  error_response (pkg_tp_of pkg) = true ->
  CLIENT_on_data adm_client pkg
  = ((CLIENT_on_error_msg adm_client pkg).1,
     taken pkg ++ (CLIENT_on_error_msg adm_client pkg).2).
Proof.
  intros Hnot Htp. unfold CLIENT_on_data, timed_out in *.
  rewrite bool_decide_eq_false_2 by done. unfold taken.
  destruct (pkg_tp_of pkg); try discriminate Htp;
    by destruct (CLIENT_on_error_msg adm_client pkg).
Qed.

(** An error response of the server that arrives in time ends the request
    with one report.  When the body of the response is a map whose first
    key and first value are raw, the report carries the host, the port and
    that value as the text of the server; for every other body the report
    is "unexpected error on server" with the host and the port.  Nothing
    of [adm_client] changes. *)
Theorem server_error_is_relayed (adm_client : siri_admin_client_t)
    (pkg : sirinet_pkg_t) :
  ~ timed_out adm_client ->
  error_response (pkg_tp_of pkg) = true ->
  (forall k msg rest,
     pkg_data pkg = T_MAP_OPEN :: T_RAW k :: T_RAW msg :: rest ->
     CLIENT_on_data adm_client pkg
     = (adm_client,
        taken pkg ++
          CLIENT_err adm_client "error on server '%s:%u': %.*s"
            [Arg_s (adm_host adm_client); Arg_u (adm_port adm_client);
             Arg_u (Z.of_nat (String.length msg)); Arg_s msg])) /\
  ((forall k msg rest,
      pkg_data pkg <> T_MAP_OPEN :: T_RAW k :: T_RAW msg :: rest) ->
   CLIENT_on_data adm_client pkg
   = (adm_client,
      taken pkg ++
        CLIENT_err adm_client "unexpected error on server '%s:%u'"
          [Arg_s (adm_host adm_client); Arg_u (adm_port adm_client)])).
Proof.
  intros Hnot Htp.
  rewrite (CLIENT_on_data_error_response adm_client pkg Hnot Htp). split.
  - intros k msg rest Hd.
    by rewrite (CLIENT_on_error_msg_text adm_client pkg k msg rest Hd).
  - intros Hne. by rewrite (CLIENT_on_error_msg_other adm_client pkg Hne).
Qed.

Lemma server_error_is_relayed_witness :
  exists adm_client,
    started_request = inr adm_client /\
    CLIENT_on_data adm_client (error_reply "disk full")
    = (adm_client,
       taken (error_reply "disk full") ++
         CLIENT_err adm_client "error on server '%s:%u': %.*s"
           [Arg_s "127.0.0.1"; Arg_u 9000; Arg_u 9; Arg_s "disk full"]).
Proof.
  eexists. split; [reflexivity|].
  match goal with
  | |- CLIENT_on_data ?a ?p = _ =>
      assert (Hnot : ~ timed_out a) by (intros Hset; by apply Hset);
      assert (Htp : error_response (pkg_tp_of p) = true) by reflexivity;
      destruct (server_error_is_relayed a p Hnot Htp) as [Htext _];
      apply (Htext "error_msg" "disk full" [])
  end.
  reflexivity.
Defined.
